(** * PyMUD: Telnet classifier, sub-negotiation codecs and scripting engine

    A shallow embedding of the core of [pymud] (protocol.py, objects.py,
    session/io.py, session/variables.py) together with the properties of
    its behaviour that the specification states.

    Conventions.
    - Python [bytes] are [list byte]; Python [str] is [string].
    - A Python exception is a value of [pyexn]; a call that may raise
      returns [result A].
    - Calls out of a modelled function into collaborators (session
      callbacks, option handlers, user callbacks) are recorded as a list
      of events, in call order. *)

From Stdlib Require Import ZArith Lia Bool Ascii String Strings.Byte.
From stdpp Require Import gmap strings list pretty sorting.

Open Scope list_scope.

(** ** Exceptions *)

Inductive pyexn : Type :=
| AttributeError
| UnboundLocalError
| TypeError
| KeyError
| UnicodeDecodeError
| IndexError
| ValueError
| InvalidCodeBlock   (* Exception("Invalid code block, unmatched braces") *)
| UnmatchedQuotes.   (* Exception("Unmatched quotes") *)

Inductive result (A : Type) : Type :=
| Ok (a : A)
| Raise (e : pyexn).
Arguments Ok {A} a.
Arguments Raise {A} e.

#[global] Instance result_ret : MRet result := fun _ a => Ok a.
#[global] Instance result_bind : MBind result := fun _ _ k r =>
  match r with
  | Ok a => k a
  | Raise e => Raise e
  end.

Definition is_ok {A} (r : result A) : bool :=
  match r with Ok _ => true | Raise _ => false end.

#[global] Instance byte_eq_dec : EqDecision byte := Byte.byte_eq_dec.

(** ** protocol.py: the byte classifier *)

Module Telnet.

Definition IAC  : byte := xff.
Definition DONT : byte := xfe.
Definition DO   : byte := xfd.
Definition WONT : byte := xfc.
Definition WILL : byte := xfb.
Definition SB   : byte := xfa.
Definition GA   : byte := xf9.
Definition NOP  : byte := xf1.
Definition SE   : byte := xf0.

(** Option bytes listed in [_option_name_str]. *)
Definition LINEMODE : byte := x22.
Definition SGA      : byte := x03.
Definition ECHO     : byte := x01.
Definition CHARSET  : byte := x2a.
Definition TTYPE    : byte := x18.
Definition NAWS     : byte := x1f.
Definition MNES     : byte := x27.
Definition GMCP     : byte := xc9.
Definition MSDP     : byte := x45.
Definition MSSP     : byte := x46.
Definition MCCP2    : byte := x56.
Definition MCCP3    : byte := x57.
Definition MSP      : byte := x5a.
Definition MXP      : byte := x5b.

Definition _option_name_str : list (byte * string) :=
  [ (LINEMODE, "LINEMODE"); (SGA, "SGA"); (ECHO, "ECHO");
    (CHARSET, "CHARSET"); (TTYPE, "TTYPE"); (NAWS, "NAWS");
    (MNES, "MNES"); (GMCP, "GMCP"); (MSDP, "MSDP"); (MSSP, "MSSP");
    (MCCP2, "MCCP2"); (MCCP3, "MCCP3"); (MSP, "MSP"); (MXP, "MXP") ].

(** [byte in _option_name_str.keys()] *)
Definition is_option (b : byte) : bool :=
  bool_decide (b ∈ _option_name_str.*1).

(** The methods [handle_<name>] that the class defines: [__init__] fills
    [_iac_handlers] with [getattr(self, "handle_<name>", None)], which is
    [None] for LINEMODE only. *)
Definition _iac_handlers (b : byte) : bool :=
  bool_decide (b ∈ [SGA; ECHO; CHARSET; TTYPE; NAWS; MNES; GMCP; MSDP;
                    MSSP; MCCP2; MCCP3; MSP; MXP]).

(** The methods [handle_<name>_sb] that the class defines; every other
    entry of [_iac_subneg_handlers] is [None]. *)
Definition _iac_subneg_handlers (b : byte) : bool :=
  bool_decide (b ∈ [CHARSET; TTYPE; MNES; GMCP; MSDP; MSSP]).

Inductive machine : Type :=
| normal
| waitcommand
| waitoption
| waitsubnegotiation
| waitsbdata
| waitse.

(** The attributes of [MudClientProtocol] that [data_received] reads and
    writes.  [_iac_command], [_iac_sub_neg_data] and [_iac_sub_neg_option]
    do not exist before their first assignment. *)
Record protocol : Type := mkProtocol {
  state_machine : machine;
  bytes_received_count : nat;
  iac_command : option byte;
  iac_sub_neg_data : option (list byte);
  iac_sub_neg_option : option byte
}.

(** [connection_made] *)
Definition connection_made : protocol :=
  mkProtocol normal 0 None None None.

(** Calls that [data_received] makes, in order. *)
Inductive event : Type :=
| go_ahead                                   (* session.go_ahead() *)
| feed_data (b : byte)                       (* session.feed_data(byte) *)
| iac_handler (opt cmd : byte)               (* self._iac_handlers[opt](cmd) *)
| iac_default_handler (cmd opt : byte)       (* self._iac_default_handler(cmd, opt) *)
| iac_subneg_handler (opt : byte) (data : list byte).
                                             (* self._iac_subneg_handlers[opt](data) *)

Definition set_state (p : protocol) (m : machine) : protocol :=
  mkProtocol m (bytes_received_count p) (iac_command p)
             (iac_sub_neg_data p) (iac_sub_neg_option p).

(** [self._iac_sub_neg_data += byte] *)
Definition append_sub_neg (p : protocol) (b : byte) : result protocol :=
  match iac_sub_neg_data p with
  | Some d =>
      Ok (mkProtocol (state_machine p) (bytes_received_count p)
                     (iac_command p) (Some (d ++ [b])) (iac_sub_neg_option p))
  | None => Raise AttributeError
  end.

(** One iteration of the [for byte in data] loop, after the byte counter
    has been incremented.  The result is the protocol after the iteration
    and the calls made.  [Raise] is the iteration reading an attribute
    that was never assigned, which no run that starts with
    [connection_made] does.  The handlers called are recorded, not run:
    their bodies are modelled separately below. *)
Definition classify (p : protocol) (b : byte) : result (protocol * list event) :=
  match state_machine p with
  | normal =>
      if bool_decide (b = IAC)
      then Ok (set_state p waitcommand, [go_ahead])
      else Ok (p, [feed_data b])
  | waitcommand =>
      if bool_decide (b ∈ [WILL; WONT; DO; DONT]) then
        Ok (mkProtocol waitoption (bytes_received_count p) (Some b)
                       (iac_sub_neg_data p) (iac_sub_neg_option p), [])
      else if bool_decide (b = SB) then
        Ok (mkProtocol waitsubnegotiation (bytes_received_count p) (Some b)
                       (Some [IAC; SB]) (iac_sub_neg_option p), [])
      else if bool_decide (b = NOP) then Ok (set_state p normal, [go_ahead])
      else if bool_decide (b = GA) then Ok (set_state p normal, [go_ahead])
      else Ok (set_state p normal, [])
  | waitoption =>
      match iac_command p with
      | None => Raise AttributeError
      | Some cmd =>
          if is_option b then
            if _iac_handlers b
            then Ok (set_state p normal, [iac_handler b cmd])
            else Ok (set_state p normal, [iac_default_handler cmd b])
          else Ok (set_state p normal, [iac_default_handler cmd b])
      end
  | waitsubnegotiation =>
      if bool_decide (b ≠ IAC) then
        p' ← append_sub_neg p b;
        Ok (mkProtocol waitsbdata (bytes_received_count p') (iac_command p')
                       (iac_sub_neg_data p') (Some b), [])
      else Ok (set_state p normal, [])
  | waitsbdata =>
      p' ← append_sub_neg p b;
      if bool_decide (b = IAC)
      then Ok (set_state p' waitse, [])
      else Ok (p', [])
  | waitse =>
      p' ← append_sub_neg p b;
      if bool_decide (b = SE) then
        match iac_sub_neg_option p', iac_sub_neg_data p' with
        | Some opt, Some d =>
            if is_option opt then
              if _iac_subneg_handlers opt
              then Ok (set_state p' normal, [iac_subneg_handler opt d])
              else Ok (set_state p' normal, [])
            else Ok (set_state p' normal, [])
        | _, _ => Raise AttributeError
        end
      else Ok (set_state p' waitsbdata, [])
  end.

Definition count_byte (p : protocol) : protocol :=
  mkProtocol (state_machine p) (S (bytes_received_count p)) (iac_command p)
             (iac_sub_neg_data p) (iac_sub_neg_option p).

(** [data_received]: the protocol it leaves behind, the calls it made, and
    the exception it raised, if any.  An exception ends the loop; what
    was assigned and called before it stays. *)
Fixpoint data_received (p : protocol) (data : list byte)
  : protocol * list event * option pyexn :=
  match data with
  | [] => (p, [], None)
  | b :: rest =>
      match classify (count_byte p) b with
      | Raise e => (count_byte p, [], Some e)
      | Ok (p1, ev) =>
          let '(p2, ev2, ex) := data_received p1 rest in
          (p2, ev ++ ev2, ex)
      end
  end.

(** The sub-negotiation handler calls among a list of calls. *)
Definition dispatches (evs : list event) : list (byte * list byte) :=
  omap (fun e => match e with
                 | iac_subneg_handler opt d => Some (opt, d)
                 | _ => None
                 end) evs.

(** [data[3:-2]], the part of the buffer that the codecs decode. *)
Definition sb_payload (data : list byte) : list byte :=
  take (length data - 5) (drop 3 data).

(** What a sender puts between [IAC SB <opt>] and [IAC SE]: bytes other
    than 255 as they are, and the byte 255 doubled ([IAC IAC]). *)
Inductive sb_item : Type :=
| plain (b : byte)
| escaped_iac.

Definition sb_wire (i : sb_item) : list byte :=
  match i with
  | plain b => [b]
  | escaped_iac => [IAC; IAC]
  end.

Definition sb_encode (items : list sb_item) : list byte :=
  items ≫= sb_wire.

Definition is_escaped (i : sb_item) : bool :=
  match i with escaped_iac => true | plain _ => false end.

Definition escapes (items : list sb_item) : nat :=
  length (filter (fun i => is_escaped i = true) items).

Definition well_formed_item (i : sb_item) : Prop := i ≠ plain IAC.

(** The attributes that a state of the classifier reads have been
    assigned. *)
Definition attributes_set (p : protocol) : Prop :=
  match state_machine p with
  | normal | waitcommand => True
  | waitoption => is_Some (iac_command p)
  | waitsubnegotiation => is_Some (iac_sub_neg_data p)
  | waitsbdata | waitse =>
      is_Some (iac_sub_neg_data p) /\ is_Some (iac_sub_neg_option p)
  end.

End Telnet.

(** ** objects.py: code lines and code blocks

    A Python [str] is modelled by a [string]; the scanners below inspect
    only braces, the two quote characters, the semicolon, the sigils
    and the space, one character at a time. *)

Module Code.

Inductive syncmode : Type :=
| dontcare
| sync
| async
| conflict.

(** The loop variables of [CodeLine.create_line]. *)
Record line_scan : Type := mkLineScan {
  code_params : list string;
  arg : string;
  brace_count : Z;
  single_quote : Z;
  double_quote : Z
}.

(** The double quote character. *)
Definition dquote : ascii := "034"%char.

(** [arg += ch] *)
Definition add_char (s : string) (ch : ascii) : string :=
  s +:+ String ch "".

(** The body of [for i in range(start_idx, len(line))] in [create_line]. *)
Definition scan_char (st : line_scan) (ch : ascii) : result line_scan :=
  let '(mkLineScan params arg bc sq dq) := st in
  if bool_decide (ch = "{"%char) then
    Ok (mkLineScan params (add_char arg ch) (bc + 1) sq dq)
  else if bool_decide (ch = "}"%char) then
    let bc := (bc - 1)%Z in
    if bool_decide (bc < 0)%Z then Raise InvalidCodeBlock
    else Ok (mkLineScan params (add_char arg ch) bc sq dq)
  else if bool_decide (ch = "'"%char) then
    if bool_decide (sq = 0)%Z then Ok (mkLineScan params arg bc 1 dq)
    else if bool_decide (sq = 1)%Z then Ok (mkLineScan params arg bc 0 dq)
    else Ok st
  else if bool_decide (ch = dquote) then
    if bool_decide (dq = 0)%Z then Ok (mkLineScan params arg bc sq 1)
    else if bool_decide (dq = 1)%Z then Ok (mkLineScan params arg bc sq 0)
    else Ok st
  else if bool_decide (ch = " "%char) then
    if bool_decide (bc = 0)%Z && bool_decide (dq = 0)%Z && bool_decide (sq = 0)%Z
    then Ok (mkLineScan (params ++ [arg]) "" bc sq dq)
    else Ok (mkLineScan params (add_char arg ch) bc sq dq)
  else Ok (mkLineScan params (add_char arg ch) bc sq dq).

Fixpoint scan_line (st : line_scan) (chars : list ascii) : result line_scan :=
  match chars with
  | [] => Ok st
  | ch :: rest => st' ← scan_char st ch; scan_line st' rest
  end.

(** [arg[0] in ("@", "%")] for a non-empty [arg] *)
Definition starts_with_sigil (s : string) : bool :=
  match s with
  | String c _ => bool_decide (c = "@"%char) || bool_decide (c = "%"%char)
  | EmptyString => false
  end.

(** [CodeLine.create_line].  On the empty line the [else] branch reads
    [syncmode], which is assigned in the other branch only. *)
Definition create_line (line : string)
  : result (syncmode * bool * list string) :=
  match line with
  | EmptyString => Raise UnboundLocalError
  | String c0 tl =>
      let '(params0, chars) :=
        if bool_decide (c0 = "#"%char)
        then (["#"%string], list_ascii_of_string tl)
        else ([], list_ascii_of_string line) in
      st ← scan_line (mkLineScan params0 "" 0 0 0) chars;
      if bool_decide (single_quote st > 0)%Z || bool_decide (double_quote st > 0)%Z
      then Raise UnmatchedQuotes
      else
        let '(params, hasvar) :=
          if bool_decide (arg st ≠ ""%string)
          then (code_params st ++ [arg st], starts_with_sigil (arg st))
          else (code_params st, false) in
        let mode :=
          match params with
          | p0 :: p1 :: _ =>
              if bool_decide (p0 = "#"%string) then
                if bool_decide (p1 ∈ ["gag"%string; "replace"%string]) then sync
                else if bool_decide (p1 ∈ ["wa"%string; "wait"%string]) then async
                else dontcare
              else dontcare
          | _ => dontcare
          end in
        Ok (mode, hasvar, params)
  end.

(** A [CodeLine] object: [__code], [__syncmode], [__hasvar] and [code]. *)
Record CodeLine : Type := mkCodeLine {
  commandText : string;
  syncMode : syncmode;
  hasvar : bool;
  code : list string
}.

(** [CodeLine.__init__] *)
Definition new_CodeLine (_code : string) : result CodeLine :=
  '(mode, hv, params) ← create_line _code;
  Ok (mkCodeLine _code mode hv params).

(** The loop variables of [CodeBlock.create_block]. *)
Record block_scan : Type := mkBlockScan {
  code_lines : list string;
  cur_line : string;
  block_brace_count : Z
}.

Definition split_char (st : block_scan) (ch : ascii) : result block_scan :=
  let '(mkBlockScan lines line bc) := st in
  if bool_decide (ch = "{"%char) then
    Ok (mkBlockScan lines (add_char line ch) (bc + 1))
  else if bool_decide (ch = "}"%char) then
    let bc := (bc - 1)%Z in
    if bool_decide (bc < 0)%Z then Raise InvalidCodeBlock
    else Ok (mkBlockScan lines (add_char line ch) bc)
  else if bool_decide (ch = ";"%char) then
    if bool_decide (bc = 0)%Z
    then Ok (mkBlockScan (lines ++ [line]) "" bc)
    else Ok (mkBlockScan lines (add_char line ch) bc)
  else Ok (mkBlockScan lines (add_char line ch) bc).

Fixpoint split_block (st : block_scan) (chars : list ascii) : result block_scan :=
  match chars with
  | [] => Ok st
  | ch :: rest => st' ← split_char st ch; split_block st' rest
  end.

(** The characters scanned so far: those of the pieces found, one
    separator after each, and those of the piece being read. *)
Definition scanned (st : block_scan) : nat :=
  sum_list_with (fun p => S (String.length p)) (code_lines st)
  + String.length (cur_line st).

(** [(len(code) >= 2) and (code[0] == "{") and (code[-1] == "}")] *)
Definition is_wrapped (code : string) : bool :=
  match list_ascii_of_string code with
  | c0 :: c1 :: rest =>
      bool_decide (c0 = "{"%char) && bool_decide (last (c1 :: rest) = Some "}"%char)
  | _ => false
  end.

(** [code[1:-1]] *)
Definition strip_wrapper (code : string) : string :=
  let chars := list_ascii_of_string code in
  string_of_list_ascii (take (length chars - 2) (drop 1 chars)).

(** The pieces [code_lines] that [create_block] computes, after removing
    the wrapper, together with the code they were computed from. *)
Definition block_pieces (code : string) : result (string * list string) :=
  let code := if is_wrapped code then strip_wrapper code else code in
  st ← split_block (mkBlockScan [] "" 0) (list_ascii_of_string code);
  let lines :=
    if bool_decide (cur_line st ≠ ""%string)
    then code_lines st ++ [cur_line st] else code_lines st in
  Ok (code, lines).

(** [for line in code_lines: codes.extend(CodeBlock.create_block(line))],
    with the recursive call as a parameter. *)
Fixpoint extend_codes (block : string -> option (result (list CodeLine)))
    (lines : list string) : option (result (list CodeLine)) :=
  match lines with
  | [] => Some (Ok [])
  | line :: rest =>
      match block line with
      | None => None
      | Some (Raise e) => Some (Raise e)
      | Some (Ok cls) =>
          match extend_codes block rest with
          | None => None
          | Some (Raise e) => Some (Raise e)
          | Some (Ok cls') => Some (Ok (cls ++ cls'))
          end
      end
  end.

(** [CodeBlock.create_block].  The recursion is on the pieces of the
    code, each shorter than the code; [fuel] bounds its depth, and [None]
    is the bound being reached. *)
Fixpoint create_block_rec (fuel : nat) (code : string)
  : option (result (list CodeLine)) :=
  match fuel with
  | 0 => None
  | S fuel =>
      match block_pieces code with
      | Raise e => Some (Raise e)
      | Ok (code', [_]) =>
          Some (cl ← new_CodeLine code'; Ok [cl])
      | Ok (_, lines) => extend_codes (create_block_rec fuel) lines
      end
  end.

Definition create_block (code : string) : option (result (list CodeLine)) :=
  create_block_rec (S (String.length code)) code.

(** One pass of the loop of [CodeBlock.__init__] that combines the modes
    of the lines: the new mode, and whether the loop [break]s. *)
Definition combine_mode (acc : syncmode) (m : syncmode) : syncmode * bool :=
  match m with
  | dontcare => (acc, false)
  | sync =>
      match acc with
      | dontcare | sync => (sync, false)
      | async => (conflict, true)
      | conflict => (acc, false)
      end
  | async =>
      match acc with
      | dontcare | async => (async, false)
      | sync => (conflict, true)
      | conflict => (acc, false)
      end
  | conflict => (acc, false)
  end.

Fixpoint block_syncmode (acc : syncmode) (codes : list CodeLine) : syncmode :=
  match codes with
  | [] => acc
  | cl :: rest =>
      let '(acc', stop) := combine_mode acc (syncMode cl) in
      if stop then acc' else block_syncmode acc' rest
  end.

(** A [CodeBlock] object. *)
Record CodeBlock : Type := mkCodeBlock {
  block_code : string;
  codes : list CodeLine;
  block_mode : syncmode
}.

(** [CodeBlock.__init__] *)
Definition new_CodeBlock (code : string) : option (result CodeBlock) :=
  match create_block code with
  | None => None
  | Some (Raise e) => Some (Raise e)
  | Some (Ok cls) => Some (Ok (mkCodeBlock code cls (block_syncmode dontcare cls)))
  end.

End Code.

(** ** Well-formed script lines

    The occurrences of a character in a line, and the two conditions on a
    line under which the scanner accepts it. *)

Module Wf.

Definition occurrences (c : ascii) (chars : list ascii) : nat :=
  length (filter (fun x => x = c) chars).

(** Every single quote and every double quote has a partner. *)
Definition balanced_quotes (line : string) : Prop :=
  Nat.Even (occurrences "'"%char (list_ascii_of_string line))
  /\ Nat.Even (occurrences Code.dquote (list_ascii_of_string line)).

(** No closing brace comes before its opening brace. *)
Definition no_unmatched_close (line : string) : Prop :=
  forall k,
    occurrences "}"%char (take k (list_ascii_of_string line))
    <= occurrences "{"%char (take k (list_ascii_of_string line)).

End Wf.

(** ** Python values

    The values that session variables, captures and keyword arguments
    hold.  [PObj] is any other object, known by its truth value and by
    its [str()]. *)

Inductive pyval : Type :=
| PNone
| PBool (b : bool)
| PInt (z : Z)
| PStr (s : string)
| PObj (truth : bool) (text : string).

#[global] Instance pyval_eq_dec : EqDecision pyval.
Proof. solve_decision. Defined.

(** [bool(v)] *)
Definition truthy (v : pyval) : bool :=
  match v with
  | PNone => false
  | PBool b => b
  | PInt z => bool_decide (z ≠ 0%Z)
  | PStr s => bool_decide (s ≠ ""%string)
  | PObj t _ => t
  end.

(** [str(v)], which is also [f"{v}"] *)
Definition py_str (v : pyval) : string :=
  match v with
  | PNone => "None"
  | PBool true => "True"
  | PBool false => "False"
  | PInt z => pretty z
  | PStr s => s
  | PObj _ t => t
  end.

(** [kwargs.get(key, None) or b] *)
Definition get_or (a : option pyval) (b : pyval) : pyval :=
  match a with
  | Some v => if truthy v then v else b
  | None => b
  end.

(** [str.replace(old, new, 1)] for a non-empty [old] *)
Fixpoint replace_first (old new s : string) : string :=
  if String.prefix old s
  then new +:+ String.substring (String.length old)
                 (String.length s - String.length old) s
  else match s with
       | EmptyString => EmptyString
       | String c s' => String c (replace_first old new s')
       end.

(** ** session/variables.py and [CodeLine.expand] *)

Module Expand.
Import Code.

(** [Session.getVariable]: [self._variables.get(name, default)] *)
Definition getVariable (vars : gmap string pyval) (name : string)
    (dflt : pyval) : pyval :=
  default dflt (vars !! name).

(** The keyword arguments that [expand] reads; [None] is an absent key. *)
Record kwargs : Type := mkKwargs {
  kw_line : option pyval;
  kw_raw : option pyval;
  kw_wildcards : option (list pyval)
}.

(** The tokens [f"%{i}" for i in range(1, 10)], each with [int(item[1:])]. *)
Definition positional : list (string * nat) :=
  [ ("%1", 1); ("%2", 2); ("%3", 3); ("%4", 4); ("%5", 5);
    ("%6", 6); ("%7", 7); ("%8", 8); ("%9", 9) ]%string.

Fixpoint assoc {A} (key : string) (l : list (string * A)) : option A :=
  match l with
  | [] => None
  | (k, v) :: l => if bool_decide (k = key) then Some v else assoc key l
  end.

Definition positional_index (item : string) : option nat :=
  assoc item positional.

(** [item[0]] of a non-empty item *)
Definition first_char (item : string) : option ascii :=
  match item with
  | String c _ => Some c
  | EmptyString => None
  end.

(** [item[1:]] *)
Definition tail (item : string) : string :=
  match item with
  | String _ s => s
  | EmptyString => EmptyString
  end.

(** The value that one non-empty token contributes to [new_code]. *)
Definition expand_item (vars : gmap string pyval) (line raw : pyval)
    (wildcards : option (list pyval)) (item : string) : result pyval :=
  match positional_index item with
  | Some idx =>
      match wildcards with
      | None => Raise TypeError                       (* len(None) *)
      | Some wl =>
          if bool_decide (idx <= length wl)
          then Ok (default PNone (wl !! (idx - 1)))
          else Ok (PStr "None")
      end
  | None =>
      if bool_decide (item = "%line"%string) then Ok line
      else if bool_decide (item = "%raw"%string) then Ok raw
      else if bool_decide (first_char item = Some "%"%char)
      then Ok (getVariable vars item (PStr ""))
      else if bool_decide (first_char item = Some "@"%char)
      then Ok (getVariable vars (tail item) (PStr ""))
      else Ok (PStr item)
  end.

(** Whether the token is one that [expand] also substitutes in the text
    of the line: every case but the last. *)
Definition is_substituted (item : string) : bool :=
  bool_decide (is_Some (positional_index item))
  || bool_decide (first_char item = Some "%"%char)
  || bool_decide (first_char item = Some "@"%char).

(** The loop [for item in self.code] of [expand]. *)
Fixpoint expand_loop (vars : gmap string pyval) (line raw : pyval)
    (wildcards : option (list pyval)) (items : list string)
    (new_code_str : string) (new_code : list pyval)
  : result (string * list pyval) :=
  match items with
  | [] => Ok (new_code_str, new_code)
  | item :: rest =>
      if bool_decide (String.length item = 0)
      then expand_loop vars line raw wildcards rest new_code_str new_code
      else
        v ← expand_item vars line raw wildcards item;
        expand_loop vars line raw wildcards rest
          (if is_substituted item
           then replace_first item (py_str v) new_code_str
           else new_code_str)
          (new_code ++ [v])
  end.

(** [CodeLine.expand(session, **kwargs)] *)
Definition expand (cl : CodeLine) (vars : gmap string pyval) (kw : kwargs)
  : result (string * list pyval) :=
  let line := get_or (kw_line kw) (getVariable vars "%line" (PStr "None")) in
  let raw := get_or (kw_raw kw) (getVariable vars "%raw" (PStr "None")) in
  expand_loop vars line raw (kw_wildcards kw) (code cl) (commandText cl) [].

End Expand.

(** ** What a token is to become

    The relation between a non-empty token and the value that takes its
    place, case by case as the specification lists them; [line] and [raw]
    are the values in force for [%line] and [%raw]. *)

Module ExpandSpec.
Import Expand.

Definition token_image (vars : gmap string pyval) (line raw : pyval)
    (wl : list pyval) (item : string) (v : pyval) : Prop :=
  (forall k, 1 <= k <= 9 -> item = ("%" +:+ pretty k)%string ->
     (forall c, wl !! (k - 1) = Some c -> v = c)
     /\ (length wl < k -> v = PStr "None"))
  /\ (item = "%line"%string -> v = line)
  /\ (item = "%raw"%string -> v = raw)
  /\ (first_char item = Some "%"%char ->
      (forall k, 1 <= k <= 9 -> item <> ("%" +:+ pretty k)%string) ->
      item <> "%line"%string -> item <> "%raw"%string ->
      v = getVariable vars item (PStr ""))
  /\ (forall name, item = String "@" name ->
      v = getVariable vars name (PStr ""))
  /\ (first_char item <> Some "%"%char -> first_char item <> Some "@"%char ->
      v = PStr item).

End ExpandSpec.

(** ** objects.py: objects that match lines *)

Module Objects.

(** [BaseObject.NOTSET] (-1), [FAILURE] (0), [SUCCESS] (1), [TIMEOUT] (2)
    and [ABORT] (3). *)
Inductive outcome : Type :=
| NOTSET
| FAILURE
| SUCCESS
| TIMEOUT
| ABORT.

#[global] Instance outcome_eq_dec : EqDecision outcome.
Proof. solve_decision. Defined.

(** [BaseObject.State] *)
Record State : Type := mkState {
  state_result : outcome;
  state_id : string;
  state_line : string;
  state_wildcards : list pyval
}.

(** A compiled pattern, known by its [match] method: [None] when the
    pattern does not match at the start of the line, and [m.groups()]
    when it does. *)
Definition regex : Type := string -> option (list pyval).

(** The argument of the [patterns] setter: a string, or several. *)
Inductive pattern_spec : Type :=
| one_line (pattern : string)
| many_lines (patterns : list string).

(** A [MatchObject].  [_regExp], [_regExps] and [_mline] exist only once
    the [patterns] setter has assigned them; [state] only after the first
    [match]. *)
Record MatchObject : Type := mkMatchObject {
  id : string;
  enabled : bool;
  priority : Z;
  sync : bool;
  oneShot : bool;
  isRegExp : bool;
  keepEval : bool;
  raw : bool;
  patterns : pattern_spec;
  multiline : bool;
  linesToMatch : nat;
  _regExp : option regex;
  _regExps : option (list regex);
  _mline : option nat;
  wildcards : list pyval;
  lines : list string;
  event : bool;
  state : option State
}.

(** The calls of [match] to the callbacks of the object. *)
Inductive callback : Type :=
| onSuccess (id line : string) (wildcards : list pyval)
| onFailure (id line : string) (wildcards : list pyval)
| onTimeout (id line : string) (wildcards : list pyval).

Definition newline : string := String "010"%char "".

(** [pattern in line] *)
Fixpoint is_substring (pattern line : string) : bool :=
  String.prefix pattern line
  || match line with
     | EmptyString => false
     | String _ rest => is_substring pattern rest
     end.

(** What the matching part of [match] assigns. *)
Record matching : Type := mkMatching {
  m_result : outcome;
  m_wildcards : list pyval;
  m_lines : list string;
  m_mline : option nat
}.

Definition get_attr {A} (a : option A) : result A :=
  match a with
  | Some x => Ok x
  | None => Raise AttributeError
  end.

(** [self._regExps[i]] *)
Definition get_item {A} (l : list A) (i : nat) : result A :=
  match l !! i with
  | Some x => Ok x
  | None => Raise IndexError
  end.

(** The first part of [MatchObject.match], up to the construction of the
    state.  In the multi-line case [linesToMatch - 1] is compared with a
    counter that is positive, so the subtraction on [nat] agrees with
    the one on integers. *)
Definition match_line (self : MatchObject) (line : string) : result matching :=
  if negb (multiline self) then
    if isRegExp self then
      re ← get_attr (_regExp self);
      match re line with
      | Some groups =>
          Ok (mkMatching SUCCESS groups [line] (_mline self))
      | None =>
          Ok (mkMatching NOTSET (wildcards self) (lines self) (_mline self))
      end
    else
      match patterns self with
      | one_line p =>
          if is_substring p line
          then Ok (mkMatching SUCCESS [] [line] (_mline self))
          else Ok (mkMatching NOTSET (wildcards self) (lines self) (_mline self))
      | many_lines _ => Raise TypeError      (* list in str *)
      end
  else
    mline ← get_attr (_mline self);
    if bool_decide (mline = 0) then
      res ← get_attr (_regExps self);
      re ← get_item res 0;
      match re line with
      | Some groups => Ok (mkMatching NOTSET groups [line] (Some 1))
      | None => Ok (mkMatching NOTSET (wildcards self) (lines self) (Some mline))
      end
    else if bool_decide (0 < mline) && bool_decide (mline < linesToMatch self - 1) then
      res ← get_attr (_regExps self);
      re ← get_item res mline;
      match re line with
      | Some groups =>
          Ok (mkMatching NOTSET (wildcards self ++ groups)
                         (lines self ++ [line]) (Some (mline + 1)))
      | None => Ok (mkMatching NOTSET (wildcards self) (lines self) (Some 0))
      end
    else if bool_decide (mline = linesToMatch self - 1) then
      res ← get_attr (_regExps self);
      re ← get_item res mline;
      match re line with
      | Some groups =>
          Ok (mkMatching SUCCESS (wildcards self ++ groups)
                         (lines self ++ [line]) (Some 0))
      | None => Ok (mkMatching NOTSET (wildcards self) (lines self) (Some 0))
      end
    else Ok (mkMatching NOTSET (wildcards self) (lines self) (Some mline)).

(** [MatchObject.match(line, docallback)]: the object after the call, the
    state returned, and the callbacks called. *)
Definition do_match (self : MatchObject) (line : string) (docallback : bool)
  : result (MatchObject * State * list callback) :=
  m ← match_line self line;
  let st := mkState (m_result m) (id self)
                    (String.concat newline (m_lines m)) (m_wildcards m) in
  let calls :=
    if docallback && sync self then
      match state_result st with
      | SUCCESS => [onSuccess (state_id st) (state_line st) (state_wildcards st)]
      | FAILURE => [onFailure (state_id st) (state_line st) (state_wildcards st)]
      | TIMEOUT => [onTimeout (state_id st) (state_line st) (state_wildcards st)]
      | _ => []
      end
    else [] in
  let ev :=
    if docallback && bool_decide (state_result st = SUCCESS) then true
    else event self in
  Ok (mkMatchObject (id self) (enabled self) (priority self) (sync self)
        (oneShot self) (isRegExp self) (keepEval self) (raw self)
        (patterns self) (multiline self) (linesToMatch self)
        (_regExp self) (_regExps self) (m_mline m)
        (m_wildcards m) (m_lines m) ev (Some st),
      st, calls).

(** [re.compile(p)] for a pattern [p] without special characters: it
    matches the lines that start with [p], and has no groups. *)
Definition literal_regex (p : string) : regex :=
  fun line => if String.prefix p line then Some [] else None.

(** An object in multi-line mode whose [patterns] setter compiled the
    patterns [res]. *)
Definition multiline_regex (t : MatchObject) (res : list regex) : Prop :=
  multiline t = true /\ _regExps t = Some res /\ linesToMatch t = length res.

End Objects.

(** ** session/io.py: delivery of a line to the triggers *)

Module Session.
Import Objects.

(** The calls that [go_ahead] makes, in order.  What the callbacks of a
    trigger do in turn is not part of this model. *)
Inductive call : Type :=
| tri_match (id line : string)          (* tri.match(line, docallback=True) *)
| tri_callback (c : callback)           (* made by that [match] *)
| write (data : list byte)              (* self.write(data) *)
| warning                               (* self.warning(...) *)
| clear_half                            (* self.clear_half() *)
| writetobuffer (data : string).        (* self.writetobuffer(data) *)

(** The attributes of the session that [go_ahead] reads and writes.
    [_triggers] is a dictionary, kept in insertion order. *)
Record session : Type := mkSession {
  _line_buffer : list byte;
  _ignore : bool;
  _triggers : list (string * MatchObject);
  _variables : gmap string pyval;
  display_line : string
}.

Definition LF : ascii := "010"%char.
Definition CR : ascii := "013"%char.
Definition ESC : ascii := "027"%char.

(** [s.rstrip(c)] for a single character [c] *)
Fixpoint rstrip (c : ascii) (s : string) : string :=
  match s with
  | EmptyString => EmptyString
  | String a rest =>
      let r := rstrip c rest in
      if bool_decide (a = c) && bool_decide (r = ""%string)
      then EmptyString else String a r
  end.

(** The line that announces MXP support, and the reply to it. *)
Definition mxp_support : string :=
  String ESC ("[1z<SUPPORT>" +:+ String CR (String LF "")).
Definition mxp_supports : list byte :=
  list_byte_of_string (String ESC "[1z<SUPPORTS>").

(** [all_tris.sort(key=lambda tri: tri.priority)]: a stable sort. *)
Fixpoint insert_by_priority (x : string * MatchObject)
    (l : list (string * MatchObject)) : list (string * MatchObject) :=
  match l with
  | [] => [x]
  | y :: l' =>
      if bool_decide (priority x.2 <= priority y.2)%Z
      then x :: y :: l'
      else y :: insert_by_priority x l'
  end.

Definition sort_by_priority (l : list (string * MatchObject))
  : list (string * MatchObject) :=
  foldr insert_by_priority [] l.

(** Ascending priority. *)
Definition by_priority (a b : string * MatchObject) : Prop :=
  (priority a.2 <= priority b.2)%Z.

(** The object under [key] has been changed by its own method. *)
Definition update_object (key : string) (t : MatchObject)
    (table : list (string * MatchObject)) : list (string * MatchObject) :=
  (fun kv => if bool_decide (kv.1 = key) then (key, t) else kv) <$> table.

(** [self._triggers.pop(key)] *)
Definition pop (key : string) (table : list (string * MatchObject))
  : result (list (string * MatchObject)) :=
  if bool_decide (key ∈ table.*1)
  then Ok (filter (fun kv => kv.1 <> key) table)
  else Raise KeyError.

(** The loop [for tri in all_tris]. *)
Fixpoint dispatch (table all_tris : list (string * MatchObject))
    (raw_line tri_line : string)
  : result (list (string * MatchObject) * list call) :=
  match all_tris with
  | [] => Ok (table, [])
  | (key, tri) :: rest =>
      let line := if raw tri then raw_line else tri_line in
      '(tri', st, cbs) ← do_match tri line true;
      let table := update_object key tri' table in
      let calls := tri_match (id tri) line :: (tri_callback <$> cbs) in
      if bool_decide (state_result st = SUCCESS) then
        table ← (if oneShot tri' then pop (id tri') table else Ok table);
        if negb (keepEval tri') then Ok (table, calls)
        else
          '(table, calls') ← dispatch table rest raw_line tri_line;
          Ok (table, calls ++ calls')
      else
        '(table, calls') ← dispatch table rest raw_line tri_line;
        Ok (table, calls ++ calls')
  end.

Section GoAhead.

(** [bytes.decode(self.encoding, Settings.server["encoding_errors"])] *)
Variable decode : list byte -> result string.
(** [PLAIN_TEXT_REGX.sub("", text)] *)
Variable strip_escapes : string -> string.
(** [Settings.server["MXP"]] *)
Variable mxp : bool.

(** [getPlainText] *)
Definition getPlainText (rawText : string) (trim_newline : bool) : string :=
  let plainText := strip_escapes rawText in
  if trim_newline then rstrip CR (rstrip LF plainText) else plainText.

(** [SessionIO.go_ahead] *)
Definition go_ahead (s : session) : result (session * list call) :=
  raw_line ← decode (_line_buffer s);
  let tri_line := getPlainText raw_line true in
  let mxp_calls :=
    if mxp then
      if bool_decide (raw_line = mxp_support)
      then [write mxp_supports] else [warning]
    else [] in
  let vars := <["%line"%string := PStr tri_line]> (_variables s) in
  let vars := <["%raw"%string := PStr (rstrip CR (rstrip LF raw_line))]> vars in
  '(table, calls) ←
    (if negb (_ignore s)
     then dispatch (_triggers s)
            (sort_by_priority (filter (fun kv => enabled kv.2 = true) (_triggers s)))
            raw_line tri_line
     else Ok (_triggers s, []));
  let out :=
    if bool_decide (0 < String.length raw_line)
    then [clear_half; writetobuffer raw_line] else [] in
  Ok (mkSession [] (_ignore s) table vars raw_line, mxp_calls ++ calls ++ out).

End GoAhead.

(** The calls of [match], and the callbacks, among a list of calls. *)
Definition matched_ids (calls : list call) : list string :=
  omap (fun c => match c with tri_match i _ => Some i | _ => None end) calls.

Definition callbacks (calls : list call) : list callback :=
  omap (fun c => match c with tri_callback cb => Some cb | _ => None end) calls.

(** The line that [go_ahead] passes to a trigger. *)
Definition line_for (t : MatchObject) (raw_line tri_line : string) : string :=
  if raw t then raw_line else tri_line.

(** The trigger fires on the line: [match] returns SUCCESS. *)
Definition fires (t : MatchObject) (line : string) : bool :=
  match do_match t line true with
  | Ok (_, st, _) => bool_decide (state_result st = SUCCESS)
  | Raise _ => false
  end.

(** The trigger fires on the line and does not have [keepEval]. *)
Definition stops (t : MatchObject) (line : string) : bool :=
  fires t line && negb (keepEval t).

(** The table is keyed by the identifiers of its objects, as [addObject]
    builds it. *)
Definition keyed_by_id (table : list (string * MatchObject)) : Prop :=
  NoDup table.*1 /\ Forall (fun kv => kv.1 = id kv.2) table.

End Session.

(** ** objects.py: [SimpleCommand.execute]

    The coroutine waits for whichever of its triggers fires first, or for
    the timeout.  What each wait ends with is decided outside the
    command; it is given here as a list, one entry per wait. *)

Module Command.
Import Objects.

(** The result of [asyncio.wait(tasklist, timeout, FIRST_COMPLETED)]:
    the state returned by the first task that is done, or no task done. *)
Inductive race : Type :=
| first_done (st : State)
| timed_out.

(** A [SimpleCommand]; the trigger lists hold the identifiers of the
    triggers. *)
Record SimpleCommand : Type := mkSimpleCommand {
  cmd_id : string;
  cmd_patterns : string;
  timeout : Z;
  _succ_tris : list string;
  _fail_tris : list string;
  _retry_tris : list string;
  _executed_cmd : string
}.

Definition MAX_RETRY : nat := 20.

(** The calls that [execute] makes, in order. *)
Inductive call : Type :=
| reset_command                               (* self.reset() *)
| reset_trigger (id : string)                 (* tr.reset() *)
| create_task (id : string)                   (* create_task(tr.triggered()) *)
| sleep (milliseconds : nat)                  (* await asyncio.sleep(...) *)
| writeline (cmd : string)                    (* self.session.writeline(cmd) *)
| wait (timeout : Z)                          (* await asyncio.wait(...) *)
| cancel_pending                              (* t.cancel() for the pending *)
| call_onSuccess (outer : bool) (name cmd line : string) (wildcards : list pyval)
| call_onFailure (outer : bool) (name cmd line : string) (wildcards : list pyval)
| call_onTimeout (outer : bool) (name cmd : string) (timeout : Z).

(** The caller's [onSuccess], [onFailure] and [onTimeout] keyword
    arguments: whether each is there and callable. *)
Record outer_callbacks : Type := mkOuter {
  outer_onSuccess : bool;
  outer_onFailure : bool;
  outer_onTimeout : bool
}.

(** The part of the loop body before the wait. *)
Definition start_race (self : SimpleCommand) (cmd : string) : list call :=
  ((_succ_tris self ++ _fail_tris self ++ _retry_tris self)
     ≫= (fun i => [reset_trigger i; create_task i]))
  ++ [sleep 100; writeline cmd; wait (timeout self)].

(** The [while True] loop.  [last] is the state that [line] and
    [wildcards] were last taken from. *)
Fixpoint execute_loop (self : SimpleCommand) (cmd : string)
    (races : list race) (retry_times : nat) (last : option State)
  : option (result (outcome * option State * list call)) :=
  match races with
  | [] => None
  | r :: races =>
      let calls := start_race self cmd in
      if bool_decide (_succ_tris self ++ _fail_tris self ++ _retry_tris self = [])
      then Some (Raise ValueError)
      else
        let calls := calls ++ [cancel_pending] in
        match r with
        | timed_out => Some (Ok (TIMEOUT, last, calls))
        | first_done st =>
            let name := state_id st in
            if bool_decide (name ∈ _succ_tris self)
            then Some (Ok (SUCCESS, Some st, calls))
            else if bool_decide (name ∈ _fail_tris self)
            then Some (Ok (FAILURE, Some st, calls))
            else if bool_decide (name ∈ _retry_tris self) then
              let retry_times := retry_times + 1 in
              if bool_decide (MAX_RETRY < retry_times)
              then Some (Ok (FAILURE, Some st, calls))
              else
                match execute_loop self cmd races retry_times (Some st) with
                | Some (Ok (res, last', calls')) =>
                    Some (Ok (res, last', calls ++ [sleep 2000] ++ calls'))
                | other => other
                end
            else
              match execute_loop self cmd races retry_times (Some st) with
              | Some (Ok (res, last', calls')) =>
                  Some (Ok (res, last', calls ++ calls'))
              | other => other
              end
        end
  end.

(** [SimpleCommand.execute(cmd, **kwargs)]: the command after the call,
    the result returned and the calls made. *)
Definition execute (self : SimpleCommand) (cmd : string)
    (kw : outer_callbacks) (races : list race)
  : option (result (SimpleCommand * outcome * list call)) :=
  let cmd := if bool_decide (cmd <> ""%string) then cmd else cmd_patterns self in
  let self' := mkSimpleCommand (cmd_id self) (cmd_patterns self) (timeout self)
                 (_succ_tris self) (_fail_tris self) (_retry_tris self) cmd in
  match execute_loop self' cmd races 0 None with
  | None => None
  | Some (Raise e) => Some (Raise e)
  | Some (Ok (res, last, calls)) =>
      let after :=
        match res, last with
        | SUCCESS, Some st =>
            call_onSuccess false (cmd_id self) cmd (state_line st) (state_wildcards st)
            :: (if outer_onSuccess kw
                then [call_onSuccess true (cmd_id self) cmd (state_line st)
                        (state_wildcards st)]
                else [])
        | FAILURE, Some st =>
            call_onFailure false (cmd_id self) cmd (state_line st) (state_wildcards st)
            :: (if outer_onFailure kw
                then [call_onFailure true (cmd_id self) cmd (state_line st)
                        (state_wildcards st)]
                else [])
        | TIMEOUT, _ =>
            call_onTimeout false (cmd_id self) cmd (timeout self)
            :: (if outer_onTimeout kw
                then [call_onTimeout true (cmd_id self) cmd (timeout self)]
                else [])
        | _, _ => []
        end in
      Some (Ok (self', res, reset_command :: calls ++ after))
  end.

(** The command texts written, in order. *)
Definition written (calls : list call) : list string :=
  omap (fun c => match c with writeline cmd => Some cmd | _ => None end) calls.

(** The race was won by the trigger [name]. *)
Definition won_by (name : string) (r : race) : Prop :=
  exists st, r = first_done st /\ state_id st = name.

End Command.

(** ** GMCP: [handle_gmcp_sb], [feed_gmcp] and [GMCPTrigger.__call__] *)

Module Gmcp.

(** [s.find(" ")] *)
Fixpoint find_space (s : string) : Z :=
  match s with
  | EmptyString => (-1)%Z
  | String c rest =>
      if bool_decide (c = " "%char) then 0%Z
      else let i := find_space rest in
           if bool_decide (i < 0)%Z then (-1)%Z else (i + 1)%Z
  end.

(** A slice bound with Python's treatment of negative and large indices. *)
Definition clamp (len : nat) (i : Z) : nat :=
  let i := if bool_decide (i < 0)%Z then (i + Z.of_nat len)%Z else i in
  Z.to_nat (Z.min (Z.max i 0) (Z.of_nat len)).

(** [s[:stop]] *)
Definition slice_to (s : string) (stop : Z) : string :=
  let chars := list_ascii_of_string s in
  string_of_list_ascii (take (clamp (length chars) stop) chars).

(** [s[start:]] *)
Definition slice_from (s : string) (start : Z) : string :=
  let chars := list_ascii_of_string s in
  string_of_list_ascii (drop (clamp (length chars) start) chars).

(** A [GMCPTrigger]: [line] exists only after the first call. *)
Record GMCPTrigger : Type := mkGMCPTrigger {
  id : string;
  line : option string;
  value : pyval;
  event : bool;
  onSuccess_callable : bool
}.

(** The calls made while a GMCP sub-negotiation is handled. *)
Inductive call : Type :=
| onSuccess (id value : string) (value_exp : pyval)  (* self._onSuccess(...) *)
| info (msg title : string).                         (* session.info(...) *)

Definition is_digit (c : ascii) : bool :=
  bool_decide (48 <= nat_of_ascii c <= 57).

(** The text is a decimal integer literal of Python: digits only, and no
    leading zero unless every digit is zero. *)
Definition is_decimal_literal (s : string) : bool :=
  match list_ascii_of_string s with
  | [] => false
  | c :: rest =>
      forallb is_digit (c :: rest)
      && (negb (bool_decide (c = "0"%char))
          || forallb (fun d => bool_decide (d = "0"%char)) rest)
  end.

Definition decimal_value (s : string) : Z :=
  foldl (fun acc c => (10 * acc + Z.of_nat (nat_of_ascii c - 48))%Z) 0%Z
        (list_ascii_of_string s).

Section Eval.

(** [eval] on every text that is not a decimal integer literal. *)
Variable eval_other : string -> result pyval.

(** The builtin [eval] on a string. *)
Definition py_eval (s : string) : result pyval :=
  if is_decimal_literal s then Ok (PInt (decimal_value s)) else eval_other s.

(** [GMCPTrigger.__call__(value)] *)
Definition GMCPTrigger_call (self : GMCPTrigger) (value : string)
  : GMCPTrigger * list call :=
  let value_exp :=
    match py_eval value with
    | Ok v => v
    | Raise _ => PStr value
    end in
  if onSuccess_callable self
  then (mkGMCPTrigger (id self) (Some value) value_exp true true,
        [onSuccess (id self) value value_exp])
  else (mkGMCPTrigger (id self) (Some value) value_exp (event self) false, []).

(** [SessionIO.feed_gmcp(name, value)] on the session's [_gmcp] table. *)
Definition feed_gmcp (_gmcp : gmap string GMCPTrigger) (name value : string)
  : gmap string GMCPTrigger * list call :=
  match _gmcp !! name with
  | Some gmcp =>
      let '(gmcp', calls) := GMCPTrigger_call gmcp value in
      (<[name := gmcp']> _gmcp, calls)
  | None => (_gmcp, [info (name +:+ ": " +:+ value) "GMCP"])
  end.

(** [bytes.decode(self.encoding)] *)
Variable decode : list byte -> result string.

(** [MudClientProtocol.handle_gmcp_sb(data)] *)
Definition handle_gmcp_sb (_gmcp : gmap string GMCPTrigger) (data : list byte)
  : result (gmap string GMCPTrigger * list call) :=
  gmcp_data ← decode (Telnet.sb_payload data);
  let space_split := find_space gmcp_data in
  let name := slice_to gmcp_data space_split in
  let value := slice_from gmcp_data (space_split + 1) in
  Ok (feed_gmcp _gmcp name value).

End Eval.

(** Decoding of bytes below 128, on which the encodings that the client
    is configured with agree; any other byte is an error here. *)
Definition decode_ascii (data : list byte) : result string :=
  if forallb (fun b => bool_decide (Byte.to_nat b < 128)) data
  then Ok (string_of_list_byte data)
  else Raise UnicodeDecodeError.

End Gmcp.

(** ** MSDP: [handle_msdp_sb] *)

Module Msdp.

Definition MSDP_VAR : byte := x01.
Definition MSDP_VAL : byte := x02.
Definition MSDP_TABLE_OPEN : byte := x03.
Definition MSDP_TABLE_CLOSE : byte := x04.
Definition MSDP_ARRAY_OPEN : byte := x05.
Definition MSDP_ARRAY_CLOSE : byte := x06.

(** What [msdp_data] maps a variable name to. *)
Inductive msdp_value : Type :=
| MNone
| MText (s : string)
| MArray (l : list string)
| MTable (t : list (string * string)).

Inductive machine : Type :=
| wait_var
| wait_var_name
| wait_var_value
| wait_val_in_array
| wait_val_in_table
| wait_end.

Inductive table_machine : Type :=
| wait_table_var
| wait_table_val.

(** The local variables of [handle_msdp_sb].  [current_var] and
    [state_machine_table] are unbound until their first assignment. *)
Record locals : Type := mkLocals {
  msdp_data : gmap string msdp_value;
  var_name : list byte;
  val_in_array : list string;
  val_in_table : list (string * string);
  val_in_text : list byte;
  table_var_name : list byte;
  table_var_value : list byte;
  state_machine : machine;
  state_machine_table : option table_machine;
  current_var : option string
}.

Definition get_local {A} (a : option A) : result A :=
  match a with
  | Some x => Ok x
  | None => Raise UnboundLocalError
  end.

Section Decode.

(** [bytearray.decode(self.encoding)] *)
Variable decode : list byte -> result string.

(** The body of [for idx in range(3, len(data) - 2)].  In the table
    state the code subscripts the method [decode] instead of calling it,
    which raises [TypeError]. *)
Definition msdp_step (l : locals) (b : byte) : result locals :=
  let '(mkLocals data name arr tbl text tname tvalue st tst cur) := l in
  match st with
  | wait_var =>
      if bool_decide (b = MSDP_VAR)
      then Ok (mkLocals data [] arr tbl text tname tvalue wait_var_name tst cur)
      else Ok l
  | wait_var_name =>
      if bool_decide (b = MSDP_VAL) then
        current ← decode name;
        Ok (mkLocals (<[current := MNone]> data) name [] [] [] tname tvalue
                     wait_var_value tst (Some current))
      else if bool_decide (b ∈ [MSDP_ARRAY_OPEN; MSDP_ARRAY_CLOSE;
                                MSDP_TABLE_OPEN; MSDP_TABLE_CLOSE])
      then Ok l
      else Ok (mkLocals data (name ++ [b]) arr tbl text tname tvalue st tst cur)
  | wait_var_value =>
      if bool_decide (b = MSDP_ARRAY_OPEN)
      then Ok (mkLocals data name arr tbl text tname tvalue wait_val_in_array tst cur)
      else if bool_decide (b = MSDP_TABLE_OPEN)
      then Ok (mkLocals data name arr tbl text tname tvalue wait_val_in_table tst cur)
      else if bool_decide (b ∈ [MSDP_VAR; MSDP_VAL]) then
        current_val ← decode text;
        current ← get_local cur;
        Ok (mkLocals (<[current := MText current_val]> data) name arr tbl text
                     tname tvalue wait_end tst cur)
      else Ok (mkLocals data name arr tbl (text ++ [b]) tname tvalue st tst cur)
  | wait_val_in_array =>
      if bool_decide (b = MSDP_ARRAY_CLOSE) then
        v ← decode text;
        current ← get_local cur;
        Ok (mkLocals (<[current := MArray (arr ++ [v])]> data) name (arr ++ [v])
                     tbl [] tname tvalue wait_end tst cur)
      else if bool_decide (b = MSDP_VAL) then
        if bool_decide (0 < length text) then
          v ← decode text;
          Ok (mkLocals data name (arr ++ [v]) tbl [] tname tvalue st tst cur)
        else Ok l
      else Ok (mkLocals data name arr tbl (text ++ [b]) tname tvalue st tst cur)
  | wait_val_in_table =>
      if bool_decide (b = MSDP_TABLE_CLOSE) then
        Raise TypeError                (* table_var_value.decode[...] *)
      else if bool_decide (b = MSDP_VAR) then
        if bool_decide (0 < length tname)
        then Raise TypeError           (* table_var_value.decode[...] *)
        else Ok (mkLocals data name arr tbl text tname tvalue st
                          (Some wait_table_var) cur)
      else if bool_decide (b = MSDP_VAL) then
        Ok (mkLocals data name arr tbl text tname tvalue st
                     (Some wait_table_val) cur)
      else
        tstate ← get_local tst;
        match tstate with
        | wait_table_var =>
            Ok (mkLocals data name arr tbl text (tname ++ [b]) tvalue st tst cur)
        | wait_table_val =>
            Ok (mkLocals data name arr tbl text tname (tvalue ++ [b]) st tst cur)
        end
  | wait_end => Ok l
  end.

Fixpoint msdp_loop (l : locals) (bytes : list byte) : result locals :=
  match bytes with
  | [] => Ok l
  | b :: rest => l' ← msdp_step l b; msdp_loop l' rest
  end.

(** [MudClientProtocol.handle_msdp_sb(data)]: the dictionary [self.msdp]
    after the call. *)
Definition handle_msdp_sb (msdp : gmap string msdp_value) (data : list byte)
  : result (gmap string msdp_value) :=
  l ← msdp_loop (mkLocals ∅ [] [] [] [] [] [] wait_var None None)
                (Telnet.sb_payload data);
  Ok (msdp_data l ∪ msdp).

End Decode.

End Msdp.

(** ** protocol.py: a stream that arrives in several calls *)

Module Stream.
Import Telnet.

(** [data_received] called once for each chunk that the transport
    delivers, in order.  An exception ends the run. *)
Fixpoint receive_all (p : protocol) (chunks : list (list byte))
  : protocol * list event * option pyexn :=
  match chunks with
  | [] => (p, [], None)
  | chunk :: rest =>
      match data_received p chunk with
      | (p1, ev1, Some e) => (p1, ev1, Some e)
      | (p1, ev1, None) =>
          let '(p2, ev2, ex) := receive_all p1 rest in (p2, ev1 ++ ev2, ex)
      end
  end.

(** The bytes handed to [session.feed_data], in order. *)
Definition fed (evs : list event) : list byte :=
  omap (fun e => match e with feed_data b => Some b | _ => None end) evs.

End Stream.


(** ** protocol.py: the option negotiation handlers

    What a handler does is given by the bytes it passes to
    [session.write], in order, and by what it assigns to [_mtts_index].
    Log messages are not part of the model. *)

Module Negotiation.
Import Telnet.

(** The switches of [Settings.server] that the handlers read. *)
Record server : Type := mkServer {
  srv_SGA : bool;
  srv_ECHO : bool;
  srv_GMCP : bool;
  srv_MSDP : bool;
  srv_MSSP : bool;
  srv_MCCP2 : bool;
  srv_MCCP3 : bool;
  srv_MSP : bool;
  srv_MXP : bool
}.

(** The values in settings.py. *)
Definition default_server : server :=
  mkServer true false true true true false false false false.

(** [Settings.client["naws_width"]] and [Settings.client["naws_height"]]. *)
Record client : Type := mkClient {
  naws_width : Z;
  naws_height : Z
}.

Definition default_client : client := mkClient 150 40.

(** The exception of [int.to_bytes]. *)
Inductive overflow : Type := OverflowError.

(** What a handler leaves behind: [_mtts_index] (unassigned until a
    handler assigns it), the data written, and the exception raised. *)
Definition outcome : Type := option nat * list (list byte) * option overflow.

(** The byte with the value [z], for [0 <= z < 256]. *)
Definition byte_of_Z (z : Z) : byte :=
  default x00 (Byte.of_N (Z.to_N z)).

(** [n.to_bytes(2, "big")] *)
Definition to_bytes (n : Z) : overflow + list byte :=
  if bool_decide (0 <= n < 65536)%Z
  then inr [byte_of_Z (n / 256); byte_of_Z (n mod 256)]
  else inl OverflowError.

(** [_iac_default_handler(cmd, option)] *)
Definition _iac_default_handler (mtts : option nat) (cmd option : byte)
  : outcome :=
  if bool_decide (cmd ∈ [WILL; WONT]) then (mtts, [[IAC; DONT; option]], None)
  else if bool_decide (cmd ∈ [DO; DONT]) then (mtts, [[IAC; WONT; option]], None)
  else (mtts, [], None).

(** The handlers that answer an offer according to a switch:
    [handle_sga], [handle_echo], [handle_gmcp], [handle_mccp2],
    [handle_mccp3], [handle_msp] and [handle_mxp]. *)
Definition by_switch (switch : bool) (opt : byte) (mtts : option nat)
    (cmd : byte) : outcome :=
  if bool_decide (cmd = WILL) then
    if switch then (mtts, [[IAC; DO; opt]], None)
    else (mtts, [[IAC; DONT; opt]], None)
  else (mtts, [], None).

Definition handle_sga (srv : server) := by_switch (srv_SGA srv) SGA.
Definition handle_echo (srv : server) := by_switch (srv_ECHO srv) ECHO.
Definition handle_gmcp (srv : server) := by_switch (srv_GMCP srv) GMCP.
Definition handle_mccp2 (srv : server) := by_switch (srv_MCCP2 srv) MCCP2.
Definition handle_mccp3 (srv : server) := by_switch (srv_MCCP3 srv) MCCP3.
Definition handle_msp (srv : server) := by_switch (srv_MSP srv) MSP.
Definition handle_mxp (srv : server) := by_switch (srv_MXP srv) MXP.

(** [handle_charset(cmd)] *)
Definition handle_charset (mtts : option nat) (cmd : byte) : outcome :=
  if bool_decide (cmd = WILL) then (mtts, [[IAC; DO; CHARSET]], None)
  else (mtts, [], None).

(** [handle_ttype(cmd)] *)
Definition handle_ttype (mtts : option nat) (cmd : byte) : outcome :=
  if bool_decide (cmd = WILL) then (mtts, [], None)
  else if bool_decide (cmd = WONT) then (mtts, [], None)
  else if bool_decide (cmd = DO) then (Some 0, [[IAC; WILL; TTYPE]], None)
  else (mtts, [], None).

(** [handle_naws(cmd)] *)
Definition handle_naws (cl : client) (mtts : option nat) (cmd : byte)
  : outcome :=
  if bool_decide (cmd = WILL) then (mtts, [], None)
  else if bool_decide (cmd = WONT) then (mtts, [], None)
  else if bool_decide (cmd = DO) then
    match to_bytes (naws_width cl) with
    | inl e => (mtts, [[IAC; WILL; NAWS]], Some e)
    | inr width_bytes =>
        match to_bytes (naws_height cl) with
        | inl e => (mtts, [[IAC; WILL; NAWS]], Some e)
        | inr height_bytes =>
            (mtts,
             [[IAC; WILL; NAWS];
              [IAC; SB; NAWS] ++ width_bytes ++ height_bytes ++ [IAC; SE]],
             None)
        end
    end
  else (mtts, [], None).

(** [handle_mnes(cmd)] *)
Definition handle_mnes (mtts : option nat) (cmd : byte) : outcome :=
  if bool_decide (cmd = WILL) then (mtts, [], None)
  else if bool_decide (cmd = WONT) then (mtts, [], None)
  else if bool_decide (cmd = DO) then (mtts, [[IAC; WILL; MNES]], None)
  else (mtts, [], None).

(** The data that [send_msdp_sb(cmd, param)] writes. *)
Definition send_msdp_sb (cmd param : list byte) : list byte :=
  [IAC; SB; MSDP] ++ [Msdp.MSDP_VAR] ++ cmd ++ [Msdp.MSDP_VAL] ++ param
  ++ [IAC; SE].

(** [handle_msdp(cmd)] *)
Definition handle_msdp (srv : server) (mtts : option nat) (cmd : byte)
  : outcome :=
  if bool_decide (cmd = WILL) then
    if srv_MSDP srv then
      (mtts,
       [[IAC; DO; MSDP];
        send_msdp_sb (list_byte_of_string "LIST") (list_byte_of_string "LISTS");
        send_msdp_sb (list_byte_of_string "LIST")
                     (list_byte_of_string "REPORTABLE_VARIABLES")],
       None)
    else (mtts, [[IAC; DONT; MSDP]], None)
  else (mtts, [], None).

(** [handle_mssp(cmd)], which also assigns [_mtts_index]. *)
Definition handle_mssp (srv : server) (mtts : option nat) (cmd : byte)
  : outcome :=
  if bool_decide (cmd = WILL) then
    if srv_MSSP srv then (Some 0, [[IAC; DO; MSSP]], None)
    else (mtts, [[IAC; DONT; MSSP]], None)
  else (mtts, [], None).

(** [self._iac_handlers[opt]]: the method [handle_<name>] of the option,
    if the class has one. *)
Definition iac_handler_of (srv : server) (cl : client) (opt : byte)
  : option (option nat -> byte -> outcome) :=
  if bool_decide (opt = SGA) then Some (handle_sga srv)
  else if bool_decide (opt = ECHO) then Some (handle_echo srv)
  else if bool_decide (opt = CHARSET) then Some handle_charset
  else if bool_decide (opt = TTYPE) then Some handle_ttype
  else if bool_decide (opt = NAWS) then Some (handle_naws cl)
  else if bool_decide (opt = MNES) then Some handle_mnes
  else if bool_decide (opt = GMCP) then Some (handle_gmcp srv)
  else if bool_decide (opt = MSDP) then Some (handle_msdp srv)
  else if bool_decide (opt = MSSP) then Some (handle_mssp srv)
  else if bool_decide (opt = MCCP2) then Some (handle_mccp2 srv)
  else if bool_decide (opt = MCCP3) then Some (handle_mccp3 srv)
  else if bool_decide (opt = MSP) then Some (handle_msp srv)
  else if bool_decide (opt = MXP) then Some (handle_mxp srv)
  else None.

(** The call that the classifier recorded, carried out.  The calls to the
    session and to the sub-negotiation handlers are not negotiation
    handlers. *)
Definition call_handler (srv : server) (cl : client) (mtts : option nat)
    (e : event) : option outcome :=
  match e with
  | iac_handler opt cmd =>
      match iac_handler_of srv cl opt with
      | Some handler => Some (handler mtts cmd)
      | None => None
      end
  | iac_default_handler cmd opt => Some (_iac_default_handler mtts cmd opt)
  | _ => None
  end.

(** The reply of the client to [IAC cmd opt] received in the state [p]:
    the outcome of the handler that [data_received] calls for it. *)
Definition negotiate (srv : server) (cl : client) (mtts : option nat)
    (p : protocol) (cmd opt : byte) : option outcome :=
  match data_received p [IAC; cmd; opt] with
  | (_, [go_ahead; e], None) => call_handler srv cl mtts e
  | _ => None
  end.

(** The switch that governs an option, for the options that have one. *)
Definition switch_of (srv : server) (opt : byte) : option bool :=
  if bool_decide (opt = SGA) then Some (srv_SGA srv)
  else if bool_decide (opt = ECHO) then Some (srv_ECHO srv)
  else if bool_decide (opt = GMCP) then Some (srv_GMCP srv)
  else if bool_decide (opt = MSDP) then Some (srv_MSDP srv)
  else if bool_decide (opt = MSSP) then Some (srv_MSSP srv)
  else if bool_decide (opt = MCCP2) then Some (srv_MCCP2 srv)
  else if bool_decide (opt = MCCP3) then Some (srv_MCCP3 srv)
  else if bool_decide (opt = MSP) then Some (srv_MSP srv)
  else if bool_decide (opt = MXP) then Some (srv_MXP srv)
  else None.

(** A reply to a negotiation about [opt]: [IAC], a verb, [opt], and
    whatever follows. *)
Definition reply_about (opt : byte) (w : list byte) : Prop :=
  exists verb rest,
    w = IAC :: verb :: opt :: rest /\ verb ∈ [DO; DONT; WILL; WONT; SB].

End Negotiation.


(** ** protocol.py: the sub-negotiation handlers of TTYPE, MSSP and MNES *)

Module Ttype.
Import Telnet.

(** [Settings.__appname__] *)
Definition __appname__ : string := "PYMUD".

(** [IS] and [SEND] of [handle_ttype_sb]. *)
Definition IS : byte := x00.
Definition SEND : byte := x01.

(** The request of the server: [IAC SB TTYPE SEND IAC SE]. *)
Definition send_request : list byte := [IAC; SB; TTYPE; SEND; IAC; SE].

Section Handler.

(** [str.encode(self.encoding, self.encoding_errors)] *)
Variable encode : string -> list byte.

(** The data of a reply [IAC SB TTYPE IS <text> IAC SE]. *)
Definition is_reply (text : list byte) : list byte :=
  [IAC; SB; TTYPE] ++ [IS] ++ text ++ [IAC; SE].

(** [handle_ttype_sb(data)]: [_mtts_index] after the call and the data
    written.  Reading [_mtts_index] before a handler has assigned it
    raises [AttributeError]. *)
Definition handle_ttype_sb (mtts : option nat) (data : list byte)
  : result (option nat * list (list byte)) :=
  if bool_decide (length data = 6) && bool_decide (data !! 3 = Some SEND) then
    idx ← Objects.get_attr mtts;
    if bool_decide (idx = 0)
    then Ok (Some (idx + 1), [is_reply (encode __appname__)])
    else if bool_decide (idx = 1)
    then Ok (Some (idx + 1), [is_reply (list_byte_of_string "XTERM")])
    else if bool_decide (idx = 2)
    then Ok (Some (idx + 1), [is_reply (list_byte_of_string "MTTS 783")])
    else Ok (mtts, [])
  else Ok (mtts, []).

(** The server's request received [n] times in a row. *)
Fixpoint requests (n : nat) (mtts : option nat)
  : result (option nat * list (list byte)) :=
  match n with
  | 0 => Ok (mtts, [])
  | S n =>
      '(mtts1, written1) ← handle_ttype_sb mtts send_request;
      '(mtts2, written2) ← requests n mtts1;
      Ok (mtts2, written1 ++ written2)
  end.

End Handler.

End Ttype.

Module Mssp.

Definition MSSP_VAR : byte := x01.
Definition MSSP_VAL : byte := x02.

(** The local variable [next_bytes]. *)
Inductive next : Type :=
| next_type
| next_var
| next_val.

(** The local variables of [handle_mssp_sb], and the calls of
    [session.feed_mssp] made so far. *)
Record locals : Type := mkLocals {
  svrStatus : gmap string string;
  var : list byte;
  val : list byte;
  next_bytes : next;
  fed : list (string * string)
}.

Section Decode.

(** [bytearray.decode(self.encoding)] *)
Variable decode : list byte -> result string.

(** The inner function [add_svr_status(var, val)]. *)
Definition add_svr_status (l : locals) : result locals :=
  if bool_decide (0 < length (var l)) then
    var_str ← decode (var l);
    val_str ← decode (val l);
    Ok (mkLocals (<[var_str := val_str]> (svrStatus l)) (var l) (val l)
                 (next_bytes l) (fed l ++ [(var_str, val_str)]))
  else Ok l.

(** The body of [for idx in range(3, len(data) - 2)]. *)
Definition mssp_step (l : locals) (b : byte) : result locals :=
  if bool_decide (b = MSSP_VAR) then
    l' ← add_svr_status l;
    Ok (mkLocals (svrStatus l') [] [] next_var (fed l'))
  else if bool_decide (b = MSSP_VAL) then
    Ok (mkLocals (svrStatus l) (var l) (val l) next_val (fed l))
  else
    match next_bytes l with
    | next_var =>
        Ok (mkLocals (svrStatus l) (var l ++ [b]) (val l) next_var (fed l))
    | next_val =>
        Ok (mkLocals (svrStatus l) (var l) (val l ++ [b]) next_val (fed l))
    | next_type => Ok l
    end.

(** The loop: the variables when it ends, and the exception that ended
    it, if one did. *)
Fixpoint mssp_loop (l : locals) (bytes : list byte) : locals * option pyexn :=
  match bytes with
  | [] => (l, None)
  | b :: rest =>
      match mssp_step l b with
      | Ok l' => mssp_loop l' rest
      | Raise e => (l, Some e)
      end
  end.

(** [handle_mssp_sb(data)]: the dictionary [self.mssp] after the call,
    the calls [session.feed_mssp(name, value)] made, and the exception
    raised. *)
Definition handle_mssp_sb (mssp : gmap string string) (data : list byte)
  : gmap string string * list (string * string) * option pyexn :=
  match mssp_loop (mkLocals ∅ [] [] next_type []) (Telnet.sb_payload data) with
  | (l, Some e) => (mssp, fed l, Some e)
  | (l, None) =>
      match add_svr_status l with
      | Raise e => (mssp, fed l, Some e)
      | Ok l' => (svrStatus l' ∪ mssp, fed l', None)
      end
  end.

End Decode.

(** What a server sends for a list of variables: [MSSP_VAR], the name,
    [MSSP_VAL], the value, for each of them. *)
Definition mssp_wire (pairs : list (list byte * list byte)) : list byte :=
  pairs ≫= (fun kv => [MSSP_VAR] ++ kv.1 ++ [MSSP_VAL] ++ kv.2).

(** A name or value that holds neither [MSSP_VAR] nor [MSSP_VAL]. *)
Definition mssp_text (text : list byte) : Prop :=
  (MSSP_VAR ∉ text) /\ (MSSP_VAL ∉ text).

End Mssp.

Module Mnes.
Import Telnet.

(** [IS], [SEND] and [INFO]; [VAR] and [VAL]: the constants that
    [handle_mnes_sb] defines. *)
Definition IS : byte := x00.
Definition SEND : byte := x01.
Definition INFO : byte := x02.
Definition VAR : byte := x00.
Definition VAL : byte := x01.

Inductive machine : Type :=
| wait_cmd
| wait_var
| wait_var_content.

(** The local variables of [handle_mnes_sb]. *)
Record locals : Type := mkLocals {
  request_var : list string;
  var_name : list byte;
  state_machine : machine
}.

(** [Settings.mnes] as settings.py defines it. *)
Definition default_mnes : gmap string string :=
  list_to_map [ ("CHARSET", "utf-8"); ("CLIENT_NAME", "PYMUD");
                ("CLIENT_VERSION", "0.20.4");
                ("AUTHOR", "Benniu(newstart)@PKUXKX") ]%string.

Section Handler.

(** [bytearray.decode(self.encoding)] and [str.encode(self.encoding)];
    the latter is total, as it is for the UTF-8 default. *)
Variable decode : list byte -> result string.
Variable encode : string -> list byte.

(** The body of [for idx in range(3, len(data) - 1)].  [byte] is an
    integer there, so the test [byte not in (SEND, IAC)], in which [IAC]
    is the bytes object [b"\xff"], holds exactly when [byte] is not 1. *)
Definition mnes_step (l : locals) (b : byte) : result locals :=
  match state_machine l with
  | wait_cmd =>
      if bool_decide (b = SEND)
      then Ok (mkLocals (request_var l) (var_name l) wait_var)
      else Ok l
  | wait_var =>
      if bool_decide (b = VAR)
      then Ok (mkLocals (request_var l) [] wait_var_content)
      else Ok l
  | wait_var_content =>
      if bool_decide (b <> SEND)
      then Ok (mkLocals (request_var l) (var_name l ++ [b]) wait_var_content)
      else
        if bool_decide (0 < length (var_name l)) then
          name ← decode (var_name l);
          Ok (mkLocals (request_var l ++ [name]) (var_name l) wait_cmd)
        else Ok (mkLocals (request_var l) (var_name l) wait_cmd)
  end.

Fixpoint mnes_loop (l : locals) (bytes : list byte) : result locals :=
  match bytes with
  | [] => Ok l
  | b :: rest => l' ← mnes_step l b; mnes_loop l' rest
  end.

(** The data that the inner function [send_mnes_value(var, val)] writes. *)
Definition send_mnes_value (var val : string) : list byte :=
  [IAC; SB; MNES] ++ [IS] ++ encode var ++ [VAL] ++ encode val ++ [IAC; SE].

(** [data[3 : len(data) - 1]], the bytes that the loop visits. *)
Definition visited (data : list byte) : list byte :=
  take (length data - 4) (drop 3 data).

(** [handle_mnes_sb(data)]: the data written, one reply for each
    requested variable that [self.mnes] has. *)
Definition handle_mnes_sb (mnes : gmap string string) (data : list byte)
  : result (list (list byte)) :=
  l ← mnes_loop (mkLocals [] [] wait_cmd) (visited data);
  Ok (omap (fun name => send_mnes_value name <$> mnes !! name) (request_var l)).

End Handler.

End Mnes.


(** ** What a server sends in a MSDP sub-negotiation *)

Module MsdpWire.
Import Msdp.

(** A variable name: none of the bytes that end a name or that the
    decoder drops from one. *)
Definition name_text (name : list byte) : Prop :=
  Forall (fun b => b ∉ [MSDP_VAL; MSDP_ARRAY_OPEN; MSDP_ARRAY_CLOSE;
                        MSDP_TABLE_OPEN; MSDP_TABLE_CLOSE]) name.

(** A value in text form: none of the bytes that end it or that open an
    array or a table. *)
Definition scalar_text (text : list byte) : Prop :=
  Forall (fun b => b ∉ [MSDP_VAR; MSDP_VAL; MSDP_ARRAY_OPEN; MSDP_TABLE_OPEN])
         text.

(** An element of an array: not empty, and neither the byte that starts
    the next element nor the one that closes the array. *)
Definition element_text (text : list byte) : Prop :=
  text <> [] /\ Forall (fun b => b ∉ [MSDP_VAL; MSDP_ARRAY_CLOSE]) text.

(** [VAR name VAL] *)
Definition variable (name : list byte) : list byte :=
  [MSDP_VAR] ++ name ++ [MSDP_VAL].

(** [ARRAY_OPEN (VAL element)* ARRAY_CLOSE] *)
Definition array (elements : list (list byte)) : list byte :=
  [MSDP_ARRAY_OPEN] ++ (elements ≫= (fun e => MSDP_VAL :: e))
  ++ [MSDP_ARRAY_CLOSE].

(** The sub-negotiation with the given payload. *)
Definition frame (payload : list byte) : list byte :=
  [Telnet.IAC; Telnet.SB; Telnet.MSDP] ++ payload ++ [Telnet.IAC; Telnet.SE].

End MsdpWire.


(** ** objects.py: [CodeBlock.execute] *)

Module BlockRun.
Import Code.

(** The calls that [CodeBlock.execute] makes, in order. *)
Inductive call : Type :=
| warning                      (* session.warning(...) *)
| exec_code (cl : CodeLine)    (* code.execute(session, ...), which is
                                  session.exec_code(code, ...) *)
| create_task.                 (* session.create_task(self.async_execute(...)) *)

(** [CodeBlock.execute(session, **kwargs)].  [kw_sync] is the keyword
    argument [sync], [None] when it is not passed; an object other than
    [None] does not compare equal to [None]. *)
Definition execute (blk : CodeBlock) (kw_sync : option pyval) : list call :=
  let '(synchronous, warn) :=
    match kw_sync with
    | Some PNone | None =>
        match block_mode blk with
        | dontcare | async => (false, [])
        | sync => (true, [])
        | conflict => (false, [warning])
        end
    | Some v => (truthy v, [])
    end in
  warn ++ (if synchronous then exec_code <$> codes blk else [create_task]).

End BlockRun.

(** ** The text of script lines

    Notions in which the behaviour of the two scanners is stated. *)

Module CodeText.
Import Code.

Definition is_quote (c : ascii) : bool :=
  bool_decide (c = "'"%char) || bool_decide (c = dquote).

(** The text without its quote characters. *)
Fixpoint dequote (s : string) : string :=
  match s with
  | EmptyString => EmptyString
  | String c s => if is_quote c then dequote s else String c (dequote s)
  end.

(** The line with a space put after a leading [#], which [create_line]
    makes a token of its own. *)
Definition spelled (line : string) : string :=
  match line with
  | String c tl => if bool_decide (c = "#"%char) then "# " +:+ tl else line
  | EmptyString => EmptyString
  end.

(** A character that is neither a brace nor the separator. *)
Definition plain_char (c : ascii) : Prop := c ∉ ["{"; "}"; ";"]%char.

(** A command without braces and separators, and not empty. *)
Definition simple (cmd : string) : Prop :=
  cmd <> ""%string /\ Forall plain_char (list_ascii_of_string cmd).

(** The tokens found so far and the one being read, joined by spaces. *)
Definition joined (params : list string) (arg : string) : string :=
  String.concat " " (params ++ [arg]).

#[global] Instance syncmode_eq_dec : EqDecision syncmode.
Proof. solve_decision. Defined.

(** Some line of the block forces the mode [m]. *)
Definition forces (m : syncmode) (codes : list CodeLine) : bool :=
  bool_decide (Exists (fun cl => syncMode cl = m) codes).

End CodeText.


(** ** objects.py: [match] called line after line *)

Module MatchRun.
Import Objects.

(** [self.match(line, docallback)] for each of the lines in turn, as the
    session calls it when the lines arrive: the object after the last
    call, the states returned and the callbacks called, in order. *)
Fixpoint match_all (self : MatchObject) (lines : list string) (docallback : bool)
  : result (MatchObject * list State * list callback) :=
  match lines with
  | [] => Ok (self, [], [])
  | line :: rest =>
      '(self1, st, calls) ← do_match self line docallback;
      '(self2, sts, calls') ← match_all self1 rest docallback;
      Ok (self2, st :: sts, calls ++ calls')
  end.

(** The pattern occurs in the line. *)
Definition occurs_in (pattern line : string) : Prop :=
  exists before after, line = before +:+ pattern +:+ after.

End MatchRun.

(** * Properties *)

(** ** The byte classifier *)

Section TelnetClassifier.
Import Telnet.

Lemma data_received_app p a b :
  data_received p (a ++ b) =
  match data_received p a with
  | (p1, e1, Some x) => (p1, e1, Some x)
  | (p1, e1, None) =>
      let '(p2, e2, x2) := data_received p1 b in (p2, e1 ++ e2, x2)
  end.
Proof.
  revert p. induction a as [|c a IH]; intros p; simpl.
  - destruct (data_received p b) as [[p2 e2] x2]. done.
  - destruct (classify (count_byte p) c) as [[p1 ev]|e]; [|done].
    rewrite IH. destruct (data_received p1 a) as [[p2 e2] [x|]]; [done|].
    destruct (data_received p2 b) as [[p3 e3] x3]. by rewrite app_assoc.
Qed.

Lemma data_received_prefix p a b pf ev :
  data_received p (a ++ b) = (pf, ev, None) ->
  exists pa eva evb, data_received p a = (pa, eva, None) /\ ev = eva ++ evb.
Proof.
  rewrite data_received_app.
  destruct (data_received p a) as [[pa eva] [x|]]; [done|].
  destruct (data_received pa b) as [[pb evb] xb]. intros [= <- <- ->].
  by exists pa, eva, evb.
Qed.

(** The classifier itself never raises: every state is entered with the
    attributes it reads already assigned. *)
Lemma classify_attributes_set p b :
  attributes_set p ->
  exists p' ev, classify (count_byte p) b = Ok (p', ev) /\ attributes_set p'.
Proof.
  destruct p as [m n cmd d o]. unfold attributes_set, classify.
  destruct m; simpl.
  - intros _. case_bool_decide; do 2 eexists; (split; [reflexivity|done]).
  - intros _.
    repeat case_bool_decide; do 2 eexists; (split; [reflexivity|simpl; eauto]).
  - intros [c ->].
    destruct (is_option b), (_iac_handlers b);
      do 2 eexists; (split; [reflexivity|done]).
  - intros [d' ->].
    case_bool_decide; do 2 eexists; (split; [reflexivity|simpl; eauto]).
  - intros [[d' ->] [o' ->]].
    case_bool_decide; do 2 eexists; (split; [reflexivity|simpl; eauto]).
  - intros [[d' ->] [o' ->]].
    case_bool_decide; simpl;
      [destruct (is_option o'), (_iac_subneg_handlers o')|];
      do 2 eexists; (split; [reflexivity|simpl; eauto]).
Qed.

Lemma data_received_never_raises data : forall p,
  attributes_set p -> (data_received p data).2 = None.
Proof.
  induction data as [|b data IH]; intros p Hp; [done|]. simpl.
  destruct (classify_attributes_set p b Hp) as (p' & ev & -> & Hp').
  specialize (IH p' Hp').
  by destruct (data_received p' data) as [[p2 ev2] ex].
Qed.

Lemma dispatches_app e1 e2 :
  dispatches (e1 ++ e2) = dispatches e1 ++ dispatches e2.
Proof. unfold dispatches. apply omap_app. Qed.

(** Nothing is dispatched while a stream whose calls are known to hold no
    dispatch is only partly received. *)
Lemma no_dispatch_in_prefix p front pf ev k :
  data_received p front = (pf, ev, None) ->
  dispatches ev = [] ->
  dispatches (data_received p (take k front)).1.2 = [].
Proof.
  intros Hfront Hev. rewrite <- (take_drop k front) in Hfront.
  apply data_received_prefix in Hfront as (pa & eva & evb & -> & ->).
  rewrite dispatches_app in Hev. simpl.
  by apply app_eq_nil in Hev as [-> _].
Qed.

(** The body of a sub-negotiation leaves the classifier in [waitsbdata]
    with every byte appended, the doubled 255 included. *)
Lemma sb_body_received items : forall n cmd d opt,
  Forall well_formed_item items ->
  data_received (mkProtocol waitsbdata n cmd (Some d) (Some opt)) (sb_encode items)
  = (mkProtocol waitsbdata (n + length (sb_encode items)) cmd
                (Some (d ++ sb_encode items)) (Some opt), [], None).
Proof.
  induction items as [|i items IH]; intros n cmd d opt Hwf.
  - simpl. by rewrite Nat.add_0_r, app_nil_r.
  - apply Forall_cons in Hwf as [Hi Hwf].
    change (sb_encode (i :: items)) with (sb_wire i ++ sb_encode items).
    destruct i as [b|]; simpl.
    + unfold classify; simpl.
      assert (b <> IAC) by (intros ->; by apply Hi).
      rewrite bool_decide_eq_false_2 by done. simpl.
      rewrite IH by done. rewrite <- app_assoc, Nat.add_succ_r. done.
    + unfold classify, set_state; simpl.
      rewrite IH by done. rewrite <- !app_assoc, !Nat.add_succ_r. done.
Qed.

Lemma subneg_handler_is_option opt :
  _iac_subneg_handlers opt = true -> is_option opt = true /\ opt <> IAC.
Proof.
  unfold _iac_subneg_handlers. intros H%bool_decide_eq_true.
  repeat (apply elem_of_cons in H as [->|H]); try by vm_compute.
  by apply elem_of_nil in H.
Qed.

(** All of a frame but its last byte: the classifier waits in [waitse],
    and has only flushed the line buffer. *)
Lemma sb_front_received p opt items :
  state_machine p = normal ->
  opt <> IAC ->
  Forall well_formed_item items ->
  let front := [IAC; SB; opt] ++ sb_encode items ++ [IAC] in
  data_received p front =
    (mkProtocol waitse (bytes_received_count p + length front) (Some SB)
                (Some front) (Some opt),
     [go_ahead], None).
Proof.
  intros Hp Hopt Hwf front. subst front. destruct p as [m n cmd d o].
  simpl in Hp. subst m. simpl.
  unfold classify, set_state; simpl. rewrite bool_decide_eq_true_2 by done.
  simpl.
  rewrite data_received_app, (sb_body_received items) by done. simpl.
  unfold classify, set_state; simpl.
  rewrite length_app; simpl.
  replace (S (S (S (S (n + length (sb_encode items))))))
    with (n + S (S (S (length (sb_encode items) + 1)))) by lia.
  done.
Qed.

(** A complete frame [IAC SB <opt> body IAC SE] received in the normal
    state: the whole frame is accumulated; the handler of [opt] is called
    with it if there is one, and nothing is called otherwise. *)
Lemma sb_frame_received p opt items :
  state_machine p = normal ->
  opt <> IAC ->
  Forall well_formed_item items ->
  let stream := [IAC; SB; opt] ++ sb_encode items ++ [IAC; SE] in
  data_received p stream =
    (mkProtocol normal (bytes_received_count p + length stream) (Some SB)
                (Some stream) (Some opt),
     go_ahead ::
       (if is_option opt && _iac_subneg_handlers opt
        then [iac_subneg_handler opt stream] else []),
     None).
Proof.
  intros Hp Hopt Hwf stream.
  assert (Hs : stream = ([IAC; SB; opt] ++ sb_encode items ++ [IAC]) ++ [SE]).
  { subst stream. simpl. by rewrite <- !app_assoc. }
  rewrite Hs at 1. rewrite data_received_app, sb_front_received by done.
  simpl. unfold classify, set_state; simpl.
  rewrite <- !app_assoc. simpl. subst stream. simpl.
  rewrite !length_app. simpl.
  replace (S (bytes_received_count p + S (S (S (length (sb_encode items) + 1)))))
    with (bytes_received_count p + S (S (S (length (sb_encode items) + 2))))
    by lia.
  destruct (is_option opt), (_iac_subneg_handlers opt); done.
Qed.

(** Up to the last byte of the frame nothing has been dispatched. *)
Lemma sb_frame_partial p opt items k :
  state_machine p = normal ->
  opt <> IAC ->
  Forall well_formed_item items ->
  let stream := [IAC; SB; opt] ++ sb_encode items ++ [IAC; SE] in
  k < length stream ->
  dispatches (data_received p (take k stream)).1.2 = [].
Proof.
  intros Hp Hopt Hwf stream Hk.
  assert (Hs : stream = ([IAC; SB; opt] ++ sb_encode items ++ [IAC]) ++ [SE]).
  { subst stream. simpl. by rewrite <- !app_assoc. }
  rewrite Hs in Hk |- *. rewrite length_app in Hk. simpl in Hk.
  rewrite take_app_le by (simpl; lia).
  eapply no_dispatch_in_prefix; [by apply sb_front_received|done].
Qed.

Lemma sb_payload_frame opt body :
  sb_payload ([IAC; SB; opt] ++ body ++ [IAC; SE]) = body.
Proof.
  unfold sb_payload. simpl. rewrite length_app. simpl.
  apply take_app_length'. lia.
Qed.

Lemma sb_encode_plain payload : sb_encode (plain <$> payload) = payload.
Proof.
  induction payload as [|b l IH]; [done|].
  change (sb_encode (plain <$> b :: l)) with (b :: sb_encode (plain <$> l)).
  by rewrite IH.
Qed.

Lemma count_iac_encode items :
  Forall well_formed_item items ->
  length (filter (fun b => b = IAC) (sb_encode items)) = 2 * escapes items.
Proof.
  unfold sb_encode, escapes. induction 1 as [|i items Hi _ IH]; [done|].
  change ((i :: items) ≫= sb_wire) with (sb_wire i ++ (items ≫= sb_wire)).
  rewrite filter_app, length_app, IH, filter_cons.
  destruct i as [b|]; simpl.
  - rewrite filter_cons_False; [done|].
    intros ->. by apply Hi.
  - lia.
Qed.

(** C1, as amended.  A sub-negotiation for an option that has a handler,
    whose payload carries the byte 255 doubled ([IAC IAC]), received in the
    normal state: [data_received] returns normally, is back in the normal
    state, and has called the handler exactly once, with the whole frame.
    The payload [data[3:-2]] of that frame is the payload as sent: it holds
    both bytes of every [IAC IAC] pair, so two bytes 255 per pair.  The
    inner [IAC] does not end the sub-negotiation: no proper prefix of the
    frame makes the classifier call a handler. *)
Theorem escaped_iac_kept_in_payload p opt items :
  state_machine p = normal ->
  _iac_subneg_handlers opt = true ->
  Forall well_formed_item items ->
  let stream := [IAC; SB; opt] ++ sb_encode items ++ [IAC; SE] in
  (data_received p stream).2 = None
  /\ state_machine (data_received p stream).1.1 = normal
  /\ dispatches (data_received p stream).1.2 = [(opt, stream)]
  /\ sb_payload stream = sb_encode items
  /\ length (filter (fun b => b = IAC) (sb_payload stream)) = 2 * escapes items
  /\ (forall k, k < length stream ->
        dispatches (data_received p (take k stream)).1.2 = []).
Proof.
  intros Hp Hopt Hwf stream.
  destruct (subneg_handler_is_option opt Hopt) as [Ho Hne].
  pose proof (sb_frame_received p opt items Hp Hne Hwf) as Hall.
  fold stream in Hall. cbv zeta in Hall.
  rewrite Ho, Hopt in Hall. rewrite Hall. simpl.
  assert (Hpay : sb_payload stream = sb_encode items)
    by apply sb_payload_frame.
  repeat split; try done.
  - rewrite Hpay. by apply count_iac_encode.
  - intros k Hk. by apply sb_frame_partial.
Qed.

Lemma escaped_iac_kept_in_payload_witness :
  let items := [plain x61; escaped_iac; plain x62] in
  let stream := [IAC; SB; GMCP; x61; IAC; IAC; x62; IAC; SE] in
  escapes items = 1
  /\ dispatches (data_received connection_made stream).1.2 = [(GMCP, stream)]
  /\ length (filter (fun b => b = IAC) (sb_payload stream)) = 2.
Proof.
  intros items stream.
  assert (Hwf : Forall well_formed_item items).
  { repeat constructor; discriminate. }
  destruct (escaped_iac_kept_in_payload connection_made GMCP items
              eq_refl eq_refl Hwf) as (_ & _ & Hd & _ & Hc & _).
  split; [reflexivity|]. split; [exact Hd | exact Hc].
Defined.

(** C1 as stated fails: the payload handed to the handler does not hold
    one byte 255 per [IAC IAC] pair. *)
Lemma escape_collapsing_fails :
  ~ (forall p opt items buf,
       state_machine p = normal ->
       _iac_subneg_handlers opt = true ->
       Forall well_formed_item items ->
       dispatches
         (data_received p ([IAC; SB; opt] ++ sb_encode items ++ [IAC; SE])).1.2
       = [(opt, buf)] ->
       length (filter (fun b => b = IAC) (sb_payload buf)) = escapes items).
Proof.
  intros H.
  specialize (H connection_made GMCP [plain x61; escaped_iac; plain x62]
                [IAC; SB; GMCP; x61; IAC; IAC; x62; IAC; SE]
                eq_refl eq_refl).
  assert (Hwf : Forall well_formed_item [plain x61; escaped_iac; plain x62]).
  { repeat constructor; discriminate. }
  specialize (H Hwf eq_refl). vm_compute in H. discriminate H.
Qed.

(** Text without the byte 255 in the normal state is fed to the session
    and nothing else is called. *)
Lemma text_received payload : forall n cmd d o,
  IAC ∉ payload ->
  data_received (mkProtocol normal n cmd d o) payload
  = (mkProtocol normal (n + length payload) cmd d o, feed_data <$> payload, None).
Proof.
  induction payload as [|b payload IH]; intros n cmd d o Hno.
  - simpl. by rewrite Nat.add_0_r.
  - apply not_elem_of_cons in Hno as [Hb Hno]. simpl.
    unfold classify. simpl. rewrite bool_decide_eq_false_2 by done.
    unfold count_byte. simpl.
    rewrite IH by done. simpl. by rewrite Nat.add_succ_r.
Qed.

Lemma dispatches_fed payload : dispatches (feed_data <$> payload) = [].
Proof. by induction payload. Qed.

(** [IAC SB IAC]: the third byte is not taken as an option, the classifier
    is back in the normal state and what follows is text. *)
Lemma sb_iac_received p payload :
  state_machine p = normal ->
  IAC ∉ payload ->
  data_received p ([IAC; SB; IAC] ++ payload ++ [IAC; SE])
  = (mkProtocol normal (bytes_received_count p + (3 + length payload + 2))
                (Some SB) (Some [IAC; SB]) (iac_sub_neg_option p),
     go_ahead :: (feed_data <$> payload) ++ [go_ahead], None).
Proof.
  intros Hp Hpay. destruct p as [m n cmd d o]. simpl in Hp. subst m. simpl.
  unfold classify, set_state; simpl.
  rewrite data_received_app, text_received by done. simpl.
  unfold classify, set_state; simpl.
  replace (S (S (S (S (S (n + length payload))))))
    with (n + S (S (S (length payload + 2)))) by lia.
  done.
Qed.

(** C2, as amended.  A frame [IAC SB <opt> <payload> IAC SE] whose
    payload is without the byte 255, received in the normal state.  For an
    option that has a sub-negotiation handler (CHARSET, TTYPE, MNES, GMCP,
    MSDP, MSSP) the classifier flushes the line and calls the handler of
    [opt] exactly once; the buffer it passes is [IAC SB <opt>], the payload
    byte for byte, then [IAC SE]; and no proper prefix of the frame makes
    it call a handler.  For every other option byte no handler is called,
    neither at the end of the frame nor on a prefix of it: the classifier
    is back in the normal state, and the completed buffer has been passed
    to nothing (the only call is the flush of the line; for the byte 255
    in the place of the option no buffer is built at all, and the payload
    is fed as text). *)
Theorem subnegotiation_dispatched_once p opt payload :
  state_machine p = normal ->
  IAC ∉ payload ->
  let stream := [IAC; SB; opt] ++ payload ++ [IAC; SE] in
  (_iac_subneg_handlers opt = true ->
     (data_received p stream).1.2 = [go_ahead; iac_subneg_handler opt stream]
     /\ (data_received p stream).2 = None
     /\ dispatches (data_received p stream).1.2 = [(opt, stream)]
     /\ sb_payload stream = payload
     /\ (forall k, k < length stream ->
           dispatches (data_received p (take k stream)).1.2 = []))
  /\ (_iac_subneg_handlers opt = false ->
        (data_received p stream).2 = None
        /\ state_machine (data_received p stream).1.1 = normal
        /\ (opt <> IAC -> (data_received p stream).1.2 = [go_ahead])
        /\ (forall k, dispatches (data_received p (take k stream)).1.2 = [])).
Proof.
  intros Hp Hpay stream.
  assert (Hwf : Forall well_formed_item (plain <$> payload)).
  { apply Forall_fmap, Forall_forall. intros b Hb [= ->]. by apply Hpay. }
  split.
  - intros Hopt.
    destruct (subneg_handler_is_option opt Hopt) as [Ho Hne].
    pose proof (sb_frame_received p opt _ Hp Hne Hwf) as Hall.
    pose proof (fun k => sb_frame_partial p opt _ k Hp Hne Hwf) as Hpart.
    rewrite sb_encode_plain in Hall, Hpart. fold stream in Hall, Hpart.
    cbv zeta in Hall, Hpart. rewrite Ho, Hopt in Hall. rewrite Hall. simpl.
    repeat split; try done. apply sb_payload_frame.
  - intros Hno. destruct (decide (opt = IAC)) as [Heq|Hne].
    + subst opt. pose proof (sb_iac_received p payload Hp Hpay) as Hall.
      fold stream in Hall. rewrite Hall. simpl.
      split_and!; [done|done|done|].
      intros k. eapply no_dispatch_in_prefix; [exact Hall|].
      change (go_ahead :: (feed_data <$> payload) ++ [go_ahead])
        with ([go_ahead] ++ (feed_data <$> payload) ++ [go_ahead]).
      by rewrite !dispatches_app, dispatches_fed.
    + pose proof (sb_frame_received p opt _ Hp Hne Hwf) as Hall.
      rewrite sb_encode_plain in Hall. fold stream in Hall.
      cbv zeta in Hall. rewrite Hno, andb_false_r in Hall. rewrite Hall. simpl.
      split_and!; [done|done|done|].
      intros k. by eapply no_dispatch_in_prefix; [exact Hall|].
Qed.

Lemma subnegotiation_dispatched_once_witness :
  let stream := [IAC; SB; MSSP; x01; x41; x02; x42; IAC; SE] in
  let other := [IAC; SB; NAWS; x00; x50; x00; x18; IAC; SE] in
  dispatches (data_received connection_made stream).1.2 = [(MSSP, stream)]
  /\ sb_payload stream = [x01; x41; x02; x42]
  /\ (data_received connection_made other).1.2 = [go_ahead].
Proof.
  intros stream other.
  assert (Hpay : IAC ∉ [x01; x41; x02; x42]).
  { intros H. repeat (apply elem_of_cons in H as [H|H]; [discriminate H|]).
    by apply elem_of_nil in H. }
  assert (Hpay' : IAC ∉ [x00; x50; x00; x18]).
  { intros H. repeat (apply elem_of_cons in H as [H|H]; [discriminate H|]).
    by apply elem_of_nil in H. }
  destruct (proj1 (subnegotiation_dispatched_once connection_made MSSP
                     [x01; x41; x02; x42] eq_refl Hpay) eq_refl)
    as (_ & _ & Hd & Hp & _).
  destruct (proj2 (subnegotiation_dispatched_once connection_made NAWS
                     [x00; x50; x00; x18] eq_refl Hpay') eq_refl)
    as (_ & _ & Hdrop & _).
  split; [exact Hd|]. split; [exact Hp|]. apply Hdrop. discriminate.
Defined.

(** C2 as stated fails: for an option without a sub-negotiation handler
    (here NAWS) the completed frame is dropped and nothing is called. *)
Lemma subnegotiation_without_handler_not_dispatched :
  ~ (forall p opt payload,
       state_machine p = normal ->
       IAC ∉ payload ->
       dispatches
         (data_received p ([IAC; SB; opt] ++ payload ++ [IAC; SE])).1.2
       = [(opt, [IAC; SB; opt] ++ payload ++ [IAC; SE])]).
Proof.
  intros H.
  specialize (H connection_made NAWS [x00; x50; x00; x18] eq_refl).
  assert (Hpay : IAC ∉ [x00; x50; x00; x18]).
  { intros Hin. repeat (apply elem_of_cons in Hin as [Hin|Hin]; [discriminate Hin|]).
    by apply elem_of_nil in Hin. }
  specialize (H Hpay). vm_compute in H. discriminate H.
Qed.

End TelnetClassifier.

(** ** Code lines and code blocks *)

Section CodeLines.
Import Code Wf.

Lemma occurrences_cons c x l :
  occurrences c (x :: l) =
  (if decide (x = c) then 1 else 0) + occurrences c l.
Proof.
  unfold occurrences. rewrite filter_cons. by destruct (decide (x = c)).
Qed.

(** The scanner accepts any run of characters in which no closing brace
    is unmatched, and toggles each quote flag once per quote character. *)
Lemma scan_line_accepts chars : forall st,
  (0 <= brace_count st)%Z ->
  (single_quote st = 0 \/ single_quote st = 1)%Z ->
  (double_quote st = 0 \/ double_quote st = 1)%Z ->
  (forall k, (Z.of_nat (occurrences "}"%char (take k chars))
              <= brace_count st + Z.of_nat (occurrences "{"%char (take k chars)))%Z) ->
  exists st',
    scan_line st chars = Ok st'
    /\ single_quote st' =
         ((single_quote st + Z.of_nat (occurrences "'"%char chars)) mod 2)%Z
    /\ double_quote st' =
         ((double_quote st + Z.of_nat (occurrences dquote chars)) mod 2)%Z.
Proof.
  induction chars as [|ch rest IH]; intros [params a bc sq dq] Hbc Hsq Hdq Hbr;
    simpl in *.
  - exists (mkLineScan params a bc sq dq). simpl.
    rewrite !Z.add_0_r. destruct Hsq as [-> | ->], Hdq as [-> | ->]; done.
  - assert (Hstep : forall k,
      (Z.of_nat ((if decide (ch = "}"%char) then 1 else 0)
                 + occurrences "}"%char (take k rest))
       <= bc + Z.of_nat ((if decide (ch = "{"%char) then 1 else 0)
                         + occurrences "{"%char (take k rest)))%Z).
    { intros k. specialize (Hbr (S k)). simpl in Hbr.
      by rewrite !occurrences_cons in Hbr. }
    rewrite !occurrences_cons.
    unfold scan_char.
    destruct (decide (ch = "{"%char)) as [->|H1].
    { rewrite bool_decide_eq_true_2 by done. simpl.
      edestruct (IH (mkLineScan params (add_char a "{") (bc + 1) sq dq))
        as (st' & -> & Hs & Hd); simpl; try done; try lia.
      - intros k. specialize (Hstep k). simpl in Hstep. lia.
      - exists st'. by rewrite Hs, Hd. }
    rewrite (bool_decide_eq_false_2 (ch = "{"%char)) by done.
    destruct (decide (ch = "}"%char)) as [->|H2].
    { rewrite bool_decide_eq_true_2 by done. simpl.
      pose proof (Hstep 0) as H0. unfold occurrences in H0. simpl in H0.
      rewrite bool_decide_eq_false_2 by lia. simpl.
      edestruct (IH (mkLineScan params (add_char a "}") (bc - 1) sq dq))
        as (st' & -> & Hs & Hd); simpl; try done; try lia.
      - intros k. specialize (Hstep k). simpl in Hstep. lia.
      - exists st'. by rewrite Hs, Hd. }
    rewrite (bool_decide_eq_false_2 (ch = "}"%char)) by done.
    assert (Hrest : forall k,
      (Z.of_nat (occurrences "}"%char (take k rest))
       <= bc + Z.of_nat (occurrences "{"%char (take k rest)))%Z).
    { intros k. specialize (Hstep k).
      simpl in Hstep. lia. }
    destruct (decide (ch = "'"%char)) as [->|H3].
    { rewrite bool_decide_eq_true_2 by done. simpl.
      destruct Hsq as [-> | ->]; simpl.
      - edestruct (IH (mkLineScan params a bc 1 dq))
          as (st' & -> & Hs & Hd); simpl; try done; try lia; try by right.
        exists st'. simpl in Hs, Hd. rewrite Hs, Hd.
        repeat split; f_equal; lia.
      - edestruct (IH (mkLineScan params a bc 0 dq))
          as (st' & -> & Hs & Hd); simpl; try done; try lia; try by left.
        exists st'. simpl in Hs, Hd. rewrite Hs, Hd.
        repeat split; try (f_equal; lia).
        replace (1 + Z.of_nat (S (occurrences "'"%char rest)))%Z
          with (Z.of_nat (occurrences "'"%char rest) + 1 * 2)%Z by lia.
        by rewrite Z.mod_add. }
    rewrite (bool_decide_eq_false_2 (ch = "'"%char)) by done.
    destruct (decide (ch = dquote)) as [->|H4].
    { rewrite bool_decide_eq_true_2 by done. simpl.
      destruct Hdq as [-> | ->]; simpl.
      - edestruct (IH (mkLineScan params a bc sq 1))
          as (st' & -> & Hs & Hd); simpl; try done; try lia; try by right.
        exists st'. simpl in Hs, Hd. rewrite Hs, Hd.
        repeat split; f_equal; lia.
      - edestruct (IH (mkLineScan params a bc sq 0))
          as (st' & -> & Hs & Hd); simpl; try done; try lia; try by left.
        exists st'. simpl in Hs, Hd. rewrite Hs, Hd.
        repeat split; try (f_equal; lia).
        replace (1 + Z.of_nat (S (occurrences dquote rest)))%Z
          with (Z.of_nat (occurrences dquote rest) + 1 * 2)%Z by lia.
        by rewrite Z.mod_add. }
    rewrite (bool_decide_eq_false_2 (ch = dquote)) by done. simpl.
    destruct (bool_decide (ch = " "%char)).
    + destruct (bool_decide (bc = 0%Z) && bool_decide (dq = 0%Z)
                && bool_decide (sq = 0%Z)); simpl.
      * edestruct (IH (mkLineScan (params ++ [a]) "" bc sq dq))
          as (st' & -> & Hs & Hd); simpl; try done.
        exists st'. by rewrite Hs, Hd.
      * edestruct (IH (mkLineScan params (add_char a ch) bc sq dq))
          as (st' & -> & Hs & Hd); simpl; try done.
        exists st'. by rewrite Hs, Hd.
    + simpl.
      edestruct (IH (mkLineScan params (add_char a ch) bc sq dq))
        as (st' & -> & Hs & Hd); simpl; try done.
      exists st'. by rewrite Hs, Hd.
Qed.

Lemma chars_length_of_string (a : string) :
  length (list_ascii_of_string a) = String.length a.
Proof. induction a as [|c a IH]; [done|]. simpl. by rewrite IH. Qed.

Lemma even_mod2 n : Nat.Even n -> (Z.of_nat n mod 2 = 0)%Z.
Proof.
  intros [m ->]. rewrite Nat2Z.inj_mul, Z.mul_comm. apply Z.mod_mul. lia.
Qed.

Lemma create_line_accepts line :
  line <> ""%string ->
  balanced_quotes line ->
  no_unmatched_close line ->
  exists mode hv tokens, create_line line = Ok (mode, hv, tokens).
Proof.
  intros Hne [Hsq Hdq] Hbr. destruct line as [|c0 tl]; [done|].
  unfold create_line.
  set (start := if bool_decide (c0 = "#"%char)
                then (["#"%string], list_ascii_of_string tl)
                else ([], list_ascii_of_string (String c0 tl))).
  assert (Hchars :
    occurrences "'"%char start.2 = occurrences "'"%char (list_ascii_of_string (String c0 tl))
    /\ occurrences dquote start.2 = occurrences dquote (list_ascii_of_string (String c0 tl))
    /\ forall k, occurrences "}"%char (take k start.2)
                 <= occurrences "{"%char (take k start.2)).
  { subst start. case_bool_decide as Hc; simpl; [|done]. subst c0.
    rewrite !occurrences_cons. repeat split; try done.
    intros k. specialize (Hbr (S k)). simpl in Hbr.
    by rewrite !occurrences_cons in Hbr. }
  destruct start as [params0 chars]. simpl in Hchars.
  destruct Hchars as (Hq1 & Hq2 & Hbr').
  destruct (scan_line_accepts chars (mkLineScan params0 "" 0 0 0))
    as (st & -> & Hs & Hd); simpl; try done; try by left.
  { intros k. specialize (Hbr' k). lia. }
  simpl in Hs, Hd. rewrite Z.add_0_l, Hq1, even_mod2 in Hs by done.
  rewrite Z.add_0_l, Hq2, even_mod2 in Hd by done. rewrite Hs, Hd. simpl.
  destruct (bool_decide (arg st <> ""%string)); eauto.
Qed.

(** C10.  [create_line] raises on the empty line (its [else] branch reads
    [syncmode] before any assignment), and so does constructing a
    [CodeLine] from it; on every non-empty line with balanced quotes and
    no unmatched closing brace it returns a triple of mode, flag and
    tokens. *)
Theorem create_line_only_on_nonempty :
  create_line "" = Raise UnboundLocalError
  /\ new_CodeLine "" = Raise UnboundLocalError
  /\ (forall line,
        line <> ""%string ->
        balanced_quotes line ->
        no_unmatched_close line ->
        exists mode hv tokens, create_line line = Ok (mode, hv, tokens)).
Proof.
  split; [done|]. split; [done|]. apply create_line_accepts.
Qed.

Lemma create_line_only_on_nonempty_witness :
  let line := "say 'hi there' {a b} %1"%string in
  line <> ""%string
  /\ balanced_quotes line
  /\ no_unmatched_close line
  /\ exists mode hv tokens, create_line line = Ok (mode, hv, tokens).
Proof.
  intros line.
  assert (H1 : line <> ""%string) by discriminate.
  assert (H2 : balanced_quotes line).
  { split; [exists 1; reflexivity | exists 0; reflexivity]. }
  assert (H3 : no_unmatched_close line).
  { intros k. do 24 (destruct k as [|k]; [vm_compute; lia|]).
    vm_compute. lia. }
  split; [exact H1|]. split; [exact H2|]. split; [exact H3|].
  exact (proj2 (proj2 create_line_only_on_nonempty) line H1 H2 H3).
Defined.

(** A block that is not itself wrapped in braces splits into the same
    pieces, from the same code, when one pair of braces is put around it. *)
Lemma chars_of_wrap code :
  list_ascii_of_string ("{" +:+ code +:+ "}")
  = "{"%char :: list_ascii_of_string code ++ ["}"%char].
Proof.
  change ("{" +:+ code +:+ "}")%string with (String "{" (code +:+ "}")).
  change (list_ascii_of_string (String "{" (code +:+ "}")))
    with ("{"%char :: list_ascii_of_string (code +:+ "}")).
  f_equal. induction code as [|c code IH]; [done|].
  change (list_ascii_of_string (String c code +:+ "}"))
    with (c :: list_ascii_of_string (code +:+ "}")).
  by rewrite IH.
Qed.

Lemma strip_wrapper_wrap code :
  strip_wrapper ("{" +:+ code +:+ "}") = code.
Proof.
  unfold strip_wrapper. rewrite chars_of_wrap. simpl.
  rewrite length_app. simpl.
  rewrite drop_0, (take_app_length' _ _ _) by lia.
  apply string_of_list_ascii_of_string.
Qed.

Lemma is_wrapped_wrap code : is_wrapped ("{" +:+ code +:+ "}") = true.
Proof.
  unfold is_wrapped. rewrite chars_of_wrap.
  destruct (list_ascii_of_string code) as [|c l] eqn:E; [done|].
  change ((c :: l) ++ ["}"%char]) with (c :: (l ++ ["}"%char])).
  cbv beta iota. rewrite bool_decide_eq_true_2 by done.
  rewrite bool_decide_eq_true_2; [done|].
  change (c :: l ++ ["}"%char]) with ((c :: l) ++ ["}"%char]).
  by rewrite last_snoc.
Qed.

Lemma block_pieces_wrap code :
  is_wrapped code = false ->
  block_pieces ("{" +:+ code +:+ "}") = block_pieces code.
Proof.
  intros H. unfold block_pieces.
  by rewrite is_wrapped_wrap, strip_wrapper_wrap, H.
Qed.

(** *** The recursion of [create_block] ends

    Every character scanned adds one to the length of the pieces found
    so far, counting one more for each separator. *)
Lemma add_char_length s c : String.length (add_char s c) = S (String.length s).
Proof.
  unfold add_char. induction s as [|a s IH]; [done|].
  change (String.length (String a s +:+ String c ""))
    with (S (String.length (s +:+ String c ""))).
  by rewrite IH.
Qed.

Lemma split_char_measure st ch st' :
  split_char st ch = Ok st' ->
  scanned st' = S (scanned st).
Proof.
  destruct st as [ls l bc]. unfold split_char, scanned.
  repeat case_bool_decide; intros [= <-]; simpl;
    rewrite ?add_char_length, ?sum_list_with_app; simpl; lia.
Qed.

Lemma split_block_measure chars : forall st st',
  split_block st chars = Ok st' ->
  scanned st' = scanned st + length chars.
Proof.
  induction chars as [|ch chars IH]; intros st st' H; simpl in *.
  - injection H as <-. lia.
  - destruct (split_char st ch) as [st1|e] eqn:E; [|done].
    apply split_char_measure in E. apply IH in H. lia.
Qed.

Lemma strip_wrapper_length code :
  String.length (strip_wrapper code) <= String.length code.
Proof.
  unfold strip_wrapper.
  rewrite <- chars_length_of_string, list_ascii_of_string_of_list_ascii.
  rewrite length_take, length_drop, <- chars_length_of_string. lia.
Qed.

(** When [create_block] recurses, it does so on strictly shorter code. *)
Lemma block_pieces_shorter code code' lines :
  block_pieces code = Ok (code', lines) ->
  length lines <> 1 ->
  Forall (fun p => String.length p < String.length code) lines.
Proof.
  unfold block_pieces.
  set (c := if is_wrapped code then strip_wrapper code else code).
  assert (Hc : String.length c <= String.length code).
  { subst c. destruct (is_wrapped code); [apply strip_wrapper_length|done]. }
  destruct (split_block _ _) as [st|e] eqn:Hsplit; [|done].
  apply split_block_measure in Hsplit. unfold scanned in Hsplit.
  simpl in Hsplit. rewrite chars_length_of_string in Hsplit.
  cbn [mbind result_bind]. intros [= <- <-] Hlen.
  assert (Hold : Forall (fun p => String.length p < String.length code)
                        (code_lines st)).
  { apply Forall_forall. intros p Hp.
    apply (sum_list_with_in _ (fun p => S (String.length p))) in Hp.
    simpl in Hp. lia. }
  case_bool_decide as Hcur; [|done].
  apply Forall_app. split; [done|]. apply Forall_singleton.
  destruct (code_lines st) as [|p ps]; [done|]. simpl in Hsplit. lia.
Qed.

Lemma extend_codes_ext f g lines :
  Forall (fun p => f p = g p /\ f p <> None) lines ->
  extend_codes f lines = extend_codes g lines
  /\ extend_codes f lines <> None.
Proof.
  induction 1 as [|p lines [Heq Hsome] _ [IH1 IH2]]; [done|]. simpl.
  rewrite <- Heq, <- IH1.
  destruct (f p) as [[cls|e]|]; [|done|done].
  destruct (extend_codes f lines) as [[cls'|e]|]; done.
Qed.

(** Any bound above the length of the code gives the same result, and
    this result is not the bound being reached. *)
Lemma create_block_rec_enough n : forall code fuel1 fuel2,
  String.length code < n -> n <= fuel1 -> n <= fuel2 ->
  create_block_rec fuel1 code = create_block_rec fuel2 code
  /\ create_block_rec fuel1 code <> None.
Proof.
  induction n as [|n IH]; intros code fuel1 fuel2 Hlen H1 H2; [lia|].
  destruct fuel1 as [|fuel1]; [lia|]. destruct fuel2 as [|fuel2]; [lia|].
  cbn [create_block_rec].
  destruct (block_pieces code) as [[code' lines]|e] eqn:Hpieces; [|done].
  assert (Hrec : length lines <> 1 ->
            extend_codes (create_block_rec fuel1) lines
            = extend_codes (create_block_rec fuel2) lines
            /\ extend_codes (create_block_rec fuel1) lines <> None).
  { intros Hne. apply extend_codes_ext.
    pose proof (block_pieces_shorter _ _ _ Hpieces Hne) as Hshort.
    eapply Forall_impl; [exact Hshort|]. intros p Hp. simpl in Hp.
    apply IH; lia. }
  destruct lines as [|p [|q lines]]; [by apply Hrec|done|by apply Hrec].
Qed.

(** [create_block] returns or raises on every code. *)
Lemma create_block_total code : create_block code <> None.
Proof.
  unfold create_block.
  apply (create_block_rec_enough (S (String.length code)) code _
           (S (String.length code))); lia.
Qed.

(** A block that is not itself wrapped in braces gives the same code
    lines with one pair of braces around it. *)
Lemma create_block_wrap code :
  is_wrapped code = false ->
  create_block ("{" +:+ code +:+ "}") = create_block code.
Proof.
  intros Hw. unfold create_block.
  assert (Hlen : String.length ("{" +:+ code +:+ "}") = S (String.length code + 1)).
  { rewrite <- !chars_length_of_string, chars_of_wrap. simpl.
    by rewrite length_app. }
  destruct (create_block_rec_enough (S (String.length code)) code
              (S (String.length ("{" +:+ code +:+ "}")))
              (S (String.length code)) ltac:(lia) ltac:(lia) ltac:(lia))
    as [<- _].
  cbn [create_block_rec]. by rewrite block_pieces_wrap.
Qed.

(** C8, as amended.  [CodeBlock("{a;b;c}").codes] and
    [CodeBlock("a;b;c").codes] are both the three code lines made from
    ["a"], ["b"] and ["c"], in this order.  In general, for code that does
    not itself start with an opening and end with a closing brace (or is
    shorter than two characters), one pair of braces around it changes
    nothing: [create_block] returns the same code lines, or raises the
    same exception, and the blocks constructed have the same code lines
    and the same mode. *)
Theorem wrapped_block_same_codes :
  (exists blk1 blk2 a b c,
     new_CodeBlock "{a;b;c}" = Some (Ok blk1)
     /\ new_CodeBlock "a;b;c" = Some (Ok blk2)
     /\ length (codes blk1) = 3
     /\ codes blk1 = codes blk2
     /\ new_CodeLine "a" = Ok a
     /\ new_CodeLine "b" = Ok b
     /\ new_CodeLine "c" = Ok c
     /\ codes blk2 = [a; b; c])
  /\ (forall code,
        is_wrapped code = false ->
        create_block ("{" +:+ code +:+ "}") = create_block code
        /\ (forall blk, new_CodeBlock code = Some (Ok blk) ->
              exists blk', new_CodeBlock ("{" +:+ code +:+ "}") = Some (Ok blk')
                           /\ codes blk' = codes blk
                           /\ block_mode blk' = block_mode blk)
        /\ (forall e, new_CodeBlock code = Some (Raise e) ->
              new_CodeBlock ("{" +:+ code +:+ "}") = Some (Raise e))).
Proof.
  split.
  - do 5 eexists. repeat split; vm_compute; reflexivity.
  - intros code Hw. pose proof (create_block_wrap code Hw) as Heq.
    split; [exact Heq|]. unfold new_CodeBlock. rewrite Heq.
    destruct (create_block code) as [[cls|e]|]; split.
    + intros blk [= <-]. by eexists.
    + by intros e.
    + by intros blk.
    + by intros e' [= <-].
    + by intros blk.
    + by intros e.
Qed.

Lemma wrapped_block_same_codes_witness :
  is_wrapped "#wa 100;{look;east}" = false
  /\ create_block "{#wa 100;{look;east}}" = create_block "#wa 100;{look;east}".
Proof.
  split; [reflexivity|].
  exact (proj1 (proj2 wrapped_block_same_codes "#wa 100;{look;east}" eq_refl)).
Defined.

(** C8 as stated fails for code that itself starts and ends with a brace:
    the two braced groups [{a};{b}] are rejected, while with one more
    pair of braces around them they are the code lines of [a] and [b]. *)
Lemma wrapping_braced_groups_differs :
  ~ (forall code, create_block ("{" +:+ code +:+ "}") = create_block code).
Proof.
  intros H. specialize (H "{a};{b}"%string). vm_compute in H. discriminate H.
Qed.

End CodeLines.

(** ** Variable expansion *)

Section Expansion.
Import Code Expand ExpandSpec.

Lemma positional_index_Some item idx :
  positional_index item = Some idx ->
  1 <= idx <= 9 /\ item = ("%" +:+ pretty idx)%string.
Proof.
  unfold positional_index, positional. simpl.
  repeat (case_bool_decide;
          [subst item; intros [= <-]; split; [lia | vm_compute; reflexivity] |]).
  done.
Qed.

Lemma positional_index_pretty k :
  1 <= k <= 9 -> positional_index ("%" +:+ pretty k) = Some k.
Proof.
  intros Hk.
  do 10 (destruct k as [|k]; [try lia; vm_compute; reflexivity|]). lia.
Qed.

Lemma positional_index_first_char item idx :
  positional_index item = Some idx -> first_char item = Some "%"%char.
Proof. intros [_ ->]%positional_index_Some. done. Qed.

Lemma expand_item_image vars line raw wl item :
  exists v,
    expand_item vars line raw (Some wl) item = Ok v
    /\ token_image vars line raw wl item v.
Proof.
  unfold expand_item.
  destruct (positional_index item) as [idx|] eqn:Hidx.
  - pose proof (positional_index_Some _ _ Hidx) as [Hrange Hitem].
    exists (if bool_decide (idx <= length wl)
            then default PNone (wl !! (idx - 1)) else PStr "None").
    split; [by case_bool_decide|].
    assert (Hk : forall k, 1 <= k <= 9 -> item = ("%" +:+ pretty k)%string ->
                           k = idx).
    { intros k Hk ->. rewrite positional_index_pretty in Hidx by done.
      congruence. }
    unfold token_image. split_and!.
    + intros k Hr Hi. rewrite (Hk k Hr Hi). split.
      * intros c Hc. rewrite bool_decide_eq_true_2, Hc; [done|].
        apply lookup_lt_Some in Hc. lia.
      * intros Hlen. by rewrite bool_decide_eq_false_2 by lia.
    + intros ->. by vm_compute in Hidx.
    + intros ->. by vm_compute in Hidx.
    + intros _ Hno. by destruct (Hno idx Hrange).
    + intros name ->. by vm_compute in Hidx.
    + intros Hp. by rewrite (positional_index_first_char _ _ Hidx) in Hp.
  - assert (Hnot : forall k, 1 <= k <= 9 -> item <> ("%" +:+ pretty k)%string).
    { intros k Hk ->. by rewrite positional_index_pretty in Hidx. }
    exists (if bool_decide (item = "%line"%string) then line
            else if bool_decide (item = "%raw"%string) then raw
            else if bool_decide (first_char item = Some "%"%char)
            then getVariable vars item (PStr "")
            else if bool_decide (first_char item = Some "@"%char)
            then getVariable vars (tail item) (PStr "")
            else PStr item).
    split; [by repeat case_bool_decide|].
    unfold token_image. split_and!.
    + intros k Hr Hi. by destruct (Hnot k).
    + intros ->. done.
    + intros ->. done.
    + intros Hp _ Hl Hr.
      by rewrite (bool_decide_eq_false_2 (item = _)),
                 (bool_decide_eq_false_2 (item = _)),
                 bool_decide_eq_true_2 by done.
    + intros name ->. done.
    + intros Hp Ha.
      assert (item <> "%line"%string) by (by intros ->).
      assert (item <> "%raw"%string) by (by intros ->).
      by rewrite !bool_decide_eq_false_2 by done.
Qed.

Lemma expand_loop_image vars line raw wl items : forall str nc,
  exists str' nc',
    expand_loop vars line raw (Some wl) items str nc = Ok (str', nc ++ nc')
    /\ Forall2 (token_image vars line raw wl)
               (filter (fun item => item <> ""%string) items) nc'.
Proof.
  induction items as [|item items IH]; intros str nc; simpl.
  - exists str, []. by rewrite app_nil_r.
  - destruct item as [|c item].
    + rewrite bool_decide_eq_true_2 by done.
      rewrite filter_cons_False by (intros H; by apply H). apply IH.
    + rewrite bool_decide_eq_false_2 by done.
      rewrite filter_cons_True by done.
      destruct (expand_item_image vars line raw wl (String c item))
        as (v & -> & Hv). simpl.
      edestruct IH as (str' & nc' & -> & Hrest).
      exists str', (v :: nc'). rewrite <- app_assoc. split; [done|].
      by constructor.
Qed.

(** C9, as amended.  With a wildcards list supplied, [expand] returns
    normally; it leaves empty tokens out of the result, and the values it
    returns are, in order, those of the non-empty tokens: a token [%k]
    with [1 <= k <= 9] gives the capture at index [k-1] if the list has
    one and the string ["None"] otherwise; [%line] and [%raw] give the
    [line] and [raw] keyword arguments if these were passed and are
    truthy, and otherwise the session variables [%line] and [%raw] (the
    string ["None"] if unset); any other token starting with [%] gives the
    session variable of that name, sign included, and a token [@name] the
    session variable [name], both with the empty string as default; any
    other token is unchanged. *)
Theorem expand_maps_each_token cl vars kw wl :
  kw_wildcards kw = Some wl ->
  let line := get_or (kw_line kw) (getVariable vars "%line" (PStr "None")) in
  let raw := get_or (kw_raw kw) (getVariable vars "%raw" (PStr "None")) in
  exists str new_code,
    expand cl vars kw = Ok (str, new_code)
    /\ Forall2 (token_image vars line raw wl)
               (filter (fun item => item <> ""%string) (code cl)) new_code.
Proof.
  intros Hwl line raw. unfold expand. rewrite Hwl.
  destruct (expand_loop_image vars line raw wl (code cl) (commandText cl) [])
    as (str & nc & H & Himg).
  by exists str, nc.
Qed.

Lemma expand_maps_each_token_witness :
  let cl := mkCodeLine "say %1 %2 @hp" dontcare true
                       ["say"; "%1"; "%2"; "@hp"]%string in
  let vars : gmap string pyval := {[ "hp"%string := PInt 42 ]} in
  let kw := mkKwargs None None (Some [PStr "orc"]) in
  new_CodeLine "say %1 %2 @hp" = Ok cl
  /\ kw_wildcards kw = Some [PStr "orc"]
  /\ expand cl vars kw
     = Ok ("say orc None 42"%string,
           [PStr "say"; PStr "orc"; PStr "None"; PInt 42])
  /\ exists str new_code,
       expand cl vars kw = Ok (str, new_code)
       /\ Forall2 (token_image vars (PStr "None") (PStr "None") [PStr "orc"])
                  ["say"; "%1"; "%2"; "@hp"]%string new_code.
Proof.
  intros cl vars kw.
  split; [reflexivity|]. split; [reflexivity|].
  split; [vm_compute; reflexivity|].
  exact (expand_maps_each_token cl vars kw [PStr "orc"] eq_refl).
Defined.

(** C9 as stated fails twice.  An empty token (two spaces in a row make
    one) is not kept: the result has no value for it.  And [%line] is not
    the session variable when the caller passes a [line] keyword
    argument. *)
Lemma expand_not_one_value_per_token :
  ~ (forall cl vars kw wl str nc,
       kw_wildcards kw = Some wl ->
       expand cl vars kw = Ok (str, nc) ->
       Forall2 (token_image vars
                  (get_or (kw_line kw) (getVariable vars "%line" (PStr "None")))
                  (get_or (kw_raw kw) (getVariable vars "%raw" (PStr "None")))
                  wl)
               (code cl) nc)
  /\ ~ (forall cl vars kw wl str nc,
         kw_wildcards kw = Some wl ->
         expand cl vars kw = Ok (str, nc) ->
         Forall2 (token_image vars
                    (getVariable vars "%line" (PStr "None"))
                    (getVariable vars "%raw" (PStr "None"))
                    wl)
                 (filter (fun item => item <> ""%string) (code cl)) nc).
Proof.
  split; intros H.
  - specialize (H (mkCodeLine "a  b" dontcare false ["a"; ""; "b"]%string)
                  ∅ (mkKwargs None None (Some [])) []
                  "a  b"%string [PStr "a"; PStr "b"] eq_refl).
    assert (He : expand (mkCodeLine "a  b" dontcare false ["a"; ""; "b"]%string)
                   ∅ (mkKwargs None None (Some []))
                 = Ok ("a  b"%string, [PStr "a"; PStr "b"]))
      by (vm_compute; reflexivity).
    apply H, Forall2_length in He. discriminate He.
  - specialize (H (mkCodeLine "%line" dontcare true ["%line"]%string)
                  {[ "%line"%string := PStr "shown" ]}
                  (mkKwargs (Some (PStr "matched")) None (Some [])) []
                  "matched"%string [PStr "matched"] eq_refl).
    assert (He : expand (mkCodeLine "%line" dontcare true ["%line"]%string)
                   {[ "%line"%string := PStr "shown" ]}
                   (mkKwargs (Some (PStr "matched")) None (Some []))
                 = Ok ("matched"%string, [PStr "matched"]))
      by (vm_compute; reflexivity).
    apply H in He. apply Forall2_cons_1 in He as [(_ & Hl & _) _].
    specialize (Hl eq_refl). vm_compute in Hl. discriminate Hl.
Qed.

End Expansion.

(** ** Multi-line matching *)

Section Matching.
Import Objects.

Lemma match_first_hit t res re line g cb :
  multiline_regex t res -> _mline t = Some 0 ->
  res !! 0 = Some re -> re line = Some g ->
  exists t' st,
    do_match t line cb = Ok (t', st, [])
    /\ state_result st = NOTSET
    /\ _mline t' = Some 1 /\ wildcards t' = g /\ lines t' = [line]
    /\ multiline_regex t' res.
Proof.
  intros (Hm & Hres & Hn) Hk Hre Hg.
  destruct res as [|re0 res]; [done|]. injection Hre as ->.
  unfold do_match, match_line. rewrite Hm, Hk, Hres. simpl.
  rewrite Hg. simpl. rewrite andb_false_r.
  destruct (cb && sync t); eexists _, _; (split; [reflexivity|]);
    by repeat split.
Qed.

Lemma match_interior_hit t res k re line g cb :
  multiline_regex t res -> _mline t = Some k ->
  0 < k < length res - 1 ->
  res !! k = Some re -> re line = Some g ->
  exists t' st,
    do_match t line cb = Ok (t', st, [])
    /\ state_result st = NOTSET
    /\ _mline t' = Some (k + 1)
    /\ wildcards t' = wildcards t ++ g
    /\ lines t' = lines t ++ [line]
    /\ multiline_regex t' res.
Proof.
  intros (Hm & Hres & Hn) Hk Hrange Hre Hg.
  unfold do_match, match_line. rewrite Hm, Hk, Hres, Hn. simpl.
  rewrite bool_decide_eq_false_2 by lia.
  rewrite !bool_decide_eq_true_2 by lia. simpl.
  unfold get_item, regex in *. rewrite Hre. simpl. rewrite Hg. simpl.
  rewrite andb_false_r.
  destruct (cb && sync t); eexists _, _; (split; [reflexivity|]);
    by repeat split.
Qed.

Lemma match_interior_miss t res k re line cb :
  multiline_regex t res -> _mline t = Some k ->
  0 < k < length res - 1 ->
  res !! k = Some re -> re line = None ->
  exists t' st,
    do_match t line cb = Ok (t', st, [])
    /\ state_result st = NOTSET
    /\ _mline t' = Some 0
    /\ multiline_regex t' res.
Proof.
  intros (Hm & Hres & Hn) Hk Hrange Hre Hg.
  unfold do_match, match_line. rewrite Hm, Hk, Hres, Hn. simpl.
  rewrite bool_decide_eq_false_2 by lia.
  rewrite !bool_decide_eq_true_2 by lia. simpl.
  unfold get_item, regex in *. rewrite Hre. simpl. rewrite Hg. simpl.
  rewrite andb_false_r.
  destruct (cb && sync t); eexists _, _; (split; [reflexivity|]);
    by repeat split.
Qed.

Lemma match_final_hit t res k re line g cb :
  multiline_regex t res -> _mline t = Some k ->
  0 < k -> k = length res - 1 ->
  res !! k = Some re -> re line = Some g ->
  exists t' st calls,
    do_match t line cb = Ok (t', st, calls)
    /\ st = mkState SUCCESS (id t)
                    (String.concat newline (lines t ++ [line]))
                    (wildcards t ++ g)
    /\ calls = (if cb && sync t
                then [onSuccess (id t)
                        (String.concat newline (lines t ++ [line]))
                        (wildcards t ++ g)]
                else [])
    /\ _mline t' = Some 0
    /\ multiline_regex t' res.
Proof.
  intros (Hm & Hres & Hn) Hk Hpos Hlast Hre Hg.
  unfold do_match, match_line. rewrite Hm, Hk, Hres, Hn. simpl.
  rewrite bool_decide_eq_false_2 by lia.
  rewrite (bool_decide_eq_false_2 (k < _)) by lia.
  rewrite andb_false_r.
  rewrite bool_decide_eq_true_2 by lia. simpl.
  unfold get_item, regex in *. rewrite Hre. simpl. rewrite Hg. simpl.
  eexists _, _, _. split; [reflexivity|]. by repeat split.
Qed.

Lemma match_final_miss t res k re line cb :
  multiline_regex t res -> _mline t = Some k ->
  0 < k -> k = length res - 1 ->
  res !! k = Some re -> re line = None ->
  exists t' st,
    do_match t line cb = Ok (t', st, [])
    /\ state_result st = NOTSET
    /\ _mline t' = Some 0
    /\ multiline_regex t' res.
Proof.
  intros (Hm & Hres & Hn) Hk Hpos Hlast Hre Hg.
  unfold do_match, match_line. rewrite Hm, Hk, Hres, Hn. simpl.
  rewrite bool_decide_eq_false_2 by lia.
  rewrite (bool_decide_eq_false_2 (k < _)) by lia.
  rewrite andb_false_r.
  rewrite bool_decide_eq_true_2 by lia. simpl.
  unfold get_item, regex in *. rewrite Hre. simpl. rewrite Hg. simpl.
  rewrite andb_false_r.
  destruct (cb && sync t); eexists _, _; (split; [reflexivity|]);
    by repeat split.
Qed.

(** C7.  A multi-line trigger with three patterns, at counter 0, that
    sees a line matching the first pattern, then one matching the second,
    then one not matching the third: none of the three calls of [match]
    returns SUCCESS or calls a callback, the counter is 0 afterwards, and
    the next line matching the first pattern starts a new attempt.  In
    general, for any number of patterns: at an interior counter a match
    advances the counter and appends the line and the captured groups; a
    non-match sets the counter to 0; at the last counter a match returns
    SUCCESS with the accumulated lines joined by newlines and all the
    accumulated wildcards, and sets the counter to 0. *)
Theorem multiline_trigger_counter :
  (forall t p0 p1 p2 l1 l2 l3 g1 g2 cb,
     multiline_regex t [p0; p1; p2] -> _mline t = Some 0 ->
     p0 l1 = Some g1 -> p1 l2 = Some g2 -> p2 l3 = None ->
     exists t1 s1 t2 s2 t3 s3,
       do_match t l1 cb = Ok (t1, s1, [])
       /\ do_match t1 l2 cb = Ok (t2, s2, [])
       /\ do_match t2 l3 cb = Ok (t3, s3, [])
       /\ state_result s1 <> SUCCESS
       /\ state_result s2 <> SUCCESS
       /\ state_result s3 <> SUCCESS
       /\ _mline t3 = Some 0
       /\ forall l4 g4, p0 l4 = Some g4 ->
            exists t4 s4,
              do_match t3 l4 cb = Ok (t4, s4, [])
              /\ _mline t4 = Some 1 /\ lines t4 = [l4] /\ wildcards t4 = g4)
  /\ (forall t res k re line g cb,
        multiline_regex t res -> _mline t = Some k ->
        0 < k < length res - 1 ->
        res !! k = Some re -> re line = Some g ->
        exists t' st,
          do_match t line cb = Ok (t', st, [])
          /\ state_result st = NOTSET
          /\ _mline t' = Some (k + 1)
          /\ wildcards t' = wildcards t ++ g
          /\ lines t' = lines t ++ [line])
  /\ (forall t res k re line cb,
        multiline_regex t res -> _mline t = Some k ->
        0 < k <= length res - 1 ->
        res !! k = Some re -> re line = None ->
        exists t' st,
          do_match t line cb = Ok (t', st, [])
          /\ state_result st = NOTSET
          /\ _mline t' = Some 0)
  /\ (forall t res k re line g cb,
        multiline_regex t res -> _mline t = Some k ->
        0 < k -> k = length res - 1 ->
        res !! k = Some re -> re line = Some g ->
        exists t' st calls,
          do_match t line cb = Ok (t', st, calls)
          /\ state_result st = SUCCESS
          /\ state_line st = String.concat newline (lines t ++ [line])
          /\ state_wildcards st = wildcards t ++ g
          /\ calls = (if cb && sync t
                      then [onSuccess (id t) (state_line st) (state_wildcards st)]
                      else [])
          /\ _mline t' = Some 0).
Proof.
  split_and!.
  - intros t p0 p1 p2 l1 l2 l3 g1 g2 cb Ht Hk H0 H1 H2.
    destruct (match_first_hit t _ p0 l1 g1 cb Ht Hk eq_refl H0)
      as (t1 & s1 & E1 & R1 & K1 & _ & _ & Ht1).
    destruct (match_interior_hit t1 _ 1 p1 l2 g2 cb Ht1 K1
                ltac:(simpl; lia) eq_refl H1)
      as (t2 & s2 & E2 & R2 & K2 & _ & _ & Ht2).
    destruct (match_final_miss t2 _ 2 p2 l3 cb Ht2 K2
                ltac:(lia) eq_refl eq_refl H2)
      as (t3 & s3 & E3 & R3 & K3 & Ht3).
    exists t1, s1, t2, s2, t3, s3. split_and!; try done.
    + by rewrite R1.
    + by rewrite R2.
    + by rewrite R3.
    + intros l4 g4 H4.
      destruct (match_first_hit t3 _ p0 l4 g4 cb Ht3 K3 eq_refl H4)
        as (t4 & s4 & E4 & _ & K4 & W4 & L4 & _).
      by exists t4, s4.
  - intros t res k re line g cb Ht Hk Hr Hre Hg.
    destruct (match_interior_hit t res k re line g cb Ht Hk Hr Hre Hg)
      as (t' & st & ? & ? & ? & ? & ? & _).
    by exists t', st.
  - intros t res k re line cb Ht Hk Hr Hre Hg.
    destruct (decide (k < length res - 1)) as [Hlt|Hge].
    + destruct (match_interior_miss t res k re line cb Ht Hk
                  ltac:(lia) Hre Hg) as (t' & st & ? & ? & ? & _).
      by exists t', st.
    + destruct (match_final_miss t res k re line cb Ht Hk
                  ltac:(lia) ltac:(lia) Hre Hg) as (t' & st & ? & ? & ? & _).
      by exists t', st.
  - intros t res k re line g cb Ht Hk Hpos Hlast Hre Hg.
    destruct (match_final_hit t res k re line g cb Ht Hk Hpos Hlast Hre Hg)
      as (t' & st & calls & ? & -> & ? & ? & _).
    eexists t', _, calls. split; [eassumption|]. by repeat split.
Qed.

Lemma multiline_trigger_counter_witness :
  let res := [literal_regex "You see"; literal_regex "Exits:";
              literal_regex "Players:"] in
  let t := mkMatchObject "tri_room" true 100 true false true false false
             (many_lines ["You see"; "Exits:"; "Players:"]%string)
             true 3 None (Some res) (Some 0) [] [] false None in
  multiline_regex t res
  /\ exists t1 s1 t2 s2 t3 s3,
       do_match t "You see a door" true = Ok (t1, s1, [])
       /\ do_match t1 "Exits: north" true = Ok (t2, s2, [])
       /\ do_match t2 "A cat purrs" true = Ok (t3, s3, [])
       /\ state_result s3 <> SUCCESS
       /\ _mline t3 = Some 0.
Proof.
  intros res t.
  assert (Ht : multiline_regex t res) by (by repeat split).
  split; [exact Ht|].
  destruct (proj1 multiline_trigger_counter t
              (literal_regex "You see") (literal_regex "Exits:")
              (literal_regex "Players:")
              "You see a door"%string "Exits: north"%string
              "A cat purrs"%string [] [] true Ht eq_refl
              eq_refl eq_refl eq_refl)
    as (t1 & s1 & t2 & s2 & t3 & s3 & E1 & E2 & E3 & _ & _ & R3 & K3 & _).
  by exists t1, s1, t2, s2, t3, s3.
Defined.

End Matching.

(** ** Delivery of a line to the triggers *)

Section Dispatch.
Import Objects Session.

Lemma do_match_preserves t line cb t' st cbs :
  do_match t line cb = Ok (t', st, cbs) ->
  id t' = id t /\ oneShot t' = oneShot t /\ keepEval t' = keepEval t
  /\ enabled t' = enabled t /\ priority t' = priority t.
Proof.
  unfold do_match. destruct (match_line t line) as [m|e]; [|done].
  simpl. by intros [= <- _ _].
Qed.

Lemma update_object_keys key t table :
  (update_object key t table).*1 = table.*1.
Proof.
  unfold update_object. rewrite <- list_fmap_compose.
  apply list_fmap_ext. intros i [k v] _. simpl. by case_bool_decide.
Qed.

Lemma pop_keys key table table' :
  pop key table = Ok table' ->
  forall k, k ∈ table'.*1 <-> k ∈ table.*1 /\ k <> key.
Proof.
  unfold pop. case_bool_decide; [|done]. intros [= <-] k.
  rewrite !list_elem_of_fmap. split.
  - intros ([k' v] & -> & [Hne Hin]%list_elem_of_filter). simpl in *.
    split; [|done]. by exists (k', v).
  - intros [([k' v] & -> & Hin) Hne]. exists (k', v). split; [done|].
    by apply list_elem_of_filter.
Qed.

(** The stable sort gives the same objects, in ascending priority. *)
Lemma insert_by_priority_perm x l : insert_by_priority x l ≡ₚ x :: l.
Proof.
  induction l as [|y l IH]; [done|]. simpl. case_bool_decide; [done|].
  rewrite IH. apply Permutation_swap.
Qed.

Lemma sort_by_priority_perm l : sort_by_priority l ≡ₚ l.
Proof.
  induction l as [|x l IH]; [done|]. simpl.
  by rewrite insert_by_priority_perm, IH.
Qed.

Lemma insert_by_priority_sorted x l :
  Sorted by_priority l -> Sorted by_priority (insert_by_priority x l).
Proof.
  induction 1 as [|y l Hs IH Hhd]; simpl; [by repeat constructor|].
  case_bool_decide as Hle.
  - by repeat constructor.
  - constructor; [done|].
    destruct l as [|z l]; simpl in *.
    + constructor. unfold by_priority. lia.
    + case_bool_decide; constructor; unfold by_priority in *; try lia.
      by inversion Hhd.
Qed.

Lemma sort_by_priority_sorted l : Sorted by_priority (sort_by_priority l).
Proof.
  induction l as [|x l IH]; simpl; [constructor|].
  by apply insert_by_priority_sorted.
Qed.

Lemma matched_ids_app c1 c2 :
  matched_ids (c1 ++ c2) = matched_ids c1 ++ matched_ids c2.
Proof. apply omap_app. Qed.

Lemma matched_ids_callbacks cbs : matched_ids (tri_callback <$> cbs) = [].
Proof. induction cbs as [|c cbs IH]; [done|]. exact IH. Qed.

Lemma fires_eq t line t' st cbs :
  do_match t line true = Ok (t', st, cbs) ->
  fires t line = bool_decide (state_result st = SUCCESS).
Proof. unfold fires. by intros ->. Qed.

(** The loop over the candidates: it evaluates them in order up to and
    including the first one that fires without [keepEval], and removes
    from the table the evaluated ones that fired and are one-shot. *)
Lemma dispatch_prefix raw_line tri_line : forall all_tris table,
  (forall kv, kv ∈ all_tris ->
     is_ok (do_match kv.2 (line_for kv.2 raw_line tri_line) true) = true) ->
  Forall (fun kv => kv.1 = id kv.2) all_tris ->
  NoDup all_tris.*1 ->
  (forall k, k ∈ all_tris.*1 -> k ∈ table.*1) ->
  exists table' calls before after,
    dispatch table all_tris raw_line tri_line = Ok (table', calls)
    /\ all_tris = before ++ after
    /\ Forall (fun kv => stops kv.2 (line_for kv.2 raw_line tri_line) = false)
              before
    /\ (forall kv, head after = Some kv ->
          stops kv.2 (line_for kv.2 raw_line tri_line) = true)
    /\ matched_ids calls = (fun kv => id kv.2) <$> (before ++ take 1 after)
    /\ (forall k, k ∈ table'.*1 <->
          k ∈ table.*1 /\
          ~ exists kv, kv ∈ before ++ take 1 after /\ id kv.2 = k
                       /\ fires kv.2 (line_for kv.2 raw_line tri_line) = true
                       /\ oneShot kv.2 = true).
Proof.
  induction all_tris as [|[key tri] rest IH]; intros table Hok Hid Hnd Hin.
  { exists table, [], [], []. split_and!; try done.
    intros k. split; [intros Hk; split; [done|]|by intros [? _]].
    intros (kv & Hkv & _). by apply elem_of_nil in Hkv. }
  apply Forall_cons in Hid as [Hkey Hid]. simpl in Hkey. subst key.
  apply NoDup_cons in Hnd as [Hfresh Hnd]. simpl in Hfresh.
  set (line := line_for tri raw_line tri_line).
  pose proof (Hok (id tri, tri) ltac:(left)) as Hm. simpl in Hm.
  fold line in Hm.
  destruct (do_match tri line true) as [[[tri' st] cbs]|e] eqn:Ematch; [|done].
  clear Hm. pose proof (fires_eq _ _ _ _ _ Ematch) as Hfires.
  destruct (do_match_preserves _ _ _ _ _ _ Ematch) as (Hid' & Hone & Hkeep & _).
  assert (Hrest_ok : forall kv, kv ∈ rest ->
            is_ok (do_match kv.2 (line_for kv.2 raw_line tri_line) true) = true).
  { intros kv Hkv. apply Hok. by right. }
  set (table0 := update_object (id tri) tri' table).
  assert (Hkeys0 : table0.*1 = table.*1) by apply update_object_keys.
  assert (Hpop : exists table1,
            (if oneShot tri' then pop (id tri') table0 else Ok table0) = Ok table1
            /\ forall k, k ∈ table1.*1 <->
                  k ∈ table.*1 /\ ~ (oneShot tri = true /\ k = id tri)).
  { rewrite Hone, Hid'. destruct (oneShot tri).
    - unfold pop. rewrite bool_decide_eq_true_2.
      2:{ rewrite Hkeys0. apply Hin. by left. }
      eexists. split; [done|]. intros k.
      rewrite (pop_keys (id tri) table0 _); [|unfold pop;
        rewrite bool_decide_eq_true_2; [done|rewrite Hkeys0; apply Hin; by left]].
      rewrite Hkeys0. split; [intros [? ?]; split; [done|by intros [_ ?]]|].
      intros [? Hn]. split; [done|]. intros ->. by apply Hn.
    - exists table0. split; [done|]. intros k. rewrite Hkeys0.
      split; [intros ?; split; [done|by intros [? _]]|by intros [? _]]. }
  destruct Hpop as (table1 & Epop & Hkeys1).
  assert (Hrest_in : forall k, k ∈ rest.*1 -> k ∈ table1.*1).
  { intros k Hk. apply Hkeys1. split; [apply Hin; by right|].
    intros [_ ->]. done. }
  assert (Hrest_in0 : forall k, k ∈ rest.*1 -> k ∈ table0.*1).
  { intros k Hk. rewrite Hkeys0. apply Hin. by right. }
  cbn [dispatch]. change (if raw tri then raw_line else tri_line) with line.
  rewrite Ematch. cbn [mbind result_bind]. fold table0.
  destruct (bool_decide (state_result st = SUCCESS)) eqn:Hs.
  - rewrite Epop. cbn [mbind result_bind]. rewrite Hkeep.
    destruct (keepEval tri) eqn:Ekeep; cbn [negb].
    + destruct (IH table1 Hrest_ok Hid Hnd Hrest_in)
        as (table' & calls & before & after & -> & -> & Hbefore & Hafter
            & Hids & Hkeys).
      cbn [mbind result_bind].
      exists table', (tri_match (id tri) line :: (tri_callback <$> cbs) ++ calls),
        ((id tri, tri) :: before), after.
      split_and!; try done.
      * constructor; [|done]. unfold stops. simpl. fold line.
        by rewrite Ekeep, andb_false_r.
      * change (tri_match (id tri) line :: (tri_callback <$> cbs) ++ calls)
          with ([tri_match (id tri) line] ++ (tri_callback <$> cbs) ++ calls).
        by rewrite !matched_ids_app, matched_ids_callbacks, Hids.
      * intros k. rewrite Hkeys, Hkeys1. split.
        -- intros [[Hk Hnot1] Hnot2]. split; [done|].
           intros (kv & [->|Hkv]%elem_of_cons & Hkid & Hf & Ho).
           ++ simpl in *. by apply Hnot1.
           ++ apply Hnot2. by exists kv.
        -- intros [Hk Hnot]. split_and!; [done| |].
           ++ intros [Ho ->]. apply Hnot. exists (id tri, tri). simpl.
              fold line. rewrite Hfires. split_and!; try done. by left.
           ++ intros (kv & Hkv & ?). apply Hnot. exists kv.
              split; [by right|done].
    + exists table1, (tri_match (id tri) line :: (tri_callback <$> cbs)),
        [], ((id tri, tri) :: rest).
      split_and!; try done.
      * intros kv [= <-]. unfold stops. simpl. fold line.
        by rewrite Hfires, Ekeep.
      * change (tri_match (id tri) line :: (tri_callback <$> cbs))
          with ([tri_match (id tri) line] ++ (tri_callback <$> cbs)).
        by rewrite matched_ids_app, matched_ids_callbacks.
      * intros k. rewrite Hkeys1. simpl. split.
        -- intros [Hk Hnot]. split; [done|].
           intros (kv & ->%list_elem_of_singleton & Hkid & Hf & Ho).
           simpl in *. by apply Hnot.
        -- intros [Hk Hnot]. split; [done|]. intros [Ho ->].
           apply Hnot. exists (id tri, tri). simpl. fold line.
           rewrite Hfires. split_and!; try done.
           by apply list_elem_of_singleton.
  - destruct (IH table0 Hrest_ok Hid Hnd Hrest_in0)
      as (table' & calls & before & after & -> & -> & Hbefore & Hafter
          & Hids & Hkeys).
    cbn [mbind result_bind].
    exists table', (tri_match (id tri) line :: (tri_callback <$> cbs) ++ calls),
      ((id tri, tri) :: before), after.
    split_and!; try done.
    * constructor; [|done]. unfold stops. simpl. fold line.
      by rewrite Hfires.
    * change (tri_match (id tri) line :: (tri_callback <$> cbs) ++ calls)
        with ([tri_match (id tri) line] ++ (tri_callback <$> cbs) ++ calls).
      by rewrite !matched_ids_app, matched_ids_callbacks, Hids.
    * intros k. rewrite Hkeys, Hkeys0. split.
      -- intros [Hk Hnot2]. split; [done|].
         intros (kv & [->|Hkv]%elem_of_cons & Hkid & Hf & Ho).
         ++ simpl in Hf. fold line in Hf. by rewrite Hfires in Hf.
         ++ apply Hnot2. by exists kv.
      -- intros [Hk Hnot]. split; [done|].
         intros (kv & Hkv & ?). apply Hnot. exists kv.
         split; [by right|done].
Qed.

Lemma candidates_keyed table :
  keyed_by_id table ->
  let cands := sort_by_priority (filter (fun kv => enabled kv.2 = true) table) in
  Forall (fun kv => kv.1 = id kv.2) cands
  /\ NoDup cands.*1
  /\ (forall k, k ∈ cands.*1 -> k ∈ table.*1).
Proof.
  intros [Hnd Hid] cands. subst cands.
  pose proof (sort_by_priority_perm
                (filter (fun kv => enabled kv.2 = true) table)) as Hperm.
  pose proof (sublist_filter (fun kv : string * MatchObject => enabled kv.2 = true)
                table) as Hsub.
  split_and!.
  - rewrite Hperm. apply Forall_forall. intros kv [_ Hkv]%list_elem_of_filter.
    by apply (proj1 (Forall_forall _ _) Hid).
  - rewrite Hperm. eapply sublist_NoDup; [exact Hnd|]. by apply fmap_sublist.
  - intros k. rewrite Hperm. intros Hk.
    eapply elem_of_sublist; [exact Hk|]. by apply fmap_sublist.
Qed.

Lemma go_ahead_calls_ids mxp raw_line calls :
  matched_ids
    ((if mxp : bool then
        if bool_decide (raw_line = mxp_support)
        then [write mxp_supports] else [warning]
      else [])
     ++ calls
     ++ (if bool_decide (0 < String.length raw_line)
         then [clear_half; writetobuffer raw_line] else []))
  = matched_ids calls
  /\ callbacks
       ((if mxp : bool then
           if bool_decide (raw_line = mxp_support)
           then [write mxp_supports] else [warning]
         else [])
        ++ calls
        ++ (if bool_decide (0 < String.length raw_line)
            then [clear_half; writetobuffer raw_line] else []))
     = callbacks calls.
Proof.
  unfold matched_ids, callbacks. rewrite !omap_app.
  destruct mxp; repeat case_bool_decide; simpl; by rewrite !app_nil_r.
Qed.

(** C6, as amended.  While the session does not ignore triggers
    ([_ignore] is off), for a line that decodes and a trigger table keyed
    by identifier whose enabled triggers match without raising,
    [go_ahead] returns normally.  The candidates are the enabled
    triggers in ascending priority; they are evaluated in this order, up
    to and including the first that fires without [keepEval], and no
    further.  Every evaluated trigger that fired and is one-shot is gone
    from the table afterwards, and every other key is still there.  For
    two enabled triggers of priorities 10 and 50 that both match the line,
    neither with [keepEval], only the first is evaluated, and the
    callbacks called are those of its [match].  While the session
    ignores triggers ([_ignore] is on), [go_ahead] on a line that decodes
    returns normally without a call of [match] and without a callback,
    whatever the triggers are, and leaves the trigger table as it was. *)
Theorem triggers_evaluated_by_priority :
  (forall decode strip_escapes mxp s raw_line,
     decode (_line_buffer s) = Ok raw_line ->
     _ignore s = false ->
     keyed_by_id (_triggers s) ->
     let tri_line := getPlainText strip_escapes raw_line true in
     (forall kv, kv ∈ _triggers s -> enabled kv.2 = true ->
        is_ok (do_match kv.2 (line_for kv.2 raw_line tri_line) true) = true) ->
     exists s' calls before after,
       go_ahead decode strip_escapes mxp s = Ok (s', calls)
       /\ before ++ after ≡ₚ filter (fun kv => enabled kv.2 = true) (_triggers s)
       /\ Sorted by_priority (before ++ after)
       /\ Forall (fun kv => stops kv.2 (line_for kv.2 raw_line tri_line) = false)
                 before
       /\ (forall kv, head after = Some kv ->
             stops kv.2 (line_for kv.2 raw_line tri_line) = true)
       /\ matched_ids calls = (fun kv => id kv.2) <$> (before ++ take 1 after)
       /\ (forall k, k ∈ (_triggers s').*1 <->
             k ∈ (_triggers s).*1 /\
             ~ exists kv, kv ∈ before ++ take 1 after /\ id kv.2 = k
                          /\ fires kv.2 (line_for kv.2 raw_line tri_line) = true
                          /\ oneShot kv.2 = true))
  /\ (forall decode strip_escapes mxp s raw_line a b,
        decode (_line_buffer s) = Ok raw_line ->
        _ignore s = false ->
        _triggers s = [(id a, a); (id b, b)]
        \/ _triggers s = [(id b, b); (id a, a)] ->
        id a <> id b ->
        enabled a = true -> enabled b = true ->
        priority a = 10%Z -> priority b = 50%Z ->
        keepEval a = false -> keepEval b = false ->
        let tri_line := getPlainText strip_escapes raw_line true in
        fires a (line_for a raw_line tri_line) = true ->
        fires b (line_for b raw_line tri_line) = true ->
        exists s' calls a' st cbs,
          go_ahead decode strip_escapes mxp s = Ok (s', calls)
          /\ do_match a (line_for a raw_line tri_line) true = Ok (a', st, cbs)
          /\ matched_ids calls = [id a]
          /\ callbacks calls = cbs
          /\ cbs = (if sync a
                    then [onSuccess (id a) (state_line st) (state_wildcards st)]
                    else []))
  /\ (forall decode strip_escapes mxp s raw_line,
        decode (_line_buffer s) = Ok raw_line ->
        _ignore s = true ->
        exists s' calls,
          go_ahead decode strip_escapes mxp s = Ok (s', calls)
          /\ matched_ids calls = []
          /\ callbacks calls = []
          /\ _triggers s' = _triggers s).
Proof.
  split; [|split].
  - intros decode strip_escapes mxp s raw_line Hdec Hign Hkeyed tri_line Hok.
    destruct (candidates_keyed _ Hkeyed) as (Hid & Hnd & Hin).
    set (cands := sort_by_priority
                    (filter (fun kv => enabled kv.2 = true) (_triggers s))) in *.
    assert (Hperm : cands ≡ₚ filter (fun kv => enabled kv.2 = true) (_triggers s))
      by apply sort_by_priority_perm.
    assert (Hok' : forall kv, kv ∈ cands ->
              is_ok (do_match kv.2 (line_for kv.2 raw_line tri_line) true) = true).
    { intros kv Hkv. rewrite Hperm in Hkv.
      apply list_elem_of_filter in Hkv as [Hen Hkv]. by apply Hok. }
    destruct (dispatch_prefix raw_line tri_line cands (_triggers s)
                Hok' Hid Hnd Hin)
      as (table' & calls & before & after & Hd & Hc & Hb & Ha & Hids & Hkeys).
    unfold go_ahead. rewrite Hdec, Hign. cbn [mbind result_bind negb].
    fold tri_line. fold cands. rewrite Hd. cbn [mbind result_bind].
    eexists _, _, before, after. split; [reflexivity|].
    rewrite <- Hc. split_and!; try done.
    + apply sort_by_priority_sorted.
    + by rewrite (proj1 (go_ahead_calls_ids _ _ _)).
  - intros decode strip_escapes mxp s raw_line a b Hdec Hign Htab Hne
      Hea Heb Hpa Hpb Hka Hkb tri_line Hfa Hfb.
    set (la := line_for a raw_line tri_line) in *.
    unfold fires in Hfa.
    destruct (do_match a la true) as [[[a' st] cbs]|e] eqn:Ea; [|done].
    apply bool_decide_eq_true in Hfa.
    destruct (do_match_preserves _ _ _ _ _ _ Ea) as (Hid' & Hone & Hkeep & _).
    assert (Hcands : sort_by_priority
                       (filter (fun kv => enabled kv.2 = true) (_triggers s))
                     = [(id a, a); (id b, b)]).
    { destruct Htab as [-> | ->]; rewrite !filter_cons; simpl;
        rewrite Hea, Heb; simpl; rewrite Hpa, Hpb; done. }
    assert (Hcbs : cbs = if sync a
                         then [onSuccess (id a) (state_line st) (state_wildcards st)]
                         else []).
    { unfold do_match in Ea. destruct (match_line a la) as [m|]; [|done].
      simpl in Ea. injection Ea as _ <- <-. simpl in Hfa. rewrite Hfa.
      simpl. by destruct (sync a). }
    unfold go_ahead. rewrite Hdec, Hign. cbn [mbind result_bind negb].
    fold tri_line. rewrite Hcands. cbn [dispatch].
    change (if raw a then raw_line else tri_line) with la.
    rewrite Ea. cbn [mbind result_bind].
    rewrite (bool_decide_eq_true_2 (state_result st = SUCCESS)) by done.
    rewrite Hone, Hid', Hkeep, Hka.
    assert (Hpop : exists table1,
              (if oneShot a
               then pop (id a) (update_object (id a) a' (_triggers s))
               else Ok (update_object (id a) a' (_triggers s))) = Ok table1).
    { destruct (oneShot a); [|by eexists]. unfold pop.
      rewrite bool_decide_eq_true_2; [by eexists|].
      rewrite update_object_keys.
      destruct Htab as [-> | ->]; simpl; set_solver. }
    destruct Hpop as (table1 & ->). cbn [mbind result_bind negb].
    eexists _, _, a', st, cbs. split; [reflexivity|]. split; [done|].
    destruct (go_ahead_calls_ids mxp raw_line
                (tri_match (id a) la :: (tri_callback <$> cbs))) as [-> ->].
    split_and!; [| |done].
    + change (tri_match (id a) la :: (tri_callback <$> cbs))
        with ([tri_match (id a) la] ++ (tri_callback <$> cbs)).
      by rewrite matched_ids_app, matched_ids_callbacks.
    + change (callbacks (tri_match (id a) la :: (tri_callback <$> cbs)))
        with (callbacks (tri_callback <$> cbs)).
      clear. induction cbs as [|c cbs IH]; [done|].
      change (callbacks (tri_callback <$> c :: cbs))
        with (c :: callbacks (tri_callback <$> cbs)).
      by rewrite IH.
  - intros decode strip_escapes mxp s raw_line Hdec Hign.
    unfold go_ahead. rewrite Hdec, Hign. cbn [mbind result_bind negb].
    eexists _, _. split; [reflexivity|].
    destruct (go_ahead_calls_ids mxp raw_line []) as [-> ->]. done.
Qed.

Lemma triggers_evaluated_by_priority_witness :
  let tri (i : string) (p : Z) (pat : string) (one : bool) :=
    mkMatchObject i true p true one true false false (one_line pat) false 1
                  (Some (literal_regex pat)) None None [] [] false None in
  let t50 := tri "late"%string 50%Z "You"%string false in
  let t10 := tri "early"%string 10%Z "You w"%string true in
  let t5 := tri "other"%string 5%Z "zzz"%string false in
  let s := mkSession (list_byte_of_string "You win") false
             [("late"%string, t50); ("early"%string, t10); ("other"%string, t5)]
             ∅ "" in
  let decode := fun b : list byte => Ok (string_of_list_byte b) in
  let strip := fun x : string => x in
  keyed_by_id (_triggers s)
  /\ exists s' calls before after,
       go_ahead decode strip false s = Ok (s', calls)
       /\ Sorted by_priority (before ++ after)
       /\ matched_ids calls = (fun kv => id kv.2) <$> (before ++ take 1 after)
       /\ matched_ids calls = ["other"; "early"]%string
       /\ (_triggers s').*1 = ["late"; "other"]%string
       /\ exists s'' calls',
            go_ahead decode strip false
              (mkSession (_line_buffer s) true (_triggers s) ∅ "")
            = Ok (s'', calls')
            /\ matched_ids calls' = []
            /\ _triggers s'' = _triggers s.
Proof.
  intros tri t50 t10 t5 s decode strip.
  assert (Hkeyed : keyed_by_id (_triggers s)).
  { split; [|by repeat constructor].
    compute_done. }
  split; [exact Hkeyed|].
  assert (Hok : forall kv, kv ∈ _triggers s -> enabled kv.2 = true ->
            is_ok (do_match kv.2
                     (line_for kv.2 "You win" (getPlainText strip "You win" true))
                     true) = true).
  { intros kv Hkv _. simpl in Hkv.
    repeat (apply elem_of_cons in Hkv as [->|Hkv]; [by vm_compute|]).
    by apply elem_of_nil in Hkv. }
  destruct (proj1 triggers_evaluated_by_priority decode strip false s
              "You win"%string eq_refl eq_refl Hkeyed Hok)
    as (s' & calls & before & after & Hgo & _ & Hsorted & _ & _ & Hids & _).
  exists s', calls, before, after. split; [exact Hgo|].
  split; [exact Hsorted|]. split; [exact Hids|].
  assert (Hrun : exists s0 c0, go_ahead decode strip false s = Ok (s0, c0)
                   /\ matched_ids c0 = ["other"; "early"]%string
                   /\ (_triggers s0).*1 = ["late"; "other"]%string).
  { vm_compute. eexists _, _. split; [reflexivity|]. by split. }
  destruct Hrun as (s0 & c0 & Hgo0 & Hm0 & Hk0).
  rewrite Hgo in Hgo0. injection Hgo0 as <- <-.
  split; [exact Hm0|]. split; [exact Hk0|].
  destruct (proj2 (proj2 triggers_evaluated_by_priority) decode strip false
              (mkSession (_line_buffer s) true (_triggers s) ∅ "")
              "You win"%string eq_refl eq_refl)
    as (s'' & calls' & Hgo' & Hids' & _ & Htab').
  by exists s'', calls'.
Defined.

(** C6 as stated fails while the session ignores triggers: an enabled
    trigger that matches the line is not evaluated. *)
Lemma ignored_line_not_dispatched :
  ~ (forall decode strip_escapes mxp s raw_line t,
       decode (_line_buffer s) = Ok raw_line ->
       _triggers s = [(id t, t)] ->
       enabled t = true ->
       fires t (line_for t raw_line (getPlainText strip_escapes raw_line true))
         = true ->
       exists s' calls,
         go_ahead decode strip_escapes mxp s = Ok (s', calls)
         /\ matched_ids calls = [id t]).
Proof.
  intros H.
  set (t := mkMatchObject "greet" true 100%Z true true true false false
              (one_line "You") false 1 (Some (literal_regex "You")) None None
              [] [] false None).
  destruct (H (fun b => Ok (string_of_list_byte b)) (fun x => x) false
              (mkSession (list_byte_of_string "You win") true
                         [("greet"%string, t)] ∅ "")
              "You win"%string t eq_refl eq_refl eq_refl eq_refl)
    as (s' & calls & Hgo & Hids).
  vm_compute in Hgo. injection Hgo as <- <-. discriminate Hids.
Qed.

End Dispatch.

(** ** Retries of a command *)

Section Retry.
Import Objects Command.

Lemma written_app c1 c2 : written (c1 ++ c2) = written c1 ++ written c2.
Proof. apply omap_app. Qed.

Lemma written_start_race self cmd :
  written (start_race self cmd ++ [cancel_pending]) = [cmd].
Proof.
  unfold start_race. rewrite !written_app. simpl.
  induction (_succ_tris self ++ _fail_tris self ++ _retry_tris self)
    as [|i l IH]; [done|].
  exact IH.
Qed.

(** A pass of the loop that a retry trigger wins, below the bound: one
    more write, one more retry counted, and the loop goes on. *)
Lemma retry_pass self cmd rid st races r last :
  rid ∈ _retry_tris self -> rid ∉ _succ_tris self -> rid ∉ _fail_tris self ->
  state_id st = rid ->
  r + 1 <= MAX_RETRY ->
  execute_loop self cmd (first_done st :: races) r last =
  match execute_loop self cmd races (r + 1) (Some st) with
  | Some (Ok (res, last', calls')) =>
      Some (Ok (res, last',
                (start_race self cmd ++ [cancel_pending]) ++ [sleep 2000] ++ calls'))
  | other => other
  end.
Proof.
  intros Hr Hs Hf Hid Hle. cbn [execute_loop].
  rewrite bool_decide_eq_false_2.
  2:{ intros Hnil. apply app_eq_nil in Hnil as [_ Hnil].
      apply app_eq_nil in Hnil as [_ Hnil]. rewrite Hnil in Hr.
      by apply elem_of_nil in Hr. }
  rewrite Hid.
  rewrite (bool_decide_eq_false_2 (rid ∈ _succ_tris self)) by done.
  rewrite (bool_decide_eq_false_2 (rid ∈ _fail_tris self)) by done.
  rewrite (bool_decide_eq_true_2 (rid ∈ _retry_tris self)) by done.
  rewrite bool_decide_eq_false_2 by lia. done.
Qed.

Lemma retry_passes self cmd rid retries : forall r last tail res last' calls',
  rid ∈ _retry_tris self -> rid ∉ _succ_tris self -> rid ∉ _fail_tris self ->
  Forall (won_by rid) retries ->
  r + length retries <= MAX_RETRY ->
  (forall last0, execute_loop self cmd tail (r + length retries) last0
                 = Some (Ok (res, last', calls'))) ->
  exists calls,
    execute_loop self cmd (retries ++ tail) r last = Some (Ok (res, last', calls))
    /\ written calls = replicate (length retries) cmd ++ written calls'.
Proof.
  induction retries as [|x retries IH];
    intros r last tail res last' calls' Hr Hs Hf Hwon Hle Htail.
  - simpl in *. rewrite Nat.add_0_r in Htail. exists calls'. by rewrite Htail.
  - apply Forall_cons in Hwon as [(st & -> & Hid) Hwon]. simpl in Hle.
    change ((first_done st :: retries) ++ tail)
      with (first_done st :: (retries ++ tail)).
    rewrite (retry_pass self cmd rid) by (done || lia).
    destruct (IH (r + 1) (Some st) tail res last' calls' Hr Hs Hf Hwon
                ltac:(lia)) as (calls & -> & Hw).
    { intros last0. rewrite <- Htail with (last0 := last0). f_equal.
      simpl. lia. }
    eexists. split; [done|].
    rewrite (written_app (start_race self cmd ++ [cancel_pending])),
      written_start_race, written_app, Hw. done.
Qed.

Lemma exhausted_pass self cmd rid st races r last :
  rid ∈ _retry_tris self -> rid ∉ _succ_tris self -> rid ∉ _fail_tris self ->
  state_id st = rid ->
  MAX_RETRY < r + 1 ->
  execute_loop self cmd (first_done st :: races) r last =
  Some (Ok (FAILURE, Some st, start_race self cmd ++ [cancel_pending])).
Proof.
  intros Hr Hs Hf Hid Hlt. cbn [execute_loop].
  rewrite bool_decide_eq_false_2.
  2:{ intros Hnil. apply app_eq_nil in Hnil as [_ Hnil].
      apply app_eq_nil in Hnil as [_ Hnil]. rewrite Hnil in Hr.
      by apply elem_of_nil in Hr. }
  rewrite Hid.
  rewrite (bool_decide_eq_false_2 (rid ∈ _succ_tris self)) by done.
  rewrite (bool_decide_eq_false_2 (rid ∈ _fail_tris self)) by done.
  rewrite (bool_decide_eq_true_2 (rid ∈ _retry_tris self)) by done.
  by rewrite bool_decide_eq_true_2 by lia.
Qed.

Lemma success_pass self cmd sid st races r last :
  sid ∈ _succ_tris self ->
  state_id st = sid ->
  execute_loop self cmd (first_done st :: races) r last =
  Some (Ok (SUCCESS, Some st, start_race self cmd ++ [cancel_pending])).
Proof.
  intros Hs Hid. cbn [execute_loop].
  rewrite bool_decide_eq_false_2.
  2:{ intros Hnil. apply app_eq_nil in Hnil as [Hnil _]. rewrite Hnil in Hs.
      by apply elem_of_nil in Hs. }
  rewrite Hid. by rewrite (bool_decide_eq_true_2 (sid ∈ _succ_tris self)).
Qed.

Lemma written_execute self cmd kw races res st calls :
  execute_loop
    (mkSimpleCommand (cmd_id self) (cmd_patterns self) (timeout self)
       (_succ_tris self) (_fail_tris self) (_retry_tris self)
       (if bool_decide (cmd <> ""%string) then cmd else cmd_patterns self))
    (if bool_decide (cmd <> ""%string) then cmd else cmd_patterns self)
    races 0 None = Some (Ok (res, Some st, calls)) ->
  exists self' calls',
    execute self cmd kw races = Some (Ok (self', res, calls'))
    /\ written calls' = written calls
    /\ (res = SUCCESS ->
        call_onSuccess false (cmd_id self)
          (if bool_decide (cmd <> ""%string) then cmd else cmd_patterns self)
          (state_line st) (state_wildcards st) ∈ calls')
    /\ (res = FAILURE ->
        call_onFailure false (cmd_id self)
          (if bool_decide (cmd <> ""%string) then cmd else cmd_patterns self)
          (state_line st) (state_wildcards st) ∈ calls').
Proof.
  intros Hloop. unfold execute. rewrite Hloop.
  eexists _, _. split; [reflexivity|]. split_and!.
  - match goal with
    | |- written (reset_command :: calls ++ ?after) = _ =>
        change (written (reset_command :: calls ++ after))
          with (written (calls ++ after));
        rewrite written_app
    end.
    destruct res, kw as [[] [] []]; simpl; by rewrite app_nil_r.
  - intros ->. right. apply elem_of_app. right. by left.
  - intros ->. right. apply elem_of_app. right. by left.
Qed.

(** C5.  A [SimpleCommand] with one success trigger and one retry trigger.
    Every race won by the retry trigger counts one retry, and the command
    text is written once per race.  As long as at most [MAX_RETRY = 20]
    races were won by the retry trigger, a race won by the success trigger
    ends [execute] with SUCCESS; in particular success on the fifth
    attempt gives SUCCESS with exactly five writes of the command text.
    The twenty-first race won by the retry trigger ends [execute] with
    FAILURE. *)
Theorem retry_bounded_by_max_retry self cmd kw sid rid :
  _succ_tris self = [sid] ->
  _retry_tris self = [rid] ->
  _fail_tris self = [] ->
  sid <> rid ->
  let text := if bool_decide (cmd <> ""%string) then cmd else cmd_patterns self in
  MAX_RETRY = 20
  /\ (forall retries st more,
        Forall (won_by rid) retries -> length retries <= MAX_RETRY ->
        state_id st = sid ->
        exists self' calls,
          execute self cmd kw (retries ++ first_done st :: more)
          = Some (Ok (self', SUCCESS, calls))
          /\ written calls = replicate (length retries + 1) text
          /\ call_onSuccess false (cmd_id self) text
               (state_line st) (state_wildcards st) ∈ calls)
  /\ (forall retries st more,
        Forall (won_by rid) retries -> length retries = 4 ->
        state_id st = sid ->
        exists self' calls,
          execute self cmd kw (retries ++ first_done st :: more)
          = Some (Ok (self', SUCCESS, calls))
          /\ written calls = [text; text; text; text; text])
  /\ (forall retries more,
        Forall (won_by rid) retries -> length retries = 21 ->
        exists self' calls line wildcards,
          execute self cmd kw (retries ++ more)
          = Some (Ok (self', FAILURE, calls))
          /\ written calls = replicate 21 text
          /\ call_onFailure false (cmd_id self) text line wildcards ∈ calls).
Proof.
  intros Hsucc Hretry Hfail Hne text.
  set (self' := mkSimpleCommand (cmd_id self) (cmd_patterns self) (timeout self)
                  (_succ_tris self) (_fail_tris self) (_retry_tris self) text).
  assert (Hr : rid ∈ _retry_tris self') by (simpl; rewrite Hretry; by left).
  assert (Hs : rid ∉ _succ_tris self').
  { simpl. rewrite Hsucc. by intros ->%list_elem_of_singleton. }
  assert (Hf : rid ∉ _fail_tris self').
  { simpl. rewrite Hfail. apply not_elem_of_nil. }
  assert (Hsid : sid ∈ _succ_tris self') by (simpl; rewrite Hsucc; by left).
  assert (Hgen : forall retries st more,
            Forall (won_by rid) retries -> length retries <= MAX_RETRY ->
            state_id st = sid ->
            exists self' calls,
              execute self cmd kw (retries ++ first_done st :: more)
              = Some (Ok (self', SUCCESS, calls))
              /\ written calls = replicate (length retries + 1) text
              /\ call_onSuccess false (cmd_id self) text
                   (state_line st) (state_wildcards st) ∈ calls).
  { intros retries st more Hwon Hlen Hst.
    destruct (retry_passes self' text rid retries 0 None
                (first_done st :: more) SUCCESS (Some st)
                (start_race self' text ++ [cancel_pending])
                Hr Hs Hf Hwon ltac:(simpl; lia))
      as (calls & Hloop & Hw).
    { intros last0. by apply (success_pass self' text sid). }
    destruct (written_execute self cmd kw _ _ _ _ Hloop)
      as (s1 & calls1 & Hex & Hw1 & Hcb & _).
    exists s1, calls1. split; [done|]. split; [|by apply Hcb].
    rewrite Hw1, Hw, written_start_race.
    by rewrite replicate_add. }
  split_and!; [done|exact Hgen| |].
  - intros retries st more Hwon Hlen Hst.
    destruct (Hgen retries st more Hwon ltac:(unfold MAX_RETRY; lia) Hst)
      as (s1 & calls1 & Hex & Hw & _).
    exists s1, calls1. split; [done|]. by rewrite Hw, Hlen.
  - intros retries more Hwon Hlen.
    destruct (decide (retries = [])) as [->|Hnil]; [done|].
    destruct (exists_last Hnil) as (front & x & ->).
    rewrite length_app in Hlen. simpl in Hlen.
    apply Forall_app in Hwon as [Hfront Hx].
    apply Forall_singleton in Hx as (st & -> & Hid).
    rewrite <- app_assoc. simpl.
    destruct (retry_passes self' text rid front 0 None
                (first_done st :: more) FAILURE (Some st)
                (start_race self' text ++ [cancel_pending])
                Hr Hs Hf Hfront ltac:(unfold MAX_RETRY; simpl; lia))
      as (calls & Hloop & Hw).
    { intros last0. apply (exhausted_pass self' text rid); try done.
      unfold MAX_RETRY. simpl. lia. }
    destruct (written_execute self cmd kw _ _ _ _ Hloop)
      as (s1 & calls1 & Hex & Hw1 & _ & Hcb).
    exists s1, calls1, (state_line st), (state_wildcards st).
    split; [done|]. split; [|by apply Hcb].
    rewrite Hw1, Hw, written_start_race.
    by replace (length front) with 20 by lia.
Qed.

Lemma retry_bounded_by_max_retry_witness :
  let self := mkSimpleCommand "cmd_walk" "walk north" 10
                ["tri_walked"]%string [] ["tri_busy"]%string "" in
  let busy := first_done (mkState SUCCESS "tri_busy" "You are busy now." []) in
  let walked := first_done (mkState SUCCESS "tri_walked" "You walk north." []) in
  (exists self' calls,
     execute self "" (mkOuter false false false)
       [busy; busy; busy; busy; walked]
     = Some (Ok (self', SUCCESS, calls))
     /\ written calls = replicate 5 "walk north"%string)
  /\ (exists self' calls,
        execute self "" (mkOuter false false false) (replicate 21 busy)
        = Some (Ok (self', FAILURE, calls))
        /\ written calls = replicate 21 "walk north"%string).
Proof.
  intros self busy walked.
  destruct (retry_bounded_by_max_retry self ""%string (mkOuter false false false)
              "tri_walked"%string "tri_busy"%string
              eq_refl eq_refl eq_refl ltac:(discriminate))
    as (_ & Hsucc & _ & Hfail).
  assert (Hbusy : forall n, Forall (won_by "tri_busy") (replicate n busy)).
  { intros n. apply Forall_replicate. by eexists. }
  split.
  - destruct (Hsucc (replicate 4 busy)
                (mkState SUCCESS "tri_walked" "You walk north." []) []
                (Hbusy 4) ltac:(vm_compute; lia) eq_refl)
      as (s1 & calls & Hex & Hw & _).
    by exists s1, calls.
  - destruct (Hfail (replicate 21 busy) [] (Hbusy 21) eq_refl)
      as (s1 & calls & _ & _ & Hex & Hw & _).
    rewrite app_nil_r in Hex. by exists s1, calls.
Defined.

End Retry.

(** ** GMCP *)

Section GmcpProperties.
Import Gmcp.

Lemma chars_app (a b : string) :
  list_ascii_of_string (a +:+ b)
  = list_ascii_of_string a ++ list_ascii_of_string b.
Proof.
  induction a as [|c a IH]; [done|].
  change (list_ascii_of_string (String c a +:+ b))
    with (c :: list_ascii_of_string (a +:+ b)).
  by rewrite IH.
Qed.

Lemma chars_length (a : string) :
  length (list_ascii_of_string a) = String.length a.
Proof. induction a as [|c a IH]; [done|]. simpl. by rewrite IH. Qed.

Lemma find_space_split name rest :
  " "%char ∉ list_ascii_of_string name ->
  find_space (name +:+ String " " rest) = Z.of_nat (String.length name).
Proof.
  induction name as [|c name IH]; intros Hno.
  - done.
  - change (String c name +:+ String " " rest)
      with (String c (name +:+ String " " rest)).
    cbn [find_space list_ascii_of_string] in *.
    apply not_elem_of_cons in Hno as [Hc Hno].
    rewrite bool_decide_eq_false_2 by done.
    rewrite IH by done. rewrite bool_decide_eq_false_2 by lia.
    cbn [String.length]. lia.
Qed.

Lemma clamp_in_range len i :
  i <= len -> clamp len (Z.of_nat i) = i.
Proof.
  intros Hi. unfold clamp. rewrite bool_decide_eq_false_2 by lia. lia.
Qed.

Lemma slice_split name rest :
  slice_to (name +:+ String " " rest) (Z.of_nat (String.length name)) = name
  /\ slice_from (name +:+ String " " rest)
       (Z.of_nat (String.length name) + 1) = rest.
Proof.
  unfold slice_to, slice_from. rewrite chars_app.
  change (list_ascii_of_string (String " " rest))
    with (" "%char :: list_ascii_of_string rest).
  replace (Z.of_nat (String.length name) + 1)%Z
    with (Z.of_nat (S (String.length name))) by lia.
  rewrite !clamp_in_range
    by (rewrite length_app, chars_length; simpl; lia).
  rewrite <- chars_length. split.
  - by rewrite take_app_length, string_of_list_ascii_of_string.
  - change (list_ascii_of_string name ++ " "%char :: list_ascii_of_string rest)
      with (list_ascii_of_string name ++ [" "%char] ++ list_ascii_of_string rest).
    rewrite app_assoc.
    rewrite drop_app_length'
      by (rewrite length_app; simpl; lia).
    apply string_of_list_ascii_of_string.
Qed.

(** C3, as amended.  For a GMCP payload that decodes to a text with a
    space, the handler splits it at the first space into the name before
    it and the raw text after it, and passes both to [feed_gmcp]
    unchanged.  The trigger registered under the name keeps the raw text
    as its [line]; it evaluates the raw text with [eval] and keeps the
    result as its [value] (the raw text itself if [eval] raises); if its
    [onSuccess] is callable it is called with the identifier, the raw
    text and the evaluated value. *)
Theorem gmcp_value_raw_and_evaluated eval_other decode _gmcp data name raw trig :
  decode (Telnet.sb_payload data) = Ok (name +:+ String " " raw) ->
  " "%char ∉ list_ascii_of_string name ->
  _gmcp !! name = Some trig ->
  let value_exp :=
    match py_eval eval_other raw with Ok v => v | Raise _ => PStr raw end in
  handle_gmcp_sb eval_other decode _gmcp data
  = Ok (feed_gmcp eval_other _gmcp name raw)
  /\ exists trig',
       feed_gmcp eval_other _gmcp name raw
       = (<[name := trig']> _gmcp,
          if onSuccess_callable trig
          then [onSuccess (id trig) raw value_exp] else [])
       /\ id trig' = id trig
       /\ line trig' = Some raw
       /\ value trig' = value_exp
       /\ (is_decimal_literal raw = true ->
           value trig' = PInt (decimal_value raw))
       /\ (forall e, py_eval eval_other raw = Raise e -> value trig' = PStr raw).
Proof.
  intros Hdec Hname Htrig value_exp.
  unfold handle_gmcp_sb. rewrite Hdec. cbn [mbind result_bind].
  rewrite find_space_split by done.
  destruct (slice_split name raw) as [-> ->]. split; [done|].
  unfold feed_gmcp. rewrite Htrig. unfold GMCPTrigger_call. fold value_exp.
  destruct (onSuccess_callable trig); eexists; (split; [reflexivity|]);
    simpl; split_and!; try done.
  - intros Hlit. subst value_exp. unfold py_eval. by rewrite Hlit.
  - intros e He. subst value_exp. by rewrite He.
  - intros Hlit. subst value_exp. unfold py_eval. by rewrite Hlit.
  - intros e He. subst value_exp. by rewrite He.
Qed.

Lemma gmcp_value_raw_and_evaluated_witness :
  let data := [xff; xfa; xc9] ++ list_byte_of_string "Room.Num 12345"
              ++ [xff; xf0] in
  let trig := mkGMCPTrigger "Room.Num" None PNone false true in
  let _gmcp : gmap string GMCPTrigger := {[ "Room.Num"%string := trig ]} in
  let eval_other := fun _ : string => Raise TypeError in
  decode_ascii (Telnet.sb_payload data) = Ok "Room.Num 12345"%string
  /\ exists trig',
       feed_gmcp eval_other _gmcp "Room.Num" "12345"
       = (<["Room.Num"%string := trig']> _gmcp,
          [onSuccess "Room.Num" "12345" (PInt 12345)])
       /\ line trig' = Some "12345"%string
       /\ value trig' = PInt 12345.
Proof.
  intros data trig _gmcp eval_other.
  assert (Hdec : decode_ascii (Telnet.sb_payload data)
                 = Ok ("Room.Num" +:+ String " " "12345")%string)
    by (vm_compute; reflexivity).
  split; [exact Hdec|].
  assert (Hname : " "%char ∉ list_ascii_of_string "Room.Num").
  { intros H. repeat (apply elem_of_cons in H as [H|H]; [discriminate H|]).
    by apply elem_of_nil in H. }
  destruct (gmcp_value_raw_and_evaluated eval_other decode_ascii _gmcp data
              "Room.Num" "12345" trig Hdec Hname eq_refl)
    as (_ & trig' & Hfeed & _ & Hline & Hvalue & _).
  exists trig'. split; [exact Hfeed|]. split; [exact Hline | exact Hvalue].
Defined.

(** C3 as stated fails: the trigger evaluates the text it receives, and
    what it stores as its value is the result, here a number and not
    the text. *)
Lemma gmcp_value_is_evaluated :
  ~ (forall eval_other decode _gmcp data name raw trig table' calls,
       decode (Telnet.sb_payload data) = Ok (name +:+ String " " raw) ->
       " "%char ∉ list_ascii_of_string name ->
       _gmcp !! name = Some trig ->
       handle_gmcp_sb eval_other decode _gmcp data = Ok (table', calls) ->
       exists trig',
         table' !! name = Some trig' /\ value trig' = PStr raw).
Proof.
  intros H.
  set (trig := mkGMCPTrigger "Room.Num" None PNone false true).
  assert (Hname : " "%char ∉ list_ascii_of_string "Room.Num").
  { intros Hin. repeat (apply elem_of_cons in Hin as [Hin|Hin]; [discriminate Hin|]).
    by apply elem_of_nil in Hin. }
  destruct (H (fun _ => Raise TypeError) decode_ascii
              {[ "Room.Num"%string := trig ]}
              ([xff; xfa; xc9] ++ list_byte_of_string "Room.Num 12345"
               ++ [xff; xf0])
              "Room.Num"%string "12345"%string trig
              (<["Room.Num"%string :=
                   mkGMCPTrigger "Room.Num" (Some "12345"%string) (PInt 12345)
                                 true true]> {[ "Room.Num"%string := trig ]})
              [onSuccess "Room.Num" "12345" (PInt 12345)]
              ltac:(vm_compute; reflexivity) Hname eq_refl
              ltac:(vm_compute; reflexivity))
    as (trig' & Hlook & Hval).
  rewrite lookup_insert_eq in Hlook. injection Hlook as <-.
  discriminate Hval.
Qed.

(** A payload without a space: [find] returns -1, so the name is the
    text without its last character and the value is the whole text. *)
Lemma gmcp_payload_without_space eval_other :
  handle_gmcp_sb eval_other decode_ascii ∅
    ([xff; xfa; xc9] ++ list_byte_of_string "Core.Ping" ++ [xff; xf0])
  = Ok (∅, [info "Core.Pin: Core.Ping" "GMCP"]).
Proof. reflexivity. Qed.

Lemma find_space_none s :
  " "%char ∉ list_ascii_of_string s -> find_space s = (-1)%Z.
Proof.
  induction s as [|c s IH]; intros Hno; [done|].
  cbn [find_space list_ascii_of_string] in *.
  apply not_elem_of_cons in Hno as [Hc Hno].
  rewrite bool_decide_eq_false_2 by done.
  rewrite IH by done. by rewrite bool_decide_eq_true_2 by lia.
Qed.

(** X14.  A GMCP payload without a space is not taken as a name without
    a value: [find] returns -1, which the two slices use as an index, so
    the name passed to [feed_gmcp] is the payload without its last
    character and the value is the whole payload. *)
Theorem gmcp_payload_without_space_split eval_other decode _gmcp data front c :
  decode (Telnet.sb_payload data) = Ok (front +:+ String c "") ->
  " "%char ∉ list_ascii_of_string (front +:+ String c "") ->
  handle_gmcp_sb eval_other decode _gmcp data
  = Ok (feed_gmcp eval_other _gmcp front (front +:+ String c "")).
Proof.
  intros Hdec Hno. unfold handle_gmcp_sb. rewrite Hdec.
  cbn [mbind result_bind]. rewrite find_space_none by done.
  assert (Hlen : length (list_ascii_of_string (front +:+ String c ""))
                 = S (String.length front)).
  { rewrite chars_app, length_app, chars_length. simpl. lia. }
  assert (Hname : slice_to (front +:+ String c "") (-1) = front).
  { unfold slice_to, clamp. rewrite Hlen.
    rewrite bool_decide_eq_true_2 by lia.
    replace (Z.to_nat (Z.min (Z.max (-1 + Z.of_nat (S (String.length front))) 0)
                             (Z.of_nat (S (String.length front)))))
      with (length (list_ascii_of_string front))
      by (rewrite chars_length; lia).
    by rewrite chars_app, take_app_length, string_of_list_ascii_of_string. }
  assert (Hvalue : slice_from (front +:+ String c "") (-1 + 1)
                   = front +:+ String c "").
  { unfold slice_from, clamp.
    rewrite bool_decide_eq_false_2 by lia.
    match goal with
    | |- context [drop ?n _] => replace n with 0 by lia
    end.
    by rewrite drop_0, string_of_list_ascii_of_string. }
  by rewrite Hname, Hvalue.
Qed.

Lemma gmcp_payload_without_space_split_witness :
  handle_gmcp_sb (fun _ => Raise ValueError) decode_ascii ∅
    ([xff; xfa; xc9] ++ list_byte_of_string "Core.Ping" ++ [xff; xf0])
  = Ok (feed_gmcp (fun _ => Raise ValueError) ∅ "Core.Pin" "Core.Ping").
Proof.
  apply (gmcp_payload_without_space_split (fun _ => Raise ValueError)
           decode_ascii ∅ _ "Core.Pin" "g"%char); [done|].
  compute_done.
Defined.

End GmcpProperties.

(** ** MSDP *)

Section MsdpProperties.
Import Msdp.

(** In the table state every byte either raises or leaves the decoder in
    the table state, and the closing byte raises. *)
Lemma table_state_raises decode body : forall l,
  state_machine l = wait_val_in_table ->
  is_ok (msdp_loop decode l (body ++ [MSDP_TABLE_CLOSE])) = false.
Proof.
  induction body as [|b body IH]; intros l Hst.
  - destruct l. simpl in *. subst. reflexivity.
  - cbn [app msdp_loop].
    destruct (msdp_step decode l b) as [l'|e] eqn:Hstep; [|done].
    cbn [mbind result_bind]. apply IH.
    destruct l. simpl in Hst. subst. unfold msdp_step in Hstep.
    repeat case_bool_decide; simplify_eq/=; try done.
    destruct state_machine_table0 as [[]|]; by simplify_eq/=.
Qed.

Lemma name_state_table decode name : forall l rest,
  state_machine l = wait_var_name ->
  MSDP_VAL ∉ name ->
  (forall l', state_machine l' = wait_val_in_table ->
     is_ok (msdp_loop decode l' rest) = false) ->
  is_ok (msdp_loop decode l (name ++ [MSDP_VAL; MSDP_TABLE_OPEN] ++ rest)) = false.
Proof.
  induction name as [|b name IH]; intros l rest Hst Hno Hrest.
  - destruct l. simpl in Hst. subst. cbn [app msdp_loop msdp_step].
    rewrite bool_decide_eq_true_2 by done.
    destruct (decode var_name0) as [current|e]; [|done].
    cbn [mbind result_bind msdp_step]. 
    rewrite bool_decide_eq_false_2 by done.
    rewrite bool_decide_eq_true_2 by done.
    cbn [mbind result_bind]. by apply Hrest.
  - apply not_elem_of_cons in Hno as [Hb Hno].
    cbn [app msdp_loop].
    destruct (msdp_step decode l b) as [l'|e] eqn:Hstep; [|done].
    cbn [mbind result_bind]. apply IH; [|done|done].
    destruct l. simpl in Hst. subst. unfold msdp_step in Hstep.
    rewrite (bool_decide_eq_false_2 (b = MSDP_VAL)) in Hstep by done.
    case_bool_decide; by simplify_eq/=.
Qed.

(** Every sub-negotiation that carries a value in table form, closed or
    not yet closed at the closing byte, makes the decoder raise. *)
Lemma msdp_table_form_raises decode msdp name body :
  MSDP_VAL ∉ name ->
  is_ok (handle_msdp_sb decode msdp
           ([Telnet.IAC; Telnet.SB; Telnet.MSDP]
            ++ (MSDP_VAR :: name ++ [MSDP_VAL; MSDP_TABLE_OPEN]
                ++ body ++ [MSDP_TABLE_CLOSE])
            ++ [Telnet.IAC; Telnet.SE])) = false.
Proof.
  intros Hno. unfold handle_msdp_sb. rewrite sb_payload_frame.
  cbn [msdp_loop msdp_step]. rewrite bool_decide_eq_true_2 by done.
  cbn [mbind result_bind].
  destruct (msdp_loop decode _ _) as [l|e] eqn:Hloop; [|done].
  pose proof (name_state_table decode name
                (mkLocals ∅ [] [] [] [] [] [] wait_var_name None None)
                (body ++ [MSDP_TABLE_CLOSE]) eq_refl Hno
                (table_state_raises decode body)) as Hraise.
  by rewrite Hloop in Hraise.
Qed.

(** C4.  The decoder does not return normally on every input: on the
    sub-negotiation [VAR "ROOM" VAL TABLE_OPEN VAR "k" VAL "v" TABLE_CLOSE]
    it raises [TypeError], whatever [self.msdp] holds, and so does not
    support a table value.  An array value is decoded. *)
Theorem msdp_table_payload_raises :
  (forall msdp,
     handle_msdp_sb Gmcp.decode_ascii msdp
       ([Telnet.IAC; Telnet.SB; Telnet.MSDP]
        ++ [MSDP_VAR] ++ list_byte_of_string "ROOM"
        ++ [MSDP_VAL; MSDP_TABLE_OPEN; MSDP_VAR] ++ list_byte_of_string "k"
        ++ [MSDP_VAL] ++ list_byte_of_string "v" ++ [MSDP_TABLE_CLOSE]
        ++ [Telnet.IAC; Telnet.SE])
     = Raise TypeError)
  /\ handle_msdp_sb Gmcp.decode_ascii ∅
       ([Telnet.IAC; Telnet.SB; Telnet.MSDP]
        ++ [MSDP_VAR] ++ list_byte_of_string "CMDS"
        ++ [MSDP_VAL; MSDP_ARRAY_OPEN; MSDP_VAL] ++ list_byte_of_string "LIST"
        ++ [MSDP_VAL] ++ list_byte_of_string "SEND" ++ [MSDP_ARRAY_CLOSE]
        ++ [Telnet.IAC; Telnet.SE])
     = Ok {[ "CMDS"%string := MArray ["LIST"; "SEND"]%string ]}.
Proof.
  split.
  - intros msdp. unfold handle_msdp_sb.
    match goal with
    | |- context [msdp_loop ?d ?l ?bs] =>
        assert (Hloop : msdp_loop d l bs = Raise TypeError)
          by (vm_compute; reflexivity)
    end.
    by rewrite Hloop.
  - vm_compute. reflexivity.
Qed.

End MsdpProperties.

(** ** The classifier on whole streams *)

Section StreamProperties.
Import Telnet Stream.

(** X2.  How the transport cuts the stream into chunks makes no
    difference: calling [data_received] once per chunk leaves the same
    protocol state and makes the same calls, in the same order, as one
    call on the whole stream. *)
Theorem received_in_chunks chunks : forall p,
  receive_all p chunks = data_received p (concat chunks).
Proof.
  induction chunks as [|c chunks IH]; intros p; [done|].
  cbn [receive_all concat]. rewrite data_received_app.
  destruct (data_received p c) as [[p1 ev1] [e|]]; [done|].
  by rewrite IH.
Qed.

Lemma fed_app e1 e2 : fed (e1 ++ e2) = fed e1 ++ fed e2.
Proof. unfold fed. apply omap_app. Qed.

Lemma classify_fed p b p' ev :
  classify p b = Ok (p', ev) -> IAC ∉ fed ev.
Proof.
  destruct p as [m n cmd d o]. unfold classify, append_sub_neg. simpl.
  destruct m, cmd, d, o; simpl;
    repeat case_bool_decide; simpl;
    repeat match goal with
           | |- context [is_option ?x] => destruct (is_option x)
           | |- context [_iac_handlers ?x] => destruct (_iac_handlers x)
           | |- context [_iac_subneg_handlers ?x] =>
               destruct (_iac_subneg_handlers x)
           end;
    intros [= <- <-] || intros [=];
    try apply not_elem_of_nil;
    by apply not_elem_of_cons; split; [|apply not_elem_of_nil].
Qed.

(** X3.  The byte 255 never reaches the session as data: in no state and
    on no input does [data_received] pass it to [feed_data]. *)
Theorem iac_never_fed data : forall p,
  IAC ∉ fed (data_received p data).1.2.
Proof.
  induction data as [|b data IH]; intros p; simpl; [apply not_elem_of_nil|].
  destruct (classify (count_byte p) b) as [[p1 ev]|e] eqn:Hc;
    [|apply not_elem_of_nil].
  specialize (IH p1).
  destruct (data_received p1 data) as [[p2 ev2] ex]. simpl in *.
  rewrite fed_app. apply not_elem_of_app. split; [|done].
  by eapply classify_fed.
Qed.

(** X4.  Text without the byte 255, received in the normal state, is
    handed to the session one byte at a time and in order; nothing else is
    called, the state stays normal and every byte is counted. *)
Theorem text_fed_in_order data : forall p,
  state_machine p = normal ->
  IAC ∉ data ->
  data_received p data =
    (mkProtocol normal (bytes_received_count p + length data) (iac_command p)
                (iac_sub_neg_data p) (iac_sub_neg_option p),
     feed_data <$> data, None).
Proof.
  induction data as [|b data IH]; intros [m n cmd d o] Hm Hno;
    simpl in Hm; subst m.
  - simpl. by rewrite Nat.add_0_r.
  - apply not_elem_of_cons in Hno as [Hb Hno]. simpl.
    unfold classify. simpl. rewrite bool_decide_eq_false_2 by done.
    rewrite IH by done. simpl. by rewrite Nat.add_succ_r.
Qed.

Lemma text_fed_in_order_witness :
  data_received connection_made [x68; x69; x0a] =
    (mkProtocol normal 3 None None None,
     [feed_data x68; feed_data x69; feed_data x0a], None).
Proof.
  apply (text_fed_in_order [x68; x69; x0a] connection_made); [reflexivity|].
  vm_compute. intros H. repeat (apply elem_of_cons in H as [H|H]; [done|]).
  by apply elem_of_nil in H.
Defined.

End StreamProperties.

(** ** Option negotiation *)

Section NegotiationProperties.
Import Telnet Negotiation.

Lemma negotiation_received p cmd opt :
  state_machine p = normal ->
  cmd ∈ [WILL; WONT; DO; DONT] ->
  data_received p [IAC; cmd; opt] =
    (mkProtocol normal (bytes_received_count p + 3) (Some cmd)
                (iac_sub_neg_data p) (iac_sub_neg_option p),
     [go_ahead;
      if is_option opt && _iac_handlers opt
      then iac_handler opt cmd else iac_default_handler cmd opt],
     None).
Proof.
  destruct p as [m n c d o]. simpl. intros -> Hcmd.
  unfold classify, set_state. simpl.
  rewrite (bool_decide_eq_true_2 _ Hcmd). simpl.
  replace (S (S (S n))) with (n + 3) by lia.
  by destruct (is_option opt), (_iac_handlers opt).
Qed.

(** The options that have a method [handle_<name>] are options of the
    table, and [iac_handler_of] finds the method. *)
Lemma handler_in_table srv cl opt :
  _iac_handlers opt = true ->
  is_option opt = true /\ is_Some (iac_handler_of srv cl opt).
Proof.
  unfold _iac_handlers. intros H%bool_decide_eq_true.
  repeat (apply elem_of_cons in H as [->|H]);
    try (split; [by vm_compute|];
         unfold iac_handler_of; repeat (case_bool_decide; [by eauto|]); done).
  by apply elem_of_nil in H.
Qed.

Lemma negotiate_default srv cl mtts p cmd opt :
  state_machine p = normal ->
  cmd ∈ [WILL; WONT; DO; DONT] ->
  _iac_handlers opt = false ->
  negotiate srv cl mtts p cmd opt = Some (_iac_default_handler mtts cmd opt).
Proof.
  intros Hp Hcmd Hopt. unfold negotiate.
  rewrite negotiation_received, Hopt, andb_false_r by done. done.
Qed.

Lemma negotiate_handler srv cl mtts p cmd opt handler :
  state_machine p = normal ->
  cmd ∈ [WILL; WONT; DO; DONT] ->
  _iac_handlers opt = true ->
  iac_handler_of srv cl opt = Some handler ->
  negotiate srv cl mtts p cmd opt = Some (handler mtts cmd).
Proof.
  intros Hp Hcmd Hopt Hh. unfold negotiate.
  destruct (handler_in_table srv cl opt Hopt) as [Hin _].
  rewrite negotiation_received, Hopt, Hin by done. simpl. by rewrite Hh.
Qed.

(** X5.  An option that the client has no handler for is refused: to
    [IAC WILL opt] and to [IAC WONT opt] the client replies
    [IAC DONT opt], to [IAC DO opt] and to [IAC DONT opt] it replies
    [IAC WONT opt], and it writes nothing else.  This is so for LINEMODE
    and for every byte that is not in the option table. *)
Theorem option_without_handler_refused srv cl mtts p cmd opt :
  state_machine p = normal ->
  cmd ∈ [WILL; WONT; DO; DONT] ->
  _iac_handlers opt = false ->
  negotiate srv cl mtts p cmd opt =
    Some (mtts,
          [[IAC; if bool_decide (cmd ∈ [WILL; WONT]) then DONT else WONT; opt]],
          None).
Proof.
  intros Hp Hcmd Hopt. rewrite negotiate_default by done.
  unfold _iac_default_handler.
  repeat (apply elem_of_cons in Hcmd as [->|Hcmd]); try done.
  by apply elem_of_nil in Hcmd.
Qed.

Lemma option_without_handler_refused_witness :
  negotiate default_server default_client None connection_made DO LINEMODE
  = Some (None, [[IAC; WONT; LINEMODE]], None).
Proof.
  apply (option_without_handler_refused default_server default_client None
           connection_made DO LINEMODE); [reflexivity| |reflexivity].
  do 2 apply list_elem_of_further. apply list_elem_of_here.
Defined.

Lemma switch_handler srv cl opt flag :
  switch_of srv opt = Some flag ->
  _iac_handlers opt = true
  /\ exists handler,
       iac_handler_of srv cl opt = Some handler
       /\ (forall mtts cmd, cmd <> WILL -> handler mtts cmd = (mtts, [], None))
       /\ (forall mtts, exists mtts' more,
             handler mtts WILL =
               (mtts', [IAC; if flag then DO else DONT; opt] :: more, None)
             /\ (flag = false -> mtts' = mtts /\ more = [])).
Proof.
  unfold switch_of.
  repeat (case_bool_decide; [subst opt; intros [= <-];
    (split; [by vm_compute|]); eexists; (split; [reflexivity|]);
    (split; [intros mtts cmd Hc;
             unfold handle_sga, handle_echo, handle_gmcp, handle_msdp,
                    handle_mssp, handle_mccp2, handle_mccp3, handle_msp,
                    handle_mxp, by_switch;
             by rewrite bool_decide_eq_false_2 by done
            |intros mtts;
             unfold handle_sga, handle_echo, handle_gmcp, handle_msdp,
                    handle_mssp, handle_mccp2, handle_mccp3, handle_msp,
                    handle_mxp, by_switch;
             rewrite bool_decide_eq_true_2 by done;
             match goal with |- context [if ?f then _ else _] => destruct f end;
             do 2 eexists; (split; [reflexivity|]); by intros])|]).
  done.
Qed.

(** X6.  For each of the options SGA, ECHO, GMCP, MSDP, MSSP, MCCP2,
    MCCP3, MSP and MXP the switch of the same name in [Settings.server]
    decides the answer to the server's offer: the first thing written in
    reply to [IAC WILL opt] is [IAC DO opt] when the switch is on and
    [IAC DONT opt] when it is off, and in the latter case nothing else is
    written.  To [IAC WONT opt], [IAC DO opt] and [IAC DONT opt] the
    client writes nothing. *)
Theorem offer_answered_by_switch srv cl mtts p opt flag :
  state_machine p = normal ->
  switch_of srv opt = Some flag ->
  (exists mtts' more,
     negotiate srv cl mtts p WILL opt =
       Some (mtts', [IAC; if flag then DO else DONT; opt] :: more, None)
     /\ (flag = false -> mtts' = mtts /\ more = []))
  /\ (forall cmd, cmd ∈ [WONT; DO; DONT] ->
        negotiate srv cl mtts p cmd opt = Some (mtts, [], None)).
Proof.
  intros Hp Hs.
  destruct (switch_handler srv cl opt flag Hs)
    as (Hh & handler & Hof & Hother & Hwill).
  split.
  - destruct (Hwill mtts) as (mtts' & more & Heq & Hoff).
    exists mtts', more. split; [|done].
    rewrite (negotiate_handler srv cl mtts p WILL opt handler); try done.
    + by rewrite Heq.
    + apply list_elem_of_here.
  - intros cmd Hcmd.
    rewrite (negotiate_handler srv cl mtts p cmd opt handler); try done.
    + rewrite Hother; [done|]. intros ->.
      repeat (apply elem_of_cons in Hcmd as [Hcmd|Hcmd]; [done|]).
      by apply elem_of_nil in Hcmd.
    + by apply list_elem_of_further.
Qed.

Lemma offer_answered_by_switch_witness :
  (exists mtts' more,
     negotiate default_server default_client None connection_made WILL ECHO =
       Some (mtts', [IAC; DONT; ECHO] :: more, None)
     /\ (false = false -> mtts' = None /\ more = []))
  /\ (forall cmd, cmd ∈ [WONT; DO; DONT] ->
        negotiate default_server default_client None connection_made cmd ECHO
        = Some (None, [], None)).
Proof.
  exact (offer_answered_by_switch default_server default_client None
           connection_made ECHO false eq_refl eq_refl).
Defined.

Lemma reply_about_intro opt verb rest :
  verb ∈ [DO; DONT; WILL; WONT; SB] -> reply_about opt (IAC :: verb :: opt :: rest).
Proof. intros Hv. by exists verb, rest. Qed.

Ltac solve_reply :=
  repeat first
    [ apply Forall_nil_2
    | apply Forall_cons_2
    | apply reply_about_intro;
      repeat first [apply list_elem_of_here | apply list_elem_of_further] ].

Lemma handler_replies_about srv cl opt handler mtts cmd :
  iac_handler_of srv cl opt = Some handler ->
  Forall (reply_about opt) (handler mtts cmd).1.2.
Proof.
  unfold iac_handler_of.
  repeat (case_bool_decide;
    [subst opt; intros [= <-];
     unfold handle_sga, handle_echo, handle_gmcp, handle_mccp2, handle_mccp3,
            handle_msp, handle_mxp, by_switch, handle_charset, handle_ttype,
            handle_naws, handle_mnes, handle_msdp, handle_mssp, send_msdp_sb;
     repeat case_bool_decide; simpl;
     repeat match goal with
            | |- context [if ?f then _ else _] => destruct f
            | |- context [match to_bytes ?z with _ => _ end] =>
                destruct (to_bytes z)
            end; simpl; solve_reply|]).
  done.
Qed.

(** X7.  Whatever the client writes in reply to the negotiation
    [IAC cmd opt] is about that option: every piece of data written starts
    with [IAC], then WILL, WONT, DO, DONT or SB, then the byte [opt].  This
    holds for every option byte, every setting of the switches and every
    window size, also when the handler raises. *)
Theorem reply_names_option srv cl mtts p cmd opt :
  state_machine p = normal ->
  cmd ∈ [WILL; WONT; DO; DONT] ->
  exists mtts' written ex,
    negotiate srv cl mtts p cmd opt = Some (mtts', written, ex)
    /\ Forall (reply_about opt) written.
Proof.
  intros Hp Hcmd. destruct (_iac_handlers opt) eqn:Hopt.
  - destruct (handler_in_table srv cl opt Hopt) as [_ [handler Hh]].
    rewrite (negotiate_handler srv cl mtts p cmd opt handler) by done.
    pose proof (handler_replies_about srv cl opt handler mtts cmd Hh) as Hw.
    destruct (handler mtts cmd) as [[mtts' written] ex]. by exists mtts', written, ex.
  - rewrite option_without_handler_refused by done.
    do 3 eexists. split; [reflexivity|].
    case_bool_decide; solve_reply.
Qed.

Lemma reply_names_option_witness :
  exists mtts' written ex,
    negotiate default_server default_client None connection_made WILL MSDP
    = Some (mtts', written, ex)
    /\ Forall (reply_about MSDP) written.
Proof.
  apply (reply_names_option default_server default_client None
           connection_made WILL MSDP); [reflexivity|].
  apply list_elem_of_here.
Defined.

Lemma byte_of_Z_value z :
  (0 <= z < 256)%Z -> Z.of_N (Byte.to_N (byte_of_Z z)) = z.
Proof.
  intros Hz. unfold byte_of_Z.
  destruct (Byte.of_N (Z.to_N z)) as [b|] eqn:Hb.
  - apply Byte.to_of_N in Hb. simpl. rewrite Hb. lia.
  - apply Byte.of_N_None_iff in Hb. lia.
Qed.

(** X8.  The answer to [IAC DO NAWS] is [IAC WILL NAWS] followed by one
    sub-negotiation of nine bytes that carries the width and the height
    of [Settings.client], each as two bytes, high byte first.  A width or
    height outside 0..65535 makes the handler raise after it has written
    [IAC WILL NAWS]. *)
Theorem naws_reports_window_size srv mtts p w h :
  state_machine p = normal ->
  ((0 <= w < 65536)%Z -> (0 <= h < 65536)%Z ->
   exists w1 w0 h1 h0,
     negotiate srv (mkClient w h) mtts p DO NAWS =
       Some (mtts, [[IAC; WILL; NAWS];
                    [IAC; SB; NAWS; w1; w0; h1; h0; IAC; SE]], None)
     /\ (256 * Z.of_N (Byte.to_N w1) + Z.of_N (Byte.to_N w0) = w)%Z
     /\ (256 * Z.of_N (Byte.to_N h1) + Z.of_N (Byte.to_N h0) = h)%Z)
  /\ (~ ((0 <= w < 65536)%Z /\ (0 <= h < 65536)%Z) ->
      negotiate srv (mkClient w h) mtts p DO NAWS =
        Some (mtts, [[IAC; WILL; NAWS]], Some OverflowError)).
Proof.
  intros Hp.
  assert (Hn : negotiate srv (mkClient w h) mtts p DO NAWS
               = Some (handle_naws (mkClient w h) mtts DO)).
  { apply negotiate_handler; [done| |done|done].
    do 2 apply list_elem_of_further. apply list_elem_of_here. }
  rewrite Hn. unfold handle_naws, to_bytes. simpl. split.
  - intros Hw Hh. rewrite !bool_decide_eq_true_2 by done.
    do 4 eexists. split; [reflexivity|].
    rewrite !byte_of_Z_value; [split| | | |].
    + pose proof (Z.div_mod w 256). lia.
    + pose proof (Z.div_mod h 256). lia.
    + apply Z.mod_pos_bound. lia.
    + split; [apply Z.div_pos; lia|apply Z.div_lt_upper_bound; lia].
    + apply Z.mod_pos_bound. lia.
    + split; [apply Z.div_pos; lia|apply Z.div_lt_upper_bound; lia].
  - intros Hno. case_bool_decide; [|done].
    rewrite bool_decide_eq_false_2; [done|]. tauto.
Qed.

Lemma naws_reports_window_size_witness :
  exists w1 w0 h1 h0,
    negotiate default_server (mkClient 150 40) None connection_made DO NAWS =
      Some (None, [[IAC; WILL; NAWS];
                   [IAC; SB; NAWS; w1; w0; h1; h0; IAC; SE]], None)
    /\ (256 * Z.of_N (Byte.to_N w1) + Z.of_N (Byte.to_N w0) = 150)%Z
    /\ (256 * Z.of_N (Byte.to_N h1) + Z.of_N (Byte.to_N h0) = 40)%Z.
Proof.
  destruct (naws_reports_window_size default_server None connection_made
              150 40 eq_refl) as [Hin _].
  apply Hin; lia.
Defined.

End NegotiationProperties.

(** ** Tokens and code blocks *)

Section CodeProperties.
Import Code CodeText.

Lemma append_cons x (a b : string) : String x a +:+ b = String x (a +:+ b).
Proof. done. Qed.

Lemma append_assoc (a b c : string) : (a +:+ b) +:+ c = a +:+ (b +:+ c).
Proof.
  induction a as [|x a IH]; [done|]. by rewrite !append_cons, IH.
Qed.

Lemma append_nil_r (a : string) : a +:+ "" = a.
Proof. induction a as [|x a IH]; [done|]. by rewrite append_cons, IH. Qed.

Lemma joined_add params arg s :
  joined params (arg +:+ s) = joined params arg +:+ s.
Proof.
  unfold joined. induction params as [|p params IH]; [done|].
  cbn [app]. destruct params as [|q params].
  - cbn [app String.concat]. by rewrite !append_assoc.
  - cbn [app String.concat] in *. rewrite IH. by rewrite !append_assoc.
Qed.

Lemma joined_next params arg :
  joined (params ++ [arg]) "" = joined params arg +:+ " ".
Proof.
  unfold joined. induction params as [|p params IH].
  - cbn. by rewrite append_nil_r.
  - cbn [app]. destruct params as [|q params].
    + cbn [app String.concat] in *. by rewrite append_nil_r, append_assoc.
    + cbn [app String.concat] in *. rewrite IH. by rewrite !append_assoc.
Qed.

Lemma scan_char_joined st ch st' :
  scan_char st ch = Ok st' ->
  joined (code_params st') (arg st')
  = joined (code_params st) (arg st) +:+ dequote (String ch "").
Proof.
  destruct st as [params a bc sq dq]. unfold scan_char, add_char.
  cbn [dequote]. unfold is_quote.
  repeat case_bool_decide; simplify_eq/=;
    try (intros [= <-]; cbn [code_params arg];
         first [ by rewrite joined_add
               | by rewrite append_nil_r
               | by rewrite joined_next ]).
  all: destruct (bool_decide (bc = 0)%Z && bool_decide (dq = 0)%Z
                 && bool_decide (sq = 0)%Z);
    intros [= <-]; cbn [code_params arg];
    first [ by rewrite joined_add | by rewrite joined_next ].
Qed.

Lemma dequote_app a b : dequote (a +:+ b) = dequote a +:+ dequote b.
Proof.
  induction a as [|c a IH]; [done|]. rewrite append_cons. cbn [dequote].
  destruct (is_quote c); [done|]. by rewrite append_cons, IH.
Qed.

Lemma scan_line_joined chars : forall st st',
  scan_line st chars = Ok st' ->
  joined (code_params st') (arg st')
  = joined (code_params st) (arg st) +:+ dequote (string_of_list_ascii chars).
Proof.
  induction chars as [|ch chars IH]; intros st st' Hscan.
  - cbn in Hscan. injection Hscan as <-. by rewrite append_nil_r.
  - cbn [scan_line] in Hscan.
    destruct (scan_char st ch) as [st1|e] eqn:Hch; [|done].
    cbn [mbind result_bind] in Hscan.
    rewrite (IH _ _ Hscan), (scan_char_joined _ _ _ Hch), append_assoc.
    f_equal. change (string_of_list_ascii (ch :: chars))
      with (String ch "" +:+ string_of_list_ascii chars).
    by rewrite dequote_app.
Qed.

(** X15.  The tokens of a line spell the line.  Whenever [create_line]
    accepts a line, its tokens joined by single spaces are the line
    without its quote characters (with a space after a leading [#], which
    is a token of its own), except that one space at the very end of the
    line is not spelled.  So the scanner loses nothing but quote
    characters and one trailing space, and splits at spaces only. *)
Theorem tokens_spell_the_line line mode hv tokens :
  create_line line = Ok (mode, hv, tokens) ->
  dequote (spelled line) = String.concat " " tokens
  \/ dequote (spelled line) = String.concat " " tokens +:+ " ".
Proof.
  unfold create_line. destruct line as [|c0 tl]; [done|].
  set (start := if bool_decide (c0 = "#"%char)
                then (["#"%string], list_ascii_of_string tl)
                else ([], list_ascii_of_string (String c0 tl))).
  assert (Hstart : joined start.1 "" +:+ dequote (string_of_list_ascii start.2)
                   = dequote (spelled (String c0 tl))).
  { subst start. unfold spelled. case_bool_decide; cbn [fst snd].
    - rewrite string_of_list_ascii_of_string. by rewrite dequote_app.
    - by rewrite string_of_list_ascii_of_string. }
  destruct start as [params0 chars]. cbn [fst snd] in Hstart.
  destruct (scan_line (mkLineScan params0 "" 0 0 0) chars) as [st|e] eqn:Hscan;
    [|done].
  cbn [mbind result_bind].
  destruct (bool_decide (single_quote st > 0)%Z
            || bool_decide (double_quote st > 0)%Z); [done|].
  apply scan_line_joined in Hscan. cbn [code_params arg] in Hscan.
  rewrite Hstart in Hscan. rewrite <- Hscan.
  case_bool_decide as Harg.
  - intros [= _ _ <-]. by left.
  - intros [= _ _ <-]. rewrite Harg.
    destruct (code_params st) as [|p ps]; [by left|].
    right. clear. unfold joined. revert p.
    induction ps as [|q ps IH]; intros p.
    + cbn [app String.concat]. by rewrite append_nil_r.
    + cbn [app String.concat] in *. by rewrite IH, !append_assoc.
Qed.

Lemma tokens_spell_the_line_witness :
  dequote (spelled "#wa 100") = String.concat " " ["#"; "wa"; "100"]%string
  \/ dequote (spelled "#wa 100")
     = String.concat " " ["#"; "wa"; "100"]%string +:+ " ".
Proof.
  apply (tokens_spell_the_line "#wa 100" async false ["#"; "wa"; "100"]%string).
  reflexivity.
Defined.

Lemma forces_cons m cl codes :
  forces m (cl :: codes) = bool_decide (syncMode cl = m) || forces m codes.
Proof.
  unfold forces.
  destruct (decide (syncMode cl = m)) as [H|H].
  - rewrite (bool_decide_eq_true_2 (syncMode cl = m)) by done.
    by rewrite bool_decide_eq_true_2 by (by apply Exists_cons_hd).
  - rewrite (bool_decide_eq_false_2 (syncMode cl = m)) by done. simpl.
    apply bool_decide_ext. rewrite Exists_cons. tauto.
Qed.

(** The mode that the loop of [CodeBlock.__init__] ends with, when it
    has seen a line forcing sync ([s]) or one forcing async ([a]). *)
Lemma block_syncmode_forces codes : forall s a : bool,
  block_syncmode (if s then (if a then conflict else sync)
                  else (if a then async else dontcare)) codes
  = (if s || forces sync codes
     then (if a || forces async codes then conflict else sync)
     else (if a || forces async codes then async else dontcare)).
Proof.
  induction codes as [|cl codes IH]; intros s a.
  - unfold forces. rewrite !bool_decide_eq_false_2 by (by intros ?%Exists_nil).
    by rewrite !orb_false_r.
  - rewrite !forces_cons. cbn [block_syncmode].
    destruct (syncMode cl) eqn:Hm; destruct s, a; cbn [combine_mode];
      rewrite ?bool_decide_eq_true_2 by done;
      rewrite ?bool_decide_eq_false_2 by done; cbn [orb];
      try (first [ apply (IH true true) | apply (IH true false)
                 | apply (IH false true) | apply (IH false false) ]);
      try done;
      by destruct (forces sync codes), (forces async codes).
Qed.

(** X16.  The mode of a code block, and how the block is run.  A block
    is in mode sync when some line forces sync ([#gag], [#replace]) and
    none forces async ([#wa], [#wait]), in mode async the other way round,
    in mode conflict when both kinds occur, and dontcare when neither
    does.  Without a [sync] argument, [execute] runs the lines one by one
    in order, and creates no task, exactly in mode sync; in every other
    mode it creates one task for the whole block, after a warning in mode
    conflict. *)
Theorem block_mode_and_execution text blk :
  new_CodeBlock text = Some (Ok blk) ->
  block_mode blk =
    (if forces sync (codes blk)
     then (if forces async (codes blk) then conflict else sync)
     else (if forces async (codes blk) then async else dontcare))
  /\ BlockRun.execute blk None =
       (if forces sync (codes blk)
        then (if forces async (codes blk)
              then [BlockRun.warning; BlockRun.create_task]
              else BlockRun.exec_code <$> codes blk)
        else [BlockRun.create_task]).
Proof.
  unfold new_CodeBlock. destruct (create_block text) as [[cls|e]|]; try done.
  intros [= <-]. cbn [block_mode codes BlockRun.execute].
  pose proof (block_syncmode_forces cls false false) as Hmode.
  cbn [orb] in Hmode. rewrite Hmode.
  by destruct (forces sync cls), (forces async cls).
Qed.

Lemma block_mode_and_execution_witness :
  exists blk,
    new_CodeBlock "#gag;#wa 100" = Some (Ok blk)
    /\ block_mode blk = conflict
    /\ BlockRun.execute blk None = [BlockRun.warning; BlockRun.create_task].
Proof.
  eexists. split; [reflexivity|].
  exact (block_mode_and_execution "#gag;#wa 100" _ eq_refl).
Defined.

(** *** Splitting a block into its lines *)

Lemma add_char_append cur c s :
  add_char cur c +:+ s = cur +:+ String c s.
Proof. unfold add_char. by rewrite append_assoc. Qed.

Lemma split_plain chars : forall lines cur,
  Forall plain_char chars ->
  split_block (mkBlockScan lines cur 0) chars
  = Ok (mkBlockScan lines (cur +:+ string_of_list_ascii chars) 0).
Proof.
  induction chars as [|c chars IH]; intros lines cur Hplain.
  - cbn. by rewrite append_nil_r.
  - apply Forall_cons in Hplain as [Hc Hplain]. unfold plain_char in Hc.
    cbn [split_block split_char].
    rewrite !bool_decide_eq_false_2
      by (intros ->; apply Hc; repeat first
            [apply list_elem_of_here | apply list_elem_of_further]).
    cbn [mbind result_bind]. rewrite IH by done.
    cbn [string_of_list_ascii]. by rewrite add_char_append.
Qed.

Lemma chars_concat sep c cs :
  list_ascii_of_string (String.concat sep (c :: cs))
  = list_ascii_of_string c
    ++ (cs ≫= fun x => list_ascii_of_string sep ++ list_ascii_of_string x).
Proof.
  revert c. induction cs as [|d cs IH]; intros c.
  - cbn. by rewrite app_nil_r.
  - change (String.concat sep (c :: d :: cs))
      with (c +:+ sep +:+ String.concat sep (d :: cs)).
    rewrite !chars_app, IH. cbn [mbind list_bind].
    change ((d :: cs) ≫= _)
      with ((list_ascii_of_string sep ++ list_ascii_of_string d)
            ++ (cs ≫= fun x => list_ascii_of_string sep ++ list_ascii_of_string x)).
    by rewrite <- !app_assoc.
Qed.

Lemma last_cons (x : string) cs d : List.last (x :: cs) d = List.last cs x.
Proof.
  revert x d. induction cs as [|y cs IH]; intros x d; [done|].
  change (List.last (x :: y :: cs) d) with (List.last (y :: cs) d).
  by rewrite (IH y d), (IH y x).
Qed.

(** The pieces after the first: each separator ends the piece being
    read and starts the next. *)
Lemma split_pieces cs : forall lines cur,
  Forall (fun x => Forall plain_char (list_ascii_of_string x)) cs ->
  split_block (mkBlockScan lines cur 0)
    (cs ≫= fun x => list_ascii_of_string ";" ++ list_ascii_of_string x)
  = Ok (mkBlockScan (lines ++ removelast (cur :: cs))
                    (List.last cs cur) 0).
Proof.
  induction cs as [|x cs IH]; intros lines cur Hcs.
  - cbn. by rewrite app_nil_r.
  - apply Forall_cons in Hcs as [Hx Hcs].
    change ((x :: cs) ≫= _)
      with (";"%char :: list_ascii_of_string x
            ++ (cs ≫= fun x => list_ascii_of_string ";" ++ list_ascii_of_string x)).
    cbn [split_block split_char].
    rewrite !bool_decide_eq_false_2 by done.
    rewrite !bool_decide_eq_true_2 by done. cbn [mbind result_bind].
    assert (Happ : forall a b st,
              split_block st (a ++ b)
              = (st' ← split_block st a; split_block st' b)).
    { clear. induction a as [|c a IHa]; intros b st; [done|].
      cbn [app split_block]. destruct (split_char st c); [|done].
      cbn [mbind result_bind]. apply IHa. }
    rewrite Happ, split_plain by done. cbn [mbind result_bind].
    rewrite string_of_list_ascii_of_string.
    change ("" +:+ x)%string with x. rewrite IH by done.
    by rewrite <- app_assoc, last_cons.
Qed.

Lemma simple_not_wrapped c cs sep :
  simple c -> is_wrapped (String.concat sep (c :: cs)) = false.
Proof.
  intros [Hne Hplain]. unfold is_wrapped. rewrite chars_concat.
  destruct c as [|c0 c]; [done|]. cbn [list_ascii_of_string app] in *.
  apply Forall_cons in Hplain as [Hc0 _].
  destruct (list_ascii_of_string c ++ _) as [|c1 l]; [done|].
  rewrite bool_decide_eq_false_2; [done|].
  intros ->. apply Hc0. apply list_elem_of_here.
Qed.

Lemma removelast_last (c : string) cs :
  removelast (c :: cs) ++ [List.last cs c] = c :: cs.
Proof.
  revert c. induction cs as [|d cs IH]; intros c; [done|].
  change (removelast (c :: d :: cs)) with (c :: removelast (d :: cs)).
  rewrite last_cons. cbn [app]. by rewrite IH.
Qed.

Lemma last_simple c cs :
  Forall simple (c :: cs) -> List.last cs c <> ""%string.
Proof.
  revert c. induction cs as [|d cs IH]; intros c Hs.
  - apply Forall_cons in Hs as [[Hne _] _]. done.
  - apply Forall_cons in Hs as [_ Hs]. rewrite last_cons. by apply IH.
Qed.

(** The pieces of a list of simple commands joined by separators are
    these commands. *)
Lemma block_pieces_simple c cs :
  Forall simple (c :: cs) ->
  block_pieces (String.concat ";" (c :: cs))
  = Ok (String.concat ";" (c :: cs), c :: cs).
Proof.
  intros Hs. pose proof Hs as Hall.
  apply Forall_cons in Hs as [Hc Hcs].
  unfold block_pieces. rewrite simple_not_wrapped by done.
  rewrite chars_concat.
  assert (Happ : forall a b st,
            split_block st (a ++ b)
            = (st' ← split_block st a; split_block st' b)).
  { clear. induction a as [|x a IHa]; intros b st; [done|].
    cbn [app split_block]. destruct (split_char st x); [|done].
    cbn [mbind result_bind]. apply IHa. }
  rewrite Happ, split_plain by apply Hc. cbn [mbind result_bind].
  rewrite string_of_list_ascii_of_string.
  change ("" +:+ c)%string with c.
  rewrite split_pieces.
  2:{ eapply Forall_impl; [exact Hcs|]. by intros x [_ Hx]. }
  cbn [mbind result_bind cur_line code_lines app].
  rewrite bool_decide_eq_true_2 by (by apply last_simple).
  by rewrite removelast_last.
Qed.

Lemma create_block_rec_simple fuel c :
  simple c ->
  create_block_rec (S fuel) c = Some (cl ← new_CodeLine c; Ok [cl]).
Proof.
  intros Hc. cbn [create_block_rec].
  pose proof (block_pieces_simple c [] ltac:(by apply Forall_singleton)) as Hp.
  cbn [String.concat] in Hp. by rewrite Hp.
Qed.

Lemma extend_codes_simple fuel cmds :
  Forall simple cmds ->
  extend_codes (create_block_rec (S fuel)) cmds = Some (mapM new_CodeLine cmds).
Proof.
  induction 1 as [|c cmds Hc _ IH]; [done|].
  cbn [extend_codes mapM]. rewrite create_block_rec_simple, IH by done.
  destruct (new_CodeLine c) as [cl|e]; [|done]. cbn [mbind result_bind].
  by destruct (mapM new_CodeLine cmds).
Qed.

(** X17.  A block of simple commands is split at its separators.  For
    two or more non-empty commands without braces and semicolons, joined
    by semicolons, [create_block] returns the code lines made from these
    commands, one each and in order; it raises what the first command
    that [CodeLine] rejects makes it raise. *)
Theorem simple_commands_split cmds :
  2 <= length cmds ->
  Forall simple cmds ->
  create_block (String.concat ";" cmds) = Some (mapM new_CodeLine cmds).
Proof.
  intros Hlen Hs. destruct cmds as [|c [|d cs]]; [simpl in Hlen; lia..|].
  unfold create_block.
  destruct (String.length (String.concat ";" (c :: d :: cs))) as [|fuel] eqn:Hfuel.
  { apply Forall_cons in Hs as [[Hne _] _]. destruct c; [done|].
    change (String.concat ";" (String a c :: d :: cs))
      with (String a (c +:+ ";" +:+ String.concat ";" (d :: cs))) in Hfuel.
    done. }
  cbn [create_block_rec]. rewrite block_pieces_simple by done.
  by apply extend_codes_simple.
Qed.

Lemma simple_commands_split_witness :
  create_block (String.concat ";" ["look"; "get all"; "north"]%string)
  = Some (mapM new_CodeLine ["look"; "get all"; "north"]%string).
Proof.
  apply simple_commands_split; [simpl; lia|].
  repeat (apply Forall_cons_2 || apply Forall_nil_2);
    (split; [done|unfold plain_char; compute_done]).
Defined.

Lemma split_block_app a : forall b st,
  split_block st (a ++ b) = (st' ← split_block st a; split_block st' b).
Proof.
  induction a as [|x a IHa]; intros b st; [done|].
  cbn [app split_block]. destruct (split_char st x); [|done].
  cbn [mbind result_bind]. apply IHa.
Qed.

Lemma simple_append_not_wrapped c tail :
  simple c -> is_wrapped (c +:+ tail) = false.
Proof.
  intros [Hne Hplain]. unfold is_wrapped. rewrite chars_app.
  destruct c as [|c0 c]; [done|]. cbn [list_ascii_of_string app] in *.
  apply Forall_cons in Hplain as [Hc0 _].
  destruct (list_ascii_of_string c ++ _) as [|c1 l]; [done|].
  rewrite bool_decide_eq_false_2; [done|].
  intros ->. apply Hc0. apply list_elem_of_here.
Qed.

(** X18.  One command followed by one separator is not split.  The
    separator ends the only piece, and for a block of one piece
    [create_block] builds the code line from the whole code, not from the
    piece; so for a simple command [c] the block ["c;"] is the single code
    line whose text is ["c;"], separator included, while ["c;d;"] is the
    two lines of [c] and [d]. *)
Theorem trailing_separator_kept c d :
  simple c -> simple d ->
  create_block (c +:+ ";") = Some (cl ← new_CodeLine (c +:+ ";"); Ok [cl])
  /\ create_block (c +:+ ";" +:+ d +:+ ";")
     = Some (mapM new_CodeLine [c; d]).
Proof.
  intros Hc Hd.
  assert (Hfuel : forall tail, exists fuel,
            String.length (c +:+ tail) = S fuel).
  { intros tail. destruct Hc as [Hne _]. destruct c as [|a c]; [done|].
    rewrite append_cons. by eexists. }
  split.
  - unfold create_block. destruct (Hfuel ";"%string) as [fuel ->].
    cbn [create_block_rec]. unfold block_pieces.
    rewrite simple_append_not_wrapped by done.
    rewrite chars_app, split_block_app, split_plain by apply Hc.
    cbn [mbind result_bind]. rewrite string_of_list_ascii_of_string.
    change ("" +:+ c)%string with c.
    change (list_ascii_of_string ";") with [";"%char].
    cbn [split_block split_char].
    rewrite !bool_decide_eq_false_2 by done.
    rewrite !bool_decide_eq_true_2 by done.
    cbn [mbind result_bind cur_line code_lines app].
    by rewrite bool_decide_eq_false_2 by (by intros H; apply H).
  - unfold create_block. destruct (Hfuel (";" +:+ d +:+ ";")%string) as [fuel ->].
    cbn [create_block_rec]. unfold block_pieces.
    rewrite simple_append_not_wrapped by done.
    rewrite chars_app, split_block_app, split_plain by apply Hc.
    cbn [mbind result_bind]. rewrite string_of_list_ascii_of_string.
    change ("" +:+ c)%string with c.
    change (";" +:+ d +:+ ";")%string with (String ";" (d +:+ ";")).
    cbn [list_ascii_of_string split_block split_char].
    rewrite !bool_decide_eq_false_2 by done.
    rewrite !bool_decide_eq_true_2 by done.
    cbn [mbind result_bind app].
    rewrite chars_app, split_block_app, split_plain by apply Hd.
    cbn [mbind result_bind]. rewrite string_of_list_ascii_of_string.
    change ("" +:+ d)%string with d.
    change (list_ascii_of_string ";") with [";"%char].
    cbn [split_block split_char].
    rewrite !bool_decide_eq_false_2 by done.
    rewrite !bool_decide_eq_true_2 by done.
    cbn [mbind result_bind cur_line code_lines app].
    rewrite bool_decide_eq_false_2 by (by intros H; apply H).
    apply extend_codes_simple.
    by repeat (apply Forall_cons_2 || apply Forall_nil_2).
Qed.

Lemma trailing_separator_kept_witness :
  create_block "look;"
  = Some (cl ← new_CodeLine "look;"; Ok [cl]).
Proof.
  refine (proj1 (trailing_separator_kept "look" "look" _ _));
    (split; [done|unfold plain_char; compute_done]).
Defined.

(** Code without braces leaves the scanner at depth 0. *)
Lemma split_unbraced chars : forall st,
  Forall (fun c => c ∉ ["{"; "}"]%char) chars ->
  block_brace_count st = 0%Z ->
  exists st', split_block st chars = Ok st' /\ block_brace_count st' = 0%Z.
Proof.
  induction chars as [|c chars IH]; intros [lines cur bc] Hc Hbc;
    cbn [block_brace_count] in Hbc; subst bc.
  - by eexists.
  - apply Forall_cons in Hc as [Hc0 Hc].
    cbn [split_block split_char].
    rewrite (bool_decide_eq_false_2 (c = "{"%char))
      by (intros ->; apply Hc0, list_elem_of_here).
    rewrite (bool_decide_eq_false_2 (c = "}"%char))
      by (intros ->; apply Hc0, list_elem_of_further, list_elem_of_here).
    case_bool_decide; rewrite ?bool_decide_eq_true_2 by done;
      cbn [mbind result_bind]; by apply IH.
Qed.

(** X19.  Code that starts with an opening and ends with a closing brace
    is unwrapped whether or not these two braces belong together.  When
    the first closing brace after the opening one comes before any other
    opening brace, as in two braced groups in a row [{a};{b}], what is
    left after unwrapping has an unmatched closing brace, and
    [create_block] raises. *)
Theorem braced_groups_rejected first rest :
  Forall (fun c => c ∉ ["{"; "}"]%char) (list_ascii_of_string first) ->
  create_block ("{" +:+ (first +:+ "}" +:+ rest) +:+ "}")
  = Some (Raise InvalidCodeBlock).
Proof.
  intros Hfirst. unfold create_block. cbn [create_block_rec].
  unfold block_pieces. rewrite is_wrapped_wrap, strip_wrapper_wrap.
  rewrite chars_app, split_block_app.
  destruct (split_unbraced (list_ascii_of_string first) (mkBlockScan [] "" 0)
              Hfirst eq_refl) as ([lines cur bc] & -> & Hbc).
  cbn [block_brace_count] in Hbc. subst bc. cbn [mbind result_bind].
  change ("}" +:+ rest)%string with (String "}" rest).
  cbn [list_ascii_of_string split_block split_char].
  rewrite bool_decide_eq_false_2 by done.
  rewrite bool_decide_eq_true_2 by done.
  by rewrite bool_decide_eq_true_2 by done.
Qed.

Lemma braced_groups_rejected_witness :
  create_block "{#wa 100};{look}" = Some (Raise InvalidCodeBlock).
Proof.
  apply (braced_groups_rejected "#wa 100" ";{look"). compute_done.
Defined.

End CodeProperties.

(** ** The MSDP decoder on payloads without a table *)

Section MsdpDecoder.
Import Msdp MsdpWire.
Variable decode : list byte -> result string.

Lemma msdp_name_read name : forall data name0 arr tbl text tname tvalue tst cur rest,
  name_text name ->
  msdp_loop decode
    (mkLocals data name0 arr tbl text tname tvalue wait_var_name tst cur)
    (name ++ rest)
  = msdp_loop decode
      (mkLocals data (name0 ++ name) arr tbl text tname tvalue wait_var_name tst cur)
      rest.
Proof.
  induction name as [|b name IH];
    intros data name0 arr tbl text tname tvalue tst cur rest Hname.
  - by rewrite app_nil_r.
  - apply Forall_cons in Hname as [Hb Hname].
    cbn [app msdp_loop msdp_step].
    rewrite bool_decide_eq_false_2
      by (intros ->; apply Hb, list_elem_of_here).
    rewrite bool_decide_eq_false_2
      by (intros Hin; apply Hb, list_elem_of_further, Hin).
    cbn [mbind result_bind]. rewrite IH by done. by rewrite <- app_assoc.
Qed.

(** [VAR name VAL] read from the start: the name is recorded with the
    value [None], and the decoder waits for the value. *)
Lemma msdp_variable_read name sname rest :
  name_text name ->
  decode name = Ok sname ->
  msdp_loop decode (mkLocals ∅ [] [] [] [] [] [] wait_var None None)
            (variable name ++ rest)
  = msdp_loop decode
      (mkLocals (<[sname := MNone]> ∅) name [] [] [] [] [] wait_var_value None
                (Some sname))
      rest.
Proof.
  intros Hname Hdec. unfold variable. rewrite <- !app_assoc.
  cbn [app msdp_loop msdp_step].
  rewrite bool_decide_eq_true_2 by done. cbn [mbind result_bind].
  rewrite msdp_name_read by done. cbn [app msdp_loop msdp_step].
  rewrite bool_decide_eq_true_2 by done. by rewrite Hdec.
Qed.

Lemma msdp_text_read text : forall data name arr tbl text0 tname tvalue tst cur rest,
  scalar_text text ->
  msdp_loop decode
    (mkLocals data name arr tbl text0 tname tvalue wait_var_value tst cur)
    (text ++ rest)
  = msdp_loop decode
      (mkLocals data name arr tbl (text0 ++ text) tname tvalue wait_var_value tst cur)
      rest.
Proof.
  induction text as [|b text IH];
    intros data name arr tbl text0 tname tvalue tst cur rest Htext.
  - by rewrite app_nil_r.
  - apply Forall_cons in Htext as [Hb Htext].
    cbn [app msdp_loop msdp_step].
    rewrite (bool_decide_eq_false_2 (b = MSDP_ARRAY_OPEN))
      by (intros ->; apply Hb; do 2 apply list_elem_of_further;
          apply list_elem_of_here).
    rewrite (bool_decide_eq_false_2 (b = MSDP_TABLE_OPEN))
      by (intros ->; apply Hb; do 3 apply list_elem_of_further;
          apply list_elem_of_here).
    rewrite bool_decide_eq_false_2.
    2:{ intros Hin. apply Hb.
        apply elem_of_cons in Hin as [->|Hin]; [apply list_elem_of_here|].
        apply list_elem_of_further.
        apply elem_of_cons in Hin as [->|Hin]; [apply list_elem_of_here|].
        by apply elem_of_nil in Hin. }
    cbn [mbind result_bind]. rewrite IH by done. by rewrite <- app_assoc.
Qed.

(** Once a value is complete nothing more is read. *)
Lemma msdp_rest_ignored rest : forall l,
  state_machine l = wait_end -> msdp_loop decode l rest = Ok l.
Proof.
  induction rest as [|b rest IH]; intros l Hl; [done|].
  cbn [msdp_loop]. destruct l; simpl in Hl; subst. cbn [msdp_step mbind result_bind].
  by apply IH.
Qed.

Lemma msdp_element_bytes text : forall data name arr tbl text0 tname tvalue tst cur rest,
  Forall (fun b => b ∉ [MSDP_VAL; MSDP_ARRAY_CLOSE]) text ->
  msdp_loop decode
    (mkLocals data name arr tbl text0 tname tvalue wait_val_in_array tst cur)
    (text ++ rest)
  = msdp_loop decode
      (mkLocals data name arr tbl (text0 ++ text) tname tvalue wait_val_in_array
                tst cur)
      rest.
Proof.
  induction text as [|b text IH];
    intros data name arr tbl text0 tname tvalue tst cur rest Htext.
  - by rewrite app_nil_r.
  - apply Forall_cons in Htext as [Hb Htext].
    cbn [app msdp_loop msdp_step].
    rewrite (bool_decide_eq_false_2 (b = MSDP_ARRAY_CLOSE))
      by (intros ->; apply Hb, list_elem_of_further, list_elem_of_here).
    rewrite (bool_decide_eq_false_2 (b = MSDP_VAL))
      by (intros ->; apply Hb, list_elem_of_here).
    cbn [mbind result_bind]. rewrite IH by done. by rewrite <- app_assoc.
Qed.

Lemma msdp_single_entry (msdp : gmap string msdp_value) sname v :
  <[sname := v]> (∅ : gmap string msdp_value) ∪ msdp = <[sname := v]> msdp.
Proof. by rewrite <- insert_union_l, (left_id_L ∅ (∪)). Qed.

(** The elements of an array after the first, and the byte that closes
    the array, read while the text of an element is held. *)
Lemma msdp_elements_read elements :
  forall strs data name arr tbl e s tname tvalue tst current rest,
  e <> [] -> decode e = Ok s ->
  Forall element_text elements ->
  Forall2 (fun e s => decode e = Ok s) elements strs ->
  exists l,
    msdp_loop decode
      (mkLocals data name arr tbl e tname tvalue wait_val_in_array tst
                (Some current))
      ((elements ≫= (fun e => MSDP_VAL :: e)) ++ MSDP_ARRAY_CLOSE :: rest)
    = Ok l
    /\ msdp_data l = <[current := MArray (arr ++ s :: strs)]> data.
Proof.
  induction elements as [|e' elements IH];
    intros strs data name arr tbl e s tname tvalue tst current rest
           Hne Hs Hel Hdec.
  - apply Forall2_nil_inv_l in Hdec as ->.
    cbn [mbind list_bind app msdp_loop msdp_step]. 
    rewrite bool_decide_eq_true_2 by done. rewrite Hs.
    cbn [mbind result_bind get_local].
    rewrite msdp_rest_ignored by done. eexists. split; [reflexivity|done].
  - apply Forall2_cons_inv_l in Hdec as (s' & strs' & Hs' & Hdec & ->).
    apply Forall_cons in Hel as [[Hne' He'] Hel].
    change ((e' :: elements) ≫= (fun e => MSDP_VAL :: e))
      with ((MSDP_VAL :: e') ++ (elements ≫= (fun e => MSDP_VAL :: e))).
    rewrite <- !app_assoc. cbn [app msdp_loop msdp_step].
    rewrite bool_decide_eq_false_2 by done.
    rewrite (bool_decide_eq_true_2 (MSDP_VAL = MSDP_VAL)) by done.
    rewrite bool_decide_eq_true_2 by (destruct e; [done|simpl; lia]).
    rewrite Hs. cbn [mbind result_bind].
    rewrite msdp_element_bytes by done. cbn [app].
    destruct (IH strs' data name (arr ++ [s]) tbl e' s' tname tvalue tst current
                 rest Hne' Hs' Hel Hdec) as (l & Hl & Hdata).
    exists l. split; [done|]. by rewrite Hdata, <- app_assoc.
Qed.

(** X12.  A value in array form is decoded element by element.  For a
    name free of marker bytes and a non-empty list of non-empty elements
    that hold neither [MSDP_VAL] nor [MSDP_ARRAY_CLOSE], all decoding
    without error, the sub-negotiation
    [IAC SB MSDP VAR name VAL ARRAY_OPEN (VAL element)* ARRAY_CLOSE ... IAC SE]
    stores under the name the list of the decoded elements, in order, in
    [self.msdp], whatever follows the array in the payload. *)
Theorem msdp_array_decoded msdp name sname elements strs rest :
  name_text name ->
  decode name = Ok sname ->
  elements <> [] ->
  Forall element_text elements ->
  Forall2 (fun e s => decode e = Ok s) elements strs ->
  handle_msdp_sb decode msdp (frame (variable name ++ array elements ++ rest))
  = Ok (<[sname := MArray strs]> msdp).
Proof.
  intros Hname Hsname Hne Hel Hdec.
  unfold handle_msdp_sb, frame. rewrite sb_payload_frame.
  rewrite (msdp_variable_read name sname) by done.
  destruct elements as [|e elements]; [done|].
  apply Forall2_cons_inv_l in Hdec as (s & strs' & Hs & Hdec & ->).
  apply Forall_cons in Hel as [[Hne' He] Hel].
  unfold array.
  change ((e :: elements) ≫= (fun e => MSDP_VAL :: e))
    with ((MSDP_VAL :: e) ++ (elements ≫= (fun e => MSDP_VAL :: e))).
  rewrite <- !app_assoc. cbn [app msdp_loop msdp_step].
  rewrite bool_decide_eq_true_2 by done. cbn [mbind result_bind msdp_step].
  rewrite bool_decide_eq_false_2 by done.
  rewrite bool_decide_eq_true_2 by done.
  rewrite bool_decide_eq_false_2 by (simpl; lia).
  cbn [mbind result_bind].
  rewrite msdp_element_bytes by done. cbn [app].
  destruct (msdp_elements_read elements strs' (<[sname := MNone]> ∅) name [] []
              e s [] [] None sname rest Hne' Hs Hel Hdec) as (l & -> & Hdata).
  cbn [mbind result_bind]. rewrite Hdata. cbn [app].
  by rewrite insert_insert_eq, msdp_single_entry.
Qed.

(** X13.  A value in text form is stored only when a marker byte ends
    it, and after the first value nothing more is read.  The loop stops
    short of the closing [IAC SE], so a value that runs to the end of the
    payload is never stored: [IAC SB MSDP VAR name VAL text IAC SE] leaves
    the name in [self.msdp] with the value [None].  When [MSDP_VAR] or
    [MSDP_VAL] follows the text, the decoded text is stored, and whatever
    comes after that byte, further variables included, is ignored. *)
Theorem msdp_text_value_needs_marker msdp name sname text stext :
  name_text name ->
  decode name = Ok sname ->
  scalar_text text ->
  decode text = Ok stext ->
  handle_msdp_sb decode msdp (frame (variable name ++ text))
  = Ok (<[sname := MNone]> msdp)
  /\ forall b rest,
       b ∈ [MSDP_VAR; MSDP_VAL] ->
       handle_msdp_sb decode msdp (frame (variable name ++ text ++ [b] ++ rest))
       = Ok (<[sname := MText stext]> msdp).
Proof.
  intros Hname Hsname Htext Hstext. split.
  - unfold handle_msdp_sb, frame. rewrite sb_payload_frame.
    rewrite <- (app_nil_r text).
    rewrite (msdp_variable_read name sname), msdp_text_read by done.
    cbn [msdp_loop mbind result_bind msdp_data].
    by rewrite msdp_single_entry.
  - intros b rest Hb.
    unfold handle_msdp_sb, frame. rewrite sb_payload_frame.
    rewrite (msdp_variable_read name sname), msdp_text_read by done.
    cbn [app msdp_loop msdp_step].
    rewrite (bool_decide_eq_false_2 (b = MSDP_ARRAY_OPEN)).
    2:{ intros ->. repeat (apply elem_of_cons in Hb as [Hb|Hb]; [done|]).
        by apply elem_of_nil in Hb. }
    rewrite (bool_decide_eq_false_2 (b = MSDP_TABLE_OPEN)).
    2:{ intros ->. repeat (apply elem_of_cons in Hb as [Hb|Hb]; [done|]).
        by apply elem_of_nil in Hb. }
    rewrite bool_decide_eq_true_2 by done. rewrite Hstext.
    cbn [mbind result_bind get_local].
    rewrite msdp_rest_ignored by done.
    cbn [mbind result_bind msdp_data].
    by rewrite insert_insert_eq, msdp_single_entry.
Qed.

End MsdpDecoder.

Lemma msdp_array_decoded_witness :
  Msdp.handle_msdp_sb Gmcp.decode_ascii ∅
    (MsdpWire.frame
       (MsdpWire.variable (list_byte_of_string "commands")
        ++ MsdpWire.array [list_byte_of_string "list";
                           list_byte_of_string "report"]
        ++ []))
  = Ok (<["commands"%string := Msdp.MArray ["list"; "report"]%string]> ∅).
Proof.
  apply (msdp_array_decoded Gmcp.decode_ascii ∅
           (list_byte_of_string "commands") "commands"%string
           [list_byte_of_string "list"; list_byte_of_string "report"]
           ["list"; "report"]%string []).
  - unfold MsdpWire.name_text. compute_done.
  - done.
  - done.
  - repeat (apply Forall_cons_2 || apply Forall_nil_2);
      (split; [done|compute_done]).
  - repeat (apply Forall2_cons_2 || apply Forall2_nil_2); done.
Defined.

Lemma msdp_text_value_needs_marker_witness :
  Msdp.handle_msdp_sb Gmcp.decode_ascii ∅
    (MsdpWire.frame (MsdpWire.variable (list_byte_of_string "HINT")
                     ++ list_byte_of_string "THE GAME"))
  = Ok (<["HINT"%string := Msdp.MNone]> ∅).
Proof.
  refine (proj1 (msdp_text_value_needs_marker Gmcp.decode_ascii ∅
                   (list_byte_of_string "HINT") "HINT"%string
                   (list_byte_of_string "THE GAME") "THE GAME"%string
                   _ eq_refl _ eq_refl)).
  - unfold MsdpWire.name_text. compute_done.
  - unfold MsdpWire.scalar_text. compute_done.
Defined.

(** ** Sub-negotiations of TTYPE, MSSP and MNES *)

Section SubnegotiationProperties.
Import Telnet.

Lemma requests_exhausted encode n :
  Ttype.requests encode n (Some 3) = Ok (Some 3, []).
Proof. induction n as [|n IH]; [done|]. simpl. by rewrite IH. Qed.

(** X9.  The terminal type exchange.  [IAC DO TTYPE] is answered with
    [IAC WILL TTYPE] and starts the count of requests.  The first three
    requests [IAC SB TTYPE SEND IAC SE] are then answered, in this order,
    with the name of the application, with XTERM and with MTTS 783, each
    as [IAC SB TTYPE IS <text> IAC SE]; every later request is left
    unanswered.  A request that arrives before the count was started
    raises [AttributeError]. *)
Theorem mtts_replies_in_order encode mtts n :
  Negotiation.handle_ttype mtts DO = (Some 0, [[IAC; WILL; TTYPE]], None)
  /\ Ttype.requests encode n (Some 0) =
       Ok (Some (n `min` 3),
           take n [Ttype.is_reply (encode "PYMUD");
                   Ttype.is_reply (list_byte_of_string "XTERM");
                   Ttype.is_reply (list_byte_of_string "MTTS 783")])
  /\ Ttype.handle_ttype_sb encode None Ttype.send_request = Raise AttributeError.
Proof.
  split_and!; [done| |done].
  destruct n as [|[|[|n]]]; try done.
  cbn [Ttype.requests]. 
  change (Ttype.handle_ttype_sb encode (Some 0) Ttype.send_request)
    with (Ok (Some 1, [Ttype.is_reply (encode Ttype.__appname__)])
          : result (option nat * list (list byte))).
  cbn [mbind result_bind].
  change (Ttype.handle_ttype_sb encode (Some 1) Ttype.send_request)
    with (Ok (Some 2, [Ttype.is_reply (list_byte_of_string "XTERM")])
          : result (option nat * list (list byte))).
  cbn [mbind result_bind].
  change (Ttype.handle_ttype_sb encode (Some 2) Ttype.send_request)
    with (Ok (Some 3, [Ttype.is_reply (list_byte_of_string "MTTS 783")])
          : result (option nat * list (list byte))).
  cbn [mbind result_bind].
  rewrite requests_exhausted. cbn [mbind result_bind].
  replace (S (S (S n)) `min` 3) with 3 by lia.
  by rewrite take_ge by (simpl; lia).
Qed.

Section MsspDecoder.
Import Mssp.
Variable decode : list byte -> result string.

Lemma mssp_name_bytes text : forall m k v f rest,
  mssp_text text ->
  mssp_loop decode (mkLocals m k v next_var f) (text ++ rest)
  = mssp_loop decode (mkLocals m (k ++ text) v next_var f) rest.
Proof.
  induction text as [|b text IH]; intros m k v f rest [Hvar Hval].
  - by rewrite app_nil_r.
  - apply not_elem_of_cons in Hvar as [Hb1 Hvar].
    apply not_elem_of_cons in Hval as [Hb2 Hval].
    cbn [app mssp_loop]. unfold mssp_step.
    rewrite !bool_decide_eq_false_2 by done. simpl.
    rewrite IH by done. by rewrite <- app_assoc.
Qed.

Lemma mssp_value_bytes text : forall m k v f rest,
  mssp_text text ->
  mssp_loop decode (mkLocals m k v next_val f) (text ++ rest)
  = mssp_loop decode (mkLocals m k (v ++ text) next_val f) rest.
Proof.
  induction text as [|b text IH]; intros m k v f rest [Hvar Hval].
  - by rewrite app_nil_r.
  - apply not_elem_of_cons in Hvar as [Hb1 Hvar].
    apply not_elem_of_cons in Hval as [Hb2 Hval].
    cbn [app mssp_loop]. unfold mssp_step.
    rewrite !bool_decide_eq_false_2 by done. simpl.
    rewrite IH by done. by rewrite <- app_assoc.
Qed.

(** One variable read: what was pending is stored and announced, and the
    variable just read is pending. *)
Lemma mssp_pair_read l l' k v rest :
  add_svr_status decode l = Ok l' ->
  mssp_text k -> mssp_text v ->
  mssp_loop decode l ([MSSP_VAR] ++ k ++ [MSSP_VAL] ++ v ++ rest)
  = mssp_loop decode (mkLocals (svrStatus l') k v next_val (Mssp.fed l')) rest.
Proof.
  intros Hl Hk Hv. cbn [app mssp_loop]. unfold mssp_step at 1.
  rewrite bool_decide_eq_true_2 by done. rewrite Hl. cbn [mbind result_bind].
  rewrite mssp_name_bytes by done. cbn [app mssp_loop]. unfold mssp_step at 1.
  rewrite bool_decide_eq_false_2 by done.
  rewrite bool_decide_eq_true_2 by done. cbn [svrStatus var val Mssp.fed].
  rewrite mssp_value_bytes by done. done.
Qed.

Lemma mssp_pairs_read pairs : forall strs l l',
  add_svr_status decode l = Ok l' ->
  Forall (fun kv => kv.1 <> [] /\ mssp_text kv.1 /\ mssp_text kv.2) pairs ->
  Forall2 (fun kv s => decode kv.1 = Ok s.1 /\ decode kv.2 = Ok s.2) pairs strs ->
  exists lf lf',
    mssp_loop decode l (mssp_wire pairs) = (lf, None)
    /\ add_svr_status decode lf = Ok lf'
    /\ svrStatus lf' = foldl (fun m s => <[s.1 := s.2]> m) (svrStatus l') strs
    /\ Mssp.fed lf' = Mssp.fed l' ++ strs.
Proof.
  induction pairs as [|[k v] pairs IH]; intros strs l l' Hl Hok Hdec.
  - apply Forall2_nil_inv_l in Hdec as ->. exists l, l'.
    by rewrite app_nil_r.
  - apply Forall2_cons_inv_l in Hdec as ([sk sv] & strs' & [Hk Hv] & Hdec & ->).
    apply Forall_cons in Hok as [(Hne & Htk & Htv) Hok].
    simpl in Hne, Htk, Htv, Hk, Hv.
    change (mssp_wire ((k, v) :: pairs))
      with (([MSSP_VAR] ++ k ++ [MSSP_VAL] ++ v) ++ mssp_wire pairs).
    rewrite <- !app_assoc.
    rewrite (mssp_pair_read l l') by done.
    destruct (IH strs' (mkLocals (svrStatus l') k v next_val (Mssp.fed l'))
                (mkLocals (<[sk := sv]> (svrStatus l')) k v next_val
                          (Mssp.fed l' ++ [(sk, sv)])))
      as (lf & lf' & Hloop & Hadd & Hsvr & Hfed); [|done|done|].
    + unfold add_svr_status. cbn [var val svrStatus Mssp.fed next_bytes].
      rewrite bool_decide_eq_true_2 by (destruct k; [done|simpl; lia]).
      by rewrite Hk, Hv.
    + exists lf, lf'. split_and!; [done|done|done|].
      rewrite Hfed. simpl. by rewrite <- app_assoc.
Qed.

(** X10.  The MSSP decoder reads what a server sends.  For a list of
    variables with non-empty names, whose names and values hold neither
    of the two marker bytes and decode without error, sent as
    [IAC SB MSSP (VAR name VAL value)* IAC SE], the handler calls
    [session.feed_mssp] once for every variable, in the order sent, with
    the decoded name and value, and records every variable in
    [self.mssp]; where a name occurs twice the later value stays. *)
Theorem mssp_variables_decoded mssp pairs strs :
  Forall (fun kv => kv.1 <> [] /\ mssp_text kv.1 /\ mssp_text kv.2) pairs ->
  Forall2 (fun kv s => decode kv.1 = Ok s.1 /\ decode kv.2 = Ok s.2) pairs strs ->
  handle_mssp_sb decode mssp
    ([Telnet.IAC; Telnet.SB; Telnet.MSSP] ++ mssp_wire pairs
     ++ [Telnet.IAC; Telnet.SE])
  = (foldl (fun m s => <[s.1 := s.2]> m) ∅ strs ∪ mssp, strs, None).
Proof.
  intros Hok Hdec. unfold handle_mssp_sb. rewrite sb_payload_frame.
  destruct (mssp_pairs_read pairs strs (mkLocals ∅ [] [] next_type [])
              (mkLocals ∅ [] [] next_type []) eq_refl Hok Hdec)
    as (lf & lf' & -> & -> & -> & ->).
  done.
Qed.

End MsspDecoder.

Lemma mssp_variables_decoded_witness :
  Mssp.handle_mssp_sb Gmcp.decode_ascii ∅
    ([IAC; SB; MSSP]
     ++ Mssp.mssp_wire [(list_byte_of_string "NAME", list_byte_of_string "PKU");
                        (list_byte_of_string "PLAYERS", list_byte_of_string "52")]
     ++ [IAC; SE])
  = (foldl (fun m s => <[s.1 := s.2]> m) ∅
       [("NAME", "PKU"); ("PLAYERS", "52")]%string ∪ ∅,
     [("NAME", "PKU"); ("PLAYERS", "52")]%string, None).
Proof.
  apply (mssp_variables_decoded Gmcp.decode_ascii ∅
           [(list_byte_of_string "NAME", list_byte_of_string "PKU");
            (list_byte_of_string "PLAYERS", list_byte_of_string "52")]
           [("NAME", "PKU"); ("PLAYERS", "52")]%string).
  - repeat (apply Forall_cons_2 || apply Forall_nil_2);
      (split; [done|]); split; split; vm_compute; intros H;
      repeat (apply elem_of_cons in H as [H|H]; [done|]);
      by apply elem_of_nil in H.
  - repeat (apply Forall2_cons_2 || apply Forall2_nil_2); by vm_compute.
Defined.

Section MnesRequests.
Import Mnes.
Variable decode : list byte -> result string.
Variable encode : string -> list byte.

Lemma mnes_name_bytes text : forall req name rest,
  SEND ∉ text ->
  mnes_loop decode (mkLocals req name wait_var_content) (text ++ rest)
  = mnes_loop decode (mkLocals req (name ++ text) wait_var_content) rest.
Proof.
  induction text as [|b text IH]; intros req name rest Hno.
  - by rewrite app_nil_r.
  - apply not_elem_of_cons in Hno as [Hb Hno].
    cbn [app mnes_loop]. unfold mnes_step. simpl.
    rewrite bool_decide_eq_true_2 by done. cbn [mbind result_bind].
    rewrite IH by done. by rewrite <- app_assoc.
Qed.

Lemma mnes_visited body :
  visited ([IAC; Telnet.SB; MNES] ++ body ++ [IAC; Telnet.SE]) = body ++ [IAC].
Proof.
  unfold visited. simpl. rewrite length_app. simpl.
  replace (body ++ [IAC; Telnet.SE]) with ((body ++ [IAC]) ++ [Telnet.SE])
    by (by rewrite <- app_assoc).
  apply take_app_length'. rewrite length_app. simpl. lia.
Qed.

Lemma mnes_request_start req name rest :
  mnes_loop decode (mkLocals req name wait_cmd) (SEND :: VAR :: rest)
  = mnes_loop decode (mkLocals req [] wait_var_content) rest.
Proof. done. Qed.

Lemma mnes_closing_byte req name :
  mnes_loop decode (mkLocals req name wait_var_content) [IAC]
  = Ok (mkLocals req (name ++ [IAC]) wait_var_content).
Proof. done. Qed.

Lemma mnes_name_end req name rest :
  0 < length name ->
  mnes_loop decode (mkLocals req name wait_var_content) (SEND :: rest)
  = (n ← decode name; mnes_loop decode (mkLocals (req ++ [n]) name wait_cmd) rest).
Proof.
  intros Hn. cbn [mnes_loop]. unfold mnes_step. simpl.
  rewrite bool_decide_eq_true_2 by done. by destruct (decode name).
Qed.

(** After a name has ended the loop waits for [SEND] again, and passes
    over every other byte. *)
Lemma mnes_bytes_skipped text : forall req name,
  SEND ∉ text ->
  mnes_loop decode (mkLocals req name wait_cmd) text
  = Ok (mkLocals req name wait_cmd).
Proof.
  induction text as [|b text IH]; intros req name Hno; [done|].
  apply not_elem_of_cons in Hno as [Hb Hno].
  cbn [mnes_loop]. unfold mnes_step. simpl.
  rewrite bool_decide_eq_false_2 by done. cbn [mbind result_bind].
  by apply IH.
Qed.

(** X11.  The variable that a MNES request names last gets no reply.
    The loop of [handle_mnes_sb] also visits the [IAC] that closes the
    sub-negotiation and takes it for one more byte of the name, so a name
    is requested only when the byte [SEND] follows it.  A request for one
    variable, [IAC SB MNES SEND VAR name IAC SE], is therefore never
    answered, whatever the name; and of a request for two variables,
    [IAC SB MNES SEND VAR name1 SEND VAR name2 IAC SE], only the first is
    answered, and only if [Settings.mnes] has it. *)
Theorem mnes_last_variable_unanswered mnes name1 name2 :
  SEND ∉ name1 -> SEND ∉ name2 -> name1 <> [] ->
  handle_mnes_sb decode encode mnes
    ([IAC; Telnet.SB; MNES] ++ ([SEND; VAR] ++ name1) ++ [IAC; Telnet.SE])
  = Ok []
  /\ handle_mnes_sb decode encode mnes
       ([IAC; Telnet.SB; MNES]
        ++ ([SEND; VAR] ++ name1 ++ [SEND; VAR] ++ name2)
        ++ [IAC; Telnet.SE])
     = (name ← decode name1;
        Ok (match mnes !! name with
            | Some value => [send_mnes_value encode name value]
            | None => []
            end)).
Proof.
  intros H1 H2 Hne. unfold handle_mnes_sb. rewrite !mnes_visited. split.
  - change (([SEND; VAR] ++ name1) ++ [IAC])
      with (SEND :: VAR :: name1 ++ [IAC]).
    rewrite mnes_request_start, (mnes_name_bytes name1 [] [] [IAC]) by done.
    rewrite mnes_closing_byte. done.
  - replace (([SEND; VAR] ++ name1 ++ [SEND; VAR] ++ name2) ++ [IAC])
      with (SEND :: VAR :: name1 ++ SEND :: (VAR :: name2 ++ [IAC]))
      by (simpl; by rewrite <- !app_assoc).
    rewrite mnes_request_start, (mnes_name_bytes name1 [] []) by done.
    rewrite mnes_name_end by (destruct name1; [done|simpl; lia]).
    cbn [app].
    destruct (decode name1) as [name|e]; cbn [mbind result_bind]; [|done].
    rewrite mnes_bytes_skipped;
      [simpl; by destruct (mnes !! name)|].
    apply not_elem_of_cons. split; [done|].
    apply not_elem_of_app. split; [done|].
    apply not_elem_of_cons. split; [done|apply not_elem_of_nil].
Qed.

End MnesRequests.

Lemma mnes_last_variable_unanswered_witness :
  Mnes.handle_mnes_sb Gmcp.decode_ascii list_byte_of_string Mnes.default_mnes
    ([IAC; SB; MNES]
     ++ ([Mnes.SEND; Mnes.VAR] ++ list_byte_of_string "CHARSET")
     ++ [IAC; SE])
  = Ok [].
Proof.
  apply (mnes_last_variable_unanswered Gmcp.decode_ascii list_byte_of_string
           Mnes.default_mnes (list_byte_of_string "CHARSET") []).
  - vm_compute. intros H.
    repeat (apply elem_of_cons in H as [H|H]; [done|]).
    by apply elem_of_nil in H.
  - apply not_elem_of_nil.
  - done.
Defined.

End SubnegotiationProperties.

(** ** Matching line after line *)

Section MatchRunProperties.
Import Objects MatchRun.

Lemma do_match_sync t line cb t' st cbs :
  do_match t line cb = Ok (t', st, cbs) -> sync t' = sync t /\ id t' = id t.
Proof.
  unfold do_match. destruct (match_line t line) as [m|e]; [|done].
  simpl. by intros [= <- _ _].
Qed.

(** A multi-line object with one pattern, at counter 0 or 1. *)
Lemma single_pattern_step t re k line cb :
  multiline_regex t [re] -> _mline t = Some k -> k <= 1 ->
  exists t' st,
    do_match t line cb = Ok (t', st, [])
    /\ state_result st = NOTSET
    /\ multiline_regex t' [re]
    /\ exists k', _mline t' = Some k' /\ k' <= 1.
Proof.
  intros (Hm & Hres & Hn) Hk Hle.
  unfold do_match, match_line. rewrite Hm, Hk, Hres, Hn. simpl.
  destruct k as [|[|k]]; [| |lia]; simpl.
  - destruct (re line) as [g|]; simpl; rewrite andb_false_r;
      destruct (cb && sync t); eexists _, _; (split; [reflexivity|]);
      (split; [done|]); (split; [done|]); eexists; (split; [reflexivity|]);
      simpl; lia.
  - rewrite andb_false_r.
    destruct (cb && sync t); eexists _, _; (split; [reflexivity|]);
      (split; [done|]); (split; [done|]); eexists; (split; [reflexivity|]);
      simpl; lia.
Qed.

(** X20.  A multi-line object with a single pattern never matches.  A
    line that matches the pattern moves the counter from 0 to 1, which is
    neither an interior counter nor the last one ([linesToMatch - 1] is
    0), so no branch of [match] handles it and the counter stays at 1:
    whatever lines follow, every call returns NOTSET and no callback is
    called. *)
Theorem single_pattern_multiline_never_matches t re ls cb :
  multiline_regex t [re] -> _mline t = Some 0 ->
  exists t' sts,
    match_all t ls cb = Ok (t', sts, [])
    /\ length sts = length ls
    /\ Forall (fun st => state_result st = NOTSET) sts.
Proof.
  intros Ht Hk.
  assert (Hgen : forall ls t k,
            multiline_regex t [re] -> _mline t = Some k -> k <= 1 ->
            exists t' sts,
              match_all t ls cb = Ok (t', sts, [])
              /\ length sts = length ls
              /\ Forall (fun st => state_result st = NOTSET) sts).
  { clear. induction ls as [|line ls IH]; intros t k Ht Hk Hle.
    - by exists t, [].
    - destruct (single_pattern_step t re k line cb Ht Hk Hle)
        as (t1 & st & Hdo & Hst & Ht1 & k1 & Hk1 & Hle1).
      destruct (IH t1 k1 Ht1 Hk1 Hle1) as (t2 & sts & Hall & Hlen & Hsts).
      exists t2, (st :: sts). cbn [match_all]. rewrite Hdo.
      cbn [mbind result_bind]. rewrite Hall. cbn [mbind result_bind].
      split_and!; [done|simpl; lia|by apply Forall_cons_2]. }
  apply (Hgen ls t 0); [done|done|lia].
Qed.

Lemma single_pattern_multiline_never_matches_witness :
  let t := mkMatchObject "tri_one" true 100 true false true false false
             (many_lines ["You see"]%string) true 1 None
             (Some [literal_regex "You see"]) (Some 0) [] [] false None in
  exists t' sts,
    match_all t ["You see a door"; "You see a cat"]%string true = Ok (t', sts, [])
    /\ length sts = 2
    /\ Forall (fun st => state_result st = NOTSET) sts.
Proof.
  intros t.
  apply (single_pattern_multiline_never_matches t (literal_regex "You see")
           ["You see a door"; "You see a cat"]%string true); by repeat split.
Defined.

(** The lines after the first, each matching its pattern. *)
Lemma match_rest hits res cb : forall t k,
  multiline_regex t res -> _mline t = Some k -> 0 < k ->
  hits <> [] ->
  k + length hits = length res ->
  Forall2 (fun (re : regex) h => re h.1 = Some h.2) (drop k res) hits ->
  exists t' sts calls,
    match_all t hits.*1 cb
    = Ok (t',
          sts ++ [mkState SUCCESS (id t)
                    (String.concat newline (lines t ++ hits.*1))
                    (wildcards t ++ concat hits.*2)],
          calls)
    /\ length sts = length hits - 1
    /\ Forall (fun st => state_result st = NOTSET) sts
    /\ calls = (if cb && sync t
                then [onSuccess (id t)
                        (String.concat newline (lines t ++ hits.*1))
                        (wildcards t ++ concat hits.*2)]
                else [])
    /\ _mline t' = Some 0.
Proof.
  induction hits as [|[line g] hits IH]; intros t k Ht Hk Hpos Hne Hlen Hall;
    [done|].
  destruct (drop k res) as [|re rest] eqn:Hdrop;
    [by apply Forall2_nil_inv_l in Hall|].
  apply Forall2_cons in Hall as [Hhit Hall]. cbn [fst snd] in Hhit.
  assert (Hre : res !! k = Some re).
  { rewrite <- (Nat.add_0_r k), <- lookup_drop, Hdrop. done. }
  assert (Hrest : drop (k + 1) res = rest).
  { rewrite <- drop_drop, Hdrop. done. }
  cbn [length] in Hlen. cbn [fmap list_fmap match_all fst snd concat].
  destruct hits as [|h hits].
  - destruct (match_final_hit t res k re line g cb Ht Hk Hpos ltac:(simpl in Hlen; lia)
                Hre Hhit) as (t' & st & calls & -> & -> & -> & Hk' & _).
    cbn [mbind result_bind fmap list_fmap match_all concat].
    exists t', [], (if cb && sync t
                    then [onSuccess (id t)
                            (String.concat newline (lines t ++ [line]))
                            (wildcards t ++ g)]
                    else []).
    rewrite !app_nil_r. by split_and!.
  - destruct (match_interior_hit t res k re line g cb Ht Hk
                ltac:(simpl in Hlen; lia) Hre Hhit)
      as (t1 & st & Hdo & Hst & Hk1 & Hw1 & Hl1 & Ht1).
    destruct (do_match_sync _ _ _ _ _ _ Hdo) as [Hsync Hid].
    rewrite Hdo. cbn [mbind result_bind].
    destruct (IH t1 (k + 1) Ht1 Hk1 ltac:(lia) ltac:(done)
                ltac:(simpl in *; lia) ltac:(by rewrite Hrest))
      as (t' & sts & calls & Hrun & Hlen' & Hsts & Hcalls & Hk').
    rewrite Hrun. cbn [mbind result_bind].
    exists t', (st :: sts), calls.
    rewrite Hid, Hl1, Hw1, Hsync, <- !app_assoc in *.
    split_and!; [done|simpl in *; lia|by apply Forall_cons_2|done|done].
Qed.

(** X21.  A multi-line object matches when every line of a run matches
    its pattern.  For two or more patterns, starting at counter 0 and
    with lines of which the i-th matches the i-th pattern, every call of
    [match] but the last returns NOTSET and calls nothing; the last
    returns SUCCESS with the lines of the run joined by newlines as its
    line and the captured groups of all the lines, in order, as its
    wildcards, and calls [onSuccess] with them if the object is
    synchronous and callbacks are asked for.  What the object held from
    earlier matches is not part of the result, and the counter is 0
    again. *)
Theorem multiline_run_matches t res hits cb :
  multiline_regex t res -> _mline t = Some 0 ->
  2 <= length res ->
  Forall2 (fun (re : regex) h => re h.1 = Some h.2) res hits ->
  exists t' sts calls,
    match_all t hits.*1 cb
    = Ok (t',
          sts ++ [mkState SUCCESS (id t)
                    (String.concat newline hits.*1) (concat hits.*2)],
          calls)
    /\ length sts = length res - 1
    /\ Forall (fun st => state_result st = NOTSET) sts
    /\ calls = (if cb && sync t
                then [onSuccess (id t) (String.concat newline hits.*1)
                        (concat hits.*2)]
                else [])
    /\ _mline t' = Some 0.
Proof.
  intros Ht Hk Hlen Hall.
  pose proof (Forall2_length _ _ _ Hall) as Hlens.
  destruct res as [|re res]; [simpl in Hlen; lia|].
  destruct hits as [|[line g] hits]; [done|].
  apply Forall2_cons in Hall as [Hhit Hall]. cbn [fst snd] in Hhit.
  destruct (match_first_hit t (re :: res) re line g cb Ht Hk eq_refl Hhit)
    as (t1 & st & Hdo & Hst & Hk1 & Hw1 & Hl1 & Ht1).
  destruct (do_match_sync _ _ _ _ _ _ Hdo) as [Hsync Hid].
  cbn [fmap list_fmap match_all fst snd concat]. rewrite Hdo.
  cbn [mbind result_bind].
  destruct (match_rest hits (re :: res) cb t1 1 Ht1 Hk1 ltac:(lia))
    as (t' & sts & calls & Hrun & Hlen' & Hsts & Hcalls & Hk').
  { destruct hits; [exfalso; simpl in *; lia|done]. }
  { simpl in *. lia. }
  { done. }
  rewrite Hrun. cbn [mbind result_bind].
  exists t', (st :: sts), calls.
  rewrite Hid, Hl1, Hw1, Hsync in *.
  split_and!; [done|simpl in *; lia|by apply Forall_cons_2|done|done].
Qed.

Lemma multiline_run_matches_witness :
  let res := [literal_regex "You see"; literal_regex "Exits:"] in
  let t := mkMatchObject "tri_room" true 100 true false true false false
             (many_lines ["You see"; "Exits:"]%string)
             true 2 None (Some res) (Some 0) [] [] false None in
  exists t' sts calls,
    match_all t ["You see a door"; "Exits: north"]%string true
    = Ok (t',
          sts ++ [mkState SUCCESS "tri_room"
                    (String.concat newline ["You see a door"; "Exits: north"]%string)
                    []],
          calls)
    /\ length sts = 1
    /\ Forall (fun st => state_result st = NOTSET) sts
    /\ calls = [onSuccess "tri_room"
                  (String.concat newline ["You see a door"; "Exits: north"]%string)
                  []]
    /\ _mline t' = Some 0.
Proof.
  intros res t.
  apply (multiline_run_matches t res
           [("You see a door", []); ("Exits: north", [])]%string true);
    [by repeat split|done|simpl; lia|].
  repeat (apply Forall2_cons_2 || apply Forall2_nil_2); done.
Defined.

Lemma prefix_occurs p : forall line,
  String.prefix p line = true <-> exists after, line = p +:+ after.
Proof.
  induction p as [|c p IH]; intros line.
  - split; [by exists line|by destruct line].
  - destruct line as [|d line]; cbn [String.prefix].
    + split; [done|]. by intros [after Heq].
    + destruct (ascii_dec c d) as [->|Hne].
      * rewrite IH. split; intros [after Heq]; exists after.
        -- by rewrite Heq.
        -- by injection Heq.
      * split; [done|]. intros [after Heq]. by injection Heq.
Qed.

Lemma is_substring_occurs p : forall line,
  is_substring p line = true <-> occurs_in p line.
Proof.
  unfold occurs_in. induction line as [|d line IH]; cbn [is_substring].
  - rewrite orb_false_r, prefix_occurs. split.
    + intros [after Heq]. by exists ""%string, after.
    + intros (before & after & Heq). destruct before; [by exists after|done].
  - rewrite orb_true_iff, prefix_occurs, IH. split.
    + intros [[after Heq]|(before & after & Heq)].
      * by exists ""%string, after.
      * exists (String d before), after. by rewrite Heq.
    + intros (before & after & Heq). destruct before as [|c before].
      * left. by exists after.
      * right. exists before, after. by injection Heq.
Qed.

(** X22.  An object with a plain text pattern ([isRegExp] off) matches
    exactly the lines in which the pattern occurs, anywhere.  On such a
    line [match] returns SUCCESS with the line itself and no wildcards;
    on any other line it returns NOTSET together with the line and the
    wildcards that the object still holds from its last match. *)
Theorem plain_pattern_matches_substring t pattern line cb :
  multiline t = false -> isRegExp t = false -> patterns t = one_line pattern ->
  exists t' calls,
    (occurs_in pattern line ->
     do_match t line cb = Ok (t', mkState SUCCESS (id t) line [], calls)
     /\ lines t' = [line] /\ wildcards t' = [])
    /\ (~ occurs_in pattern line ->
        do_match t line cb =
          Ok (t', mkState NOTSET (id t) (String.concat newline (lines t))
                          (wildcards t), [])
        /\ lines t' = lines t /\ wildcards t' = wildcards t).
Proof.
  intros Hm Hre Hp. unfold do_match, match_line. rewrite Hm, Hre, Hp. simpl.
  destruct (is_substring pattern line) eqn:Hsub.
  - apply is_substring_occurs in Hsub. simpl.
    eexists _, _. split; [intros _; by split_and!|]. by intros Hno.
  - simpl. rewrite andb_false_r.
    assert (Hno : ~ occurs_in pattern line).
    { rewrite <- is_substring_occurs. by rewrite Hsub. }
    destruct (cb && sync t); eexists _, [];
      (split; [by intros Hyes|intros _; by split_and!]).
Qed.

Lemma plain_pattern_matches_substring_witness :
  let t := mkMatchObject "tri_gold" true 100 true false false false false
             (one_line "gold") false 1 None None None [] [] false None in
  exists t' calls,
    (occurs_in "gold" "You get 5 gold coins." ->
     do_match t "You get 5 gold coins." true
     = Ok (t', mkState SUCCESS "tri_gold" "You get 5 gold coins." [], calls)
     /\ lines t' = ["You get 5 gold coins."%string] /\ wildcards t' = [])
    /\ (~ occurs_in "gold" "You get 5 gold coins." ->
        do_match t "You get 5 gold coins." true =
          Ok (t', mkState NOTSET "tri_gold" (String.concat newline []) [], [])
        /\ lines t' = [] /\ wildcards t' = []).
Proof.
  intros t.
  exact (plain_pattern_matches_substring t "gold" "You get 5 gold coins." true
           eq_refl eq_refl eq_refl).
Defined.

End MatchRunProperties.
